(** * Dropwizard input plugin: a shallow embedding and its specification

    The development follows [plugins/inputs/dropwizard/dropwizard.go]:

    - [Strconv]: the two [strconv] entry points the gauge decoder calls,
      [ParseInt] and [ParseFloat], and [strings.Trim];
    - [gaugeValue] and [UnmarshalJSON]: the polymorphic gauge decoder;
    - the schema records ([gauge], [counter], [histogram], [meter], [timer],
      [metrics]);
    - [gatherURL] and [Gather] as programs over the accumulator, the HTTP
      client and the clock, with an interleaving semantics for the
      goroutines that [Gather] starts;
    - [init]: the registration of the plugin and the plugin its factory
      makes. *)

From Stdlib Require Import ZArith Lia Bool List String Ascii.
From Stdlib Require Import Floats.SpecFloat.
From stdpp Require Import base gmap strings list fin_maps.

Import ListNotations.
Local Open Scope Z_scope.

(** ** Go's [strconv] and [strings], as far as the plugin uses them *)

Module Strconv.

(** What a [*NumError] can carry: [strconv.ErrSyntax], [strconv.ErrRange],
    or the complaint about the base. *)
Inductive NumError : Set := ErrSyntax | ErrRange | ErrBase.

Definition byte_of (c : ascii) : Z := Z.of_N (N_of_ascii c).

Definition maxUint64 : Z := 2 ^ 64 - 1.

(** Unsigned and signed 64-bit wrap-around. *)
Definition uint64 (z : Z) : Z := z mod 2 ^ 64.
Definition int64 (z : Z) : Z := (z + 2 ^ 63) mod 2 ^ 64 - 2 ^ 63.

(** The digit a byte stands for in [ParseUint]'s loop: ['0'..'9'],
    ['a'..'z'] and ['A'..'Z']; any other byte is a syntax error. *)
Definition digit_val (c : ascii) : option Z :=
  let d := byte_of c in
  if (48 <=? d) && (d <=? 57) then Some (d - 48)
  else if (97 <=? d) && (d <=? 122) then Some (d - 97 + 10)
  else if (65 <=? d) && (d <=? 90) then Some (d - 65 + 10)
  else None.

(** The loop of [ParseUint]: [n] is the value read so far, [cutoff] the
    smallest number with [cutoff * base > maxUint64], [maxVal] the largest
    value of the requested size. Arithmetic is on [uint64]. *)
Fixpoint ParseUint_loop (base cutoff maxVal : Z) (s : string) (n : Z)
  : Z * option NumError :=
  match s with
  | EmptyString => (n, None)
  | String c s' =>
      match digit_val c with
      | None => (0, Some ErrSyntax)
      | Some v =>
          if base <=? v then (0, Some ErrSyntax)
          else if cutoff <=? n then (maxUint64, Some ErrRange)
          else
            let n := uint64 (n * base) in
            let n1 := uint64 (n + v) in
            if (n1 <? n) || (maxVal <? n1) then (maxUint64, Some ErrRange)
            else ParseUint_loop base cutoff maxVal s' n1
      end
  end.

(** [strconv.ParseUint] for an explicit base in [2..36] and a bit size in
    [1..64] (the plugin passes 10 and 64). Base 0, which asks for the base
    to be read off a prefix, is not modelled and is answered like any other
    base out of range. *)
Definition ParseUint (s : string) (base bitSize : Z) : Z * option NumError :=
  match s with
  | EmptyString => (0, Some ErrSyntax)
  | _ =>
      if (2 <=? base) && (base <=? 36) then
        let cutoff := maxUint64 / base + 1 in
        let maxVal := uint64 (2 ^ bitSize - 1) in
        ParseUint_loop base cutoff maxVal s 0
      else (0, Some ErrBase)
  end.

(** The test of [ParseInt] on the error of [ParseUint]: there is one, and
    it is not [ErrRange]. *)
Definition not_range_error (err : option NumError) : bool :=
  match err with
  | None | Some ErrRange => false
  | Some _ => true
  end.

(** [strconv.ParseInt] once the sign is picked off: convert unsigned and
    check the range. A range error of [ParseUint] is not returned at once:
    the value that comes with it is above every cutoff, so the range check
    reports it. *)
Definition ParseInt_signed (neg : bool) (s : string) (base bitSize : Z)
  : Z * option NumError :=
  let '(un, err) := ParseUint s base bitSize in
  if not_range_error err then (0, err)
  else
    let cutoff := 2 ^ (bitSize - 1) in
    if negb neg && (cutoff <=? un) then (cutoff - 1, Some ErrRange)
    else if neg && (cutoff <? un) then (- cutoff, Some ErrRange)
    else
      let n := int64 un in
      (if neg then int64 (- n) else n, None).

(** [strconv.ParseInt]: the empty string is bad; else pick off a leading
    sign and go on as above. *)
Definition ParseInt (s : string) (base bitSize : Z) : Z * option NumError :=
  match s with
  | EmptyString => (0, Some ErrSyntax)
  | String c rest =>
      if Ascii.eqb c "+" then ParseInt_signed false rest base bitSize
      else if Ascii.eqb c "-" then ParseInt_signed true rest base bitSize
      else ParseInt_signed false s base bitSize
  end.

(** *** [ParseFloat]

    [float64] values are IEEE 754 binary64 numbers, in the standard
    library's specification format. The numbers read are the decimal ones
    of [readFloat] and the names of [special]; later releases of Go also
    read hexadecimal floats and underscores between digits, which the model
    does not. The result is the number correctly rounded, as [strconv]
    promises, whichever of its conversion paths gets there. *)
Definition float64 : Set := spec_float.
Definition prec64 : Z := 53.
Definition emax64 : Z := 1024.

Definition lower (c : ascii) : ascii :=
  let d := byte_of c in
  if (65 <=? d) && (d <=? 90) then ascii_of_N (Z.to_N (d + 32)) else c.

Fixpoint equalIgnoreCase (s t : string) : bool :=
  match s, t with
  | EmptyString, EmptyString => true
  | String a s', String b t' => Ascii.eqb (lower a) (lower b) && equalIgnoreCase s' t'
  | _, _ => false
  end.

(** [special]: the names of the infinities and of NaN. *)
Definition special (s : string) : option float64 :=
  match s with
  | EmptyString => None
  | String c _ =>
      if Ascii.eqb c "+" then
        if equalIgnoreCase s "+inf" || equalIgnoreCase s "+infinity"
        then Some (S754_infinity false) else None
      else if Ascii.eqb c "-" then
        if equalIgnoreCase s "-inf" || equalIgnoreCase s "-infinity"
        then Some (S754_infinity true) else None
      else if Ascii.eqb c "n" || Ascii.eqb c "N" then
        if equalIgnoreCase s "nan" then Some S754_nan else None
      else if Ascii.eqb c "i" || Ascii.eqb c "I" then
        if equalIgnoreCase s "inf" || equalIgnoreCase s "infinity"
        then Some (S754_infinity false) else None
      else None
  end.

Definition is_dec_digit (c : ascii) : bool :=
  (48 <=? byte_of c) && (byte_of c <=? 57).

(** The digits loop of [readFloat]: digits with at most one point. It
    returns the digits read as a number, how many of them followed the
    point, whether a digit was seen, and the rest of the input. *)
Fixpoint readDigits (s : string) (sawdot sawdigits : bool) (mant frac : Z)
  : option (Z * Z * bool * string) :=
  match s with
  | EmptyString => Some (mant, frac, sawdigits, s)
  | String c s' =>
      if Ascii.eqb c "." then
        if sawdot then None
        else readDigits s' true sawdigits mant frac
      else if is_dec_digit c then
        readDigits s' sawdot true (mant * 10 + (byte_of c - 48))
                   (if sawdot then frac + 1 else frac)
      else Some (mant, frac, sawdigits, s)
  end.

(** The exponent loop: once the exponent has reached 10000 further digits
    are read and ignored. *)
Fixpoint readExp (s : string) (e : Z) : Z * string :=
  match s with
  | EmptyString => (e, s)
  | String c s' =>
      if is_dec_digit c then
        readExp s' (if e <? 10000 then e * 10 + (byte_of c - 48) else e)
      else (e, s)
  end.

Definition starts_with_digit (s : string) : bool :=
  match s with
  | String c _ => is_dec_digit c
  | EmptyString => false
  end.

(** [readFloat]: sign, digits, optional exponent, nothing after it. The
    result [(neg, m, e)] stands for [(-1)^neg * m * 10^e]. *)
Definition readFloat (s : string) : option (bool * Z * Z) :=
  match s with
  | EmptyString => None
  | String c rest =>
      let '(neg, s1) :=
        if Ascii.eqb c "+" then (false, rest)
        else if Ascii.eqb c "-" then (true, rest)
        else (false, s) in
      match readDigits s1 false false 0 0 with
      | None => None
      | Some (mant, frac, sawdigits, s2) =>
          if negb sawdigits then None
          else
            match s2 with
            | EmptyString => Some (neg, mant, - frac)
            | String c2 s3 =>
                if Ascii.eqb c2 "e" || Ascii.eqb c2 "E" then
                  match s3 with
                  | EmptyString => None
                  | String c3 s4 =>
                      let '(esign, s5) :=
                        if Ascii.eqb c3 "+" then (1, s4)
                        else if Ascii.eqb c3 "-" then (-1, s4)
                        else (1, s3) in
                      if starts_with_digit s5 then
                        match readExp s5 0 with
                        | (e, EmptyString) => Some (neg, mant, e * esign - frac)
                        | (_, String _ _) => None
                        end
                      else None
                  end
                else None
            end
      end
  end.

(** The number nearest to [(-1)^neg * m * 10^e], ties to even, in the
    format of precision [prec] and exponent bound [emax]: an exact integer
    is rounded as it is, a fraction through the quotient and the position
    of the remainder. *)
Definition floatBits (prec emax : Z) (neg : bool) (m e : Z) : spec_float :=
  if m =? 0 then S754_zero neg
  else if 0 <=? e then
    binary_normalize prec emax ((if neg then - m else m) * 10 ^ e) 0 false
  else
    let '(q, e', l) := SFdiv_core_binary prec emax m 0 (10 ^ (- e)) 0 in
    binary_round_aux prec emax neg q e' l.

Definition is_inf (f : spec_float) : bool :=
  match f with S754_infinity _ => true | _ => false end.

(** [atof64] and [atof32], which differ in the format only: a
    syntactically valid number that rounds to an infinity is a range error
    (the infinity is still returned). *)
Definition atof (prec emax : Z) (s : string) : spec_float * option NumError :=
  match special s with
  | Some f => (f, None)
  | None =>
      match readFloat s with
      | Some (neg, m, e) =>
          let f := floatBits prec emax neg m e in
          (f, if is_inf f then Some ErrRange else None)
      | None => (S754_zero false, Some ErrSyntax)
      end
  end.

Definition atof64 (s : string) : float64 * option NumError :=
  atof prec64 emax64 s.

Definition atof32 (s : string) : spec_float * option NumError := atof 24 128 s.

(** [float64(f)] for a binary32 number [f]: the same number, in binary64. *)
Definition float64_of_float32 (f : spec_float) : float64 :=
  match f with
  | S754_finite s m e =>
      binary_normalize prec64 emax64 (if s then Zneg m else Zpos m) e false
  | _ => f
  end.

(** [strconv.ParseFloat]: binary32 rounding when [bitSize] is 32, binary64
    otherwise; the result is a [float64] in both cases. *)
Definition ParseFloat (s : string) (bitSize : Z) : float64 * option NumError :=
  if bitSize =? 32 then
    let '(f, err) := atof32 s in (float64_of_float32 f, err)
  else atof64 s.

(** [strings.TrimLeft], [TrimRight] and [Trim] for a cutset of ASCII
    bytes: every leading and every trailing byte of the cutset goes. *)
Fixpoint in_cutset (c : ascii) (cutset : string) : bool :=
  match cutset with
  | EmptyString => false
  | String d cs => Ascii.eqb c d || in_cutset c cs
  end.

Fixpoint TrimLeft (s cutset : string) : string :=
  match s with
  | EmptyString => EmptyString
  | String c s' => if in_cutset c cutset then TrimLeft s' cutset else s
  end.

Fixpoint TrimRight (s cutset : string) : string :=
  match s with
  | EmptyString => EmptyString
  | String c s' =>
      match TrimRight s' cutset with
      | EmptyString => if in_cutset c cutset then EmptyString else String c EmptyString
      | t => String c t
      end
  end.

Definition Trim (s cutset : string) : string :=
  TrimRight (TrimLeft s cutset) cutset.

End Strconv.

Import Strconv.

(** ** The gauge value and its decoder *)

(** [error] is what [err.Error()] prints. *)
Definition error : Set := string.

Inductive gaugeValueType : Set := IntType | FloatType | StringType.

Record gaugeValue : Set := mkGaugeValue {
  IntValue : Z;
  FloatValue : float64;
  StringValue : string;
  Type_ : gaugeValueType
}.

(** The zero value of the struct: a composite literal leaves the fields it
    does not name at their zero values, and [IntType] is [iota = 0]. *)
Definition gaugeValue_zero : gaugeValue :=
  {| IntValue := 0; FloatValue := S754_zero false;
     StringValue := EmptyString; Type_ := IntType |}.

Definition dquote : ascii := "034"%char.
Definition quote_cutset : string := String dquote EmptyString.

(** [(v *gaugeValue) UnmarshalJSON(b)]: the receiver is overwritten, the
    error returned is always [nil]. *)
Definition UnmarshalJSON (v : gaugeValue) (b : string) : gaugeValue * option error :=
  let jsonString := b in
  match ParseInt jsonString 10 64 with
  | (intValue, None) =>
      ({| IntValue := intValue; FloatValue := S754_zero false;
          StringValue := EmptyString; Type_ := IntType |}, None)
  | (_, Some _) =>
      match ParseFloat jsonString 64 with
      | (floatValue, None) =>
          ({| IntValue := 0; FloatValue := floatValue;
              StringValue := EmptyString; Type_ := FloatType |}, None)
      | (_, Some _) =>
          ({| IntValue := 0; FloatValue := S754_zero false;
              StringValue := Trim jsonString quote_cutset;
              Type_ := StringType |}, None)
      end
  end.


(** ** Integer literals *)

(** The value of a run of decimal digits, most significant first, on top of
    [acc]; [None] when a byte is not a decimal digit. No bound applies. *)
Fixpoint digits_value (s : string) (acc : Z) : option Z :=
  match s with
  | EmptyString => Some acc
  | String c s' =>
      if is_dec_digit c then digits_value s' (acc * 10 + (byte_of c - 48))
      else None
  end.

Definition unsigned_literal (s : string) : option Z :=
  match s with
  | EmptyString => None
  | _ => digits_value s 0
  end.

(** A base-10 integer literal: an optional sign and at least one digit. *)
Definition int_literal (s : string) : option Z :=
  match s with
  | EmptyString => None
  | String c rest =>
      if Ascii.eqb c "+" then unsigned_literal rest
      else if Ascii.eqb c "-" then Z.opp <$> unsigned_literal rest
      else unsigned_literal s
  end.

Definition minInt64 : Z := - 2 ^ 63.
Definition maxInt64 : Z := 2 ^ 63 - 1.

(** What [ParseInt] is to return on a literal of value [v]: the value when
    it fits 64 bits, else the nearest bound and a range error. *)
Definition ParseInt_outcome (v : Z) : Z * option NumError :=
  if v <? minInt64 then (minInt64, Some ErrRange)
  else if maxInt64 <? v then (maxInt64, Some ErrRange)
  else (v, None).

Definition cutoff10 : Z := maxUint64 / 10 + 1.

(** ** Quotes *)

Definition is_quote (c : ascii) : bool := Ascii.eqb c dquote.

Definition starts_with_quote (s : string) : bool :=
  match s with
  | String c _ => is_quote c
  | EmptyString => false
  end.

Fixpoint ends_with_quote (s : string) : bool :=
  match s with
  | EmptyString => false
  | String c EmptyString => is_quote c
  | String _ s' => ends_with_quote s'
  end.

Fixpoint all_quotes (s : string) : bool :=
  match s with
  | EmptyString => true
  | String c s' => is_quote c && all_quotes s'
  end.

(** Stripping one leading double quote, if there is one. *)
Definition strip_leading_quote (s : string) : string :=
  match s with
  | String c s' => if is_quote c then s' else s
  | EmptyString => EmptyString
  end.

(** Stripping one trailing double quote, if there is one. *)
Fixpoint strip_trailing_quote (s : string) : string :=
  match s with
  | EmptyString => EmptyString
  | String c EmptyString => if is_quote c then EmptyString else s
  | String c s' => String c (strip_trailing_quote s')
  end.

(** One leading and one trailing double quote stripped, if present. *)
Definition strip_one_quote (s : string) : string :=
  strip_trailing_quote (strip_leading_quote s).

(** A JSON string token: the text between two double quotes. *)
Definition quoted (t : string) : string := String dquote (t ++ quote_cutset).

(** [n] zero digits. *)
Fixpoint zeros (n : nat) : string :=
  match n with
  | O => EmptyString
  | S n' => String "0" (zeros n')
  end.

(** ** The nearest binary64 number *)

(** A finite binary64 number in units of [2^-1074], the smallest positive
    one: in that unit every finite binary64 number is an integer. *)
Definition float64_scaled (f : float64) : option Z :=
  match f with
  | S754_zero _ => Some 0
  | S754_finite s m e => Some ((if s then - Zpos m else Zpos m) * 2 ^ (e + 1074))
  | S754_infinity _ | S754_nan => None
  end.

(** [f] is a finite binary64 number and no finite binary64 number is
    closer to the integer [v]. *)
Definition nearest_float64 (v : Z) (f : float64) : Prop :=
  valid_binary prec64 emax64 f = true /\
  exists x, float64_scaled f = Some x /\
    forall g y, valid_binary prec64 emax64 g = true ->
      float64_scaled g = Some y ->
      Z.abs (x - v * 2 ^ 1074) <= Z.abs (y - v * 2 ^ 1074).

(** From this magnitude on a number rounds to an infinity: half a unit in
    the last place above the largest finite binary64 number. *)
Definition float64_overflow : Z := 2 ^ 1024 - 2 ^ 970.

(** The mantissa after rounding to nearest, ties to even: [q] is the
    mantissa cut off, [rem] what was cut, [half] half a unit of [q]. *)
Definition round_mant (q rem half : Z) : Z :=
  if rem <? half then q
  else if half <? rem then q + 1
  else if Z.even q then q else q + 1.

(** ** The schema *)

Record gauge : Set := { Value : gaugeValue }.

Record counter : Set := { c_Count : Z }.

Record histogram : Set := {
  h_Count : Z; h_Max : Z; h_Mean : float64; h_Min : Z;
  h_P50 : float64; h_P75 : float64; h_P95 : float64; h_P98 : float64;
  h_P99 : float64; h_P999 : float64; h_Stddev : float64
}.

Record meter : Set := {
  m_Count : Z; m_M15Rate : float64; m_M1Rate : float64; m_M5Rate : float64;
  m_MeanRate : float64; m_Units : string
}.

Record timer : Set := {
  t_Count : Z; t_Max : float64; t_Mean : float64; t_Min : float64;
  t_P50 : float64; t_P75 : float64; t_P95 : float64; t_P98 : float64;
  t_P99 : float64; t_P999 : float64; t_Stddev : float64;
  t_M15Rate : float64; t_M1Rate : float64; t_M5Rate : float64;
  t_MeanRate : float64; t_DurationUnits : string; t_RateUnits : string
}.

(** The five Go maps are finite maps keyed by the metric name. *)
Record metrics : Type := {
  Version : string;
  Gauges : gmap string gauge;
  Counters : gmap string counter;
  Histograms : gmap string histogram;
  Meters : gmap string meter;
  Timers : gmap string timer
}.

Definition metrics_zero : metrics :=
  {| Version := EmptyString; Gauges := ∅; Counters := ∅; Histograms := ∅;
     Meters := ∅; Timers := ∅ |}.

(** ** The accumulator *)

Definition Time : Set := Z.

(** A value of a [map[string]interface{}] of fields: an [int64] or a
    [float64]. *)
Inductive value : Set :=
| VInt (z : Z)
| VFloat (f : float64).

(** The methods of [telegraf.Accumulator] that take a measurement. *)
Inductive sink_method : Set :=
| AddFields | AddGauge | AddCounter | AddSummary | AddHistogram.

(** One call on the accumulator. [tags] is [None] for a [nil] map. *)
Inductive acc_call : Type :=
| AccAdd (method : sink_method) (measurement : string)
         (fields : gmap string value) (tags : option (gmap string string))
         (t : Time)
| AccAddError (err : error).

Definition is_record (c : acc_call) : bool :=
  match c with AccAdd _ _ _ _ _ => true | AccAddError _ => false end.

Definition call_fields (c : acc_call) : gmap string value :=
  match c with AccAdd _ _ f _ _ => f | AccAddError _ => ∅ end.

Definition call_time (c : acc_call) : option Time :=
  match c with AccAdd _ _ _ _ t => Some t | AccAddError _ => None end.

Definition call_method (c : acc_call) : option sink_method :=
  match c with AccAdd m _ _ _ _ => Some m | AccAddError _ => None end.

(** ** Programs over the clock, the HTTP client and the accumulator *)

(** What the world answers to [client.Get]: a response body, or an error. *)
Definition response : Set := string + error.

(** The orders in which the [range] loops over the five maps of a document
    take the entries. *)
Record orders : Type := {
  o_gauges : list (string * gauge);
  o_counters : list (string * counter);
  o_histograms : list (string * histogram);
  o_meters : list (string * meter);
  o_timers : list (string * timer)
}.

(** Go leaves the order of a [range] over a map open: each loop runs once
    for each entry of its map, in any order. *)
Definition orders_of (m : metrics) (o : orders) : Prop :=
  o_gauges o ≡ₚ map_to_list (Gauges m) /\
  o_counters o ≡ₚ map_to_list (Counters m) /\
  o_histograms o ≡ₚ map_to_list (Histograms m) /\
  o_meters o ≡ₚ map_to_list (Meters m) /\
  o_timers o ≡ₚ map_to_list (Timers m).

(** One of them: the order of [map_to_list]. *)
Definition canonical_orders (m : metrics) : orders :=
  {| o_gauges := map_to_list (Gauges m);
     o_counters := map_to_list (Counters m);
     o_histograms := map_to_list (Histograms m);
     o_meters := map_to_list (Meters m);
     o_timers := map_to_list (Timers m) |}.

Inductive event : Type :=
| EvNow (t : Time)
| EvGet (url : string) (r : response)
| EvRange (o : orders)
| EvClose
| EvAcc (c : acc_call).

(** A program asks for the time, performs a GET, learns the orders in which
    it is to range over the maps of a document, closes the response body or
    calls the accumulator, and goes on with the answer. The orders of the
    five loops are drawn together: nothing tells when they are. *)
Inductive prog (A : Type) : Type :=
| Ret (a : A)
| TimeNow (k : Time -> prog A)
| ClientGet (url : string) (k : response -> prog A)
| RangeOver (m : metrics) (k : orders -> prog A)
| BodyClose (k : prog A)
| Acc (c : acc_call) (k : prog A).

Arguments Ret {A} a.
Arguments TimeNow {A} k.
Arguments ClientGet {A} url k.
Arguments RangeOver {A} m k.
Arguments BodyClose {A} k.
Arguments Acc {A} c k.

Fixpoint bind {A B : Type} (p : prog A) (f : A -> prog B) : prog B :=
  match p with
  | Ret a => f a
  | TimeNow k => TimeNow (fun t => bind (k t) f)
  | ClientGet url k => ClientGet url (fun r => bind (k r) f)
  | RangeOver m k => RangeOver m (fun o => bind (k o) f)
  | BodyClose k => BodyClose (bind k f)
  | Acc c k => Acc c (bind k f)
  end.

(** A run of accumulator calls, then [k]. *)
Fixpoint emit {A : Type} (cs : list acc_call) (k : prog A) : prog A :=
  match cs with
  | [] => k
  | c :: cs' => Acc c (emit cs' k)
  end.

(** [for name, x := range m { ... }], the body making the calls
    [body name x], the loop taking the entries of [m] in the order
    [entries]. *)
Definition for_range {V : Type} (entries : list (string * V))
    (body : string -> V -> list acc_call) : list acc_call :=
  flat_map (fun kv => body kv.1 kv.2) entries.

(** ** The plugin *)

Section Plugin.

(** [*tls.Config], and [internal.GetTLSConfig], which builds one from the
    three paths and the flag, or fails. *)
Variable TLSConfig : Type.
Variable GetTLSConfig : string -> string -> string -> bool -> TLSConfig + error.

(** [json.NewDecoder(r).Decode(&m)] on the bytes of a body: the value
    decoded into [m], and the error if there is one. *)
Variable json_Decode : string -> metrics -> metrics * option error.

Record Transport : Type := {
  ResponseHeaderTimeout : Z;
  TLSClientConfig : TLSConfig
}.

Record Client : Type := {
  client_Transport : Transport;
  client_Timeout : Z
}.

Record Dropwizard : Type := {
  URLs : list string;
  SSLCA : string;
  SSLCert : string;
  SSLKey : string;
  InsecureSkipVerify : bool;
  Timeout : Z;
  client : option Client
}.

Definition DecodeJSONMetrics (r : string) : metrics * option error :=
  let decodedMetrics := metrics_zero in
  let '(decodedMetrics, err) := json_Decode r decodedMetrics in
  match err with
  | Some e => (decodedMetrics, Some e)
  | None => (decodedMetrics, None)
  end.

(** The bodies of the five loops of [gatherURL]. *)
Definition gauge_body (now : Time) (name : string) (g : gauge) : list acc_call :=
  match Type_ (Value g) with
  | IntType =>
      [AccAdd AddGauge name {[ "value" := VInt (IntValue (Value g)) ]} None now]
  | FloatType =>
      [AccAdd AddGauge name {[ "value" := VFloat (FloatValue (Value g)) ]} None now]
  | StringType => []
  end.

Definition counter_body (now : Time) (name : string) (c : counter) : list acc_call :=
  [AccAdd AddCounter name {[ "count" := VInt (c_Count c) ]} None now].

Definition histogram_body (now : Time) (name : string) (h : histogram)
  : list acc_call :=
  [AccAdd AddHistogram name
     (<["count" := VInt (h_Count h)]>
      (<["max" := VInt (h_Max h)]>
      (<["mean" := VFloat (h_Mean h)]>
      (<["min" := VInt (h_Min h)]>
      (<["p50" := VFloat (h_P50 h)]>
      (<["p75" := VFloat (h_P75 h)]>
      (<["p95" := VFloat (h_P95 h)]>
      (<["p98" := VFloat (h_P98 h)]>
      (<["p99" := VFloat (h_P99 h)]>
      (<["p999" := VFloat (h_P999 h)]>
      (<["stddev" := VFloat (h_Stddev h)]> ∅)))))))))))
     None now].

Definition meter_body (now : Time) (name : string) (m : meter) : list acc_call :=
  [AccAdd AddHistogram name
     (<["count" := VInt (m_Count m)]>
      (<["m15_rate" := VFloat (m_M15Rate m)]>
      (<["m1_rate" := VFloat (m_M1Rate m)]>
      (<["m5_rate" := VFloat (m_M5Rate m)]>
      (<["mean_rate" := VFloat (m_MeanRate m)]> ∅)))))
     None now].

Definition timer_body (now : Time) (name : string) (t : timer) : list acc_call :=
  [AccAdd AddFields name
     (<["count" := VInt (t_Count t)]>
      (<["max" := VFloat (t_Max t)]>
      (<["mean" := VFloat (t_Mean t)]>
      (<["min" := VFloat (t_Min t)]>
      (<["p50" := VFloat (t_P50 t)]>
      (<["p75" := VFloat (t_P75 t)]>
      (<["p95" := VFloat (t_P95 t)]>
      (<["p98" := VFloat (t_P98 t)]>
      (<["p99" := VFloat (t_P99 t)]>
      (<["p999" := VFloat (t_P999 t)]>
      (<["stddev" := VFloat (t_Stddev t)]>
      (<["m15_rate" := VFloat (t_M15Rate t)]>
      (<["m1_rate" := VFloat (t_M1Rate t)]>
      (<["m5_rate" := VFloat (t_M5Rate t)]>
      (<["mean_rate" := VFloat (t_MeanRate t)]> ∅)))))))))))))))
     None now].

(** The calls the five loops make on a decoded document, loop after loop,
    each in its order. *)
Definition normalize (o : orders) (now : Time) : list acc_call :=
  for_range (o_gauges o) (gauge_body now) ++
  for_range (o_counters o) (counter_body now) ++
  for_range (o_histograms o) (histogram_body now) ++
  for_range (o_meters o) (meter_body now) ++
  for_range (o_timers o) (timer_body now).

(** [gatherURL]: the time first, then the request, through the client of
    [d], which all the goroutines of a pass share; the deferred
    [resp.Body.Close()] runs on every return that follows a response. *)
Definition gatherURL (d : Dropwizard) (url : string) : prog (option error) :=
  TimeNow (fun now =>
  ClientGet url (fun resp =>
    match resp with
    | inr err => Ret (Some err)
    | inl body =>
        match DecodeJSONMetrics body with
        | (_, Some err) => BodyClose (Ret (Some err))
        | (metrics, None) =>
            RangeOver metrics (fun o =>
            emit (normalize o now) (BodyClose (Ret None)))
        end
    end)).

(** [fmt.Errorf("[url=%s]: %s", url, err)]. *)
Definition url_error (url : string) (err : error) : error :=
  "[url=" +:+ url +:+ "]: " +:+ err.

(** The goroutine [Gather] starts for one URL. *)
Definition gather_task (d : Dropwizard) (url : string) : prog unit :=
  bind (gatherURL d url) (fun err =>
    match err with
    | Some e => Acc (AccAddError (url_error url e)) (Ret tt)
    | None => Ret tt
    end).

Definition default_URL : string := "http://localhost:8081/metrics".

(** What a call of [Gather] amounts to: the plugin as the call leaves it,
    the goroutines it starts and waits for, and the error it returns once
    they are done. *)
Record pass : Type := {
  pass_d : Dropwizard;
  pass_tasks : list (prog unit);
  pass_err : option error
}.

Definition set_URLs (d : Dropwizard) (urls : list string) : Dropwizard :=
  {| URLs := urls; SSLCA := SSLCA d; SSLCert := SSLCert d; SSLKey := SSLKey d;
     InsecureSkipVerify := InsecureSkipVerify d; Timeout := Timeout d;
     client := client d |}.

Definition set_client (d : Dropwizard) (c : Client) : Dropwizard :=
  {| URLs := URLs d; SSLCA := SSLCA d; SSLCert := SSLCert d; SSLKey := SSLKey d;
     InsecureSkipVerify := InsecureSkipVerify d; Timeout := Timeout d;
     client := Some c |}.

Definition Gather (d : Dropwizard) : pass :=
  let d :=
    match URLs d with
    | [] => set_URLs d [default_URL]
    | _ => d
    end in
  let launch (d : Dropwizard) :=
    {| pass_d := d; pass_tasks := map (gather_task d) (URLs d);
       pass_err := None |} in
  match client d with
  | None =>
      match GetTLSConfig (SSLCert d) (SSLKey d) (SSLCA d) (InsecureSkipVerify d) with
      | inr err => {| pass_d := d; pass_tasks := []; pass_err := Some err |}
      | inl tlsCfg =>
          launch (set_client d
            {| client_Transport :=
                 {| ResponseHeaderTimeout := Timeout d;
                    TLSClientConfig := tlsCfg |};
               client_Timeout := Timeout d |})
      end
  | Some _ => launch d
  end.

End Plugin.

Arguments URLs {TLSConfig} d.
Arguments SSLCA {TLSConfig} d.
Arguments SSLCert {TLSConfig} d.
Arguments SSLKey {TLSConfig} d.
Arguments InsecureSkipVerify {TLSConfig} d.
Arguments Timeout {TLSConfig} d.
Arguments gatherURL {TLSConfig} json_Decode d url.
Arguments gather_task {TLSConfig} json_Decode d url.
Arguments Gather {TLSConfig} GetTLSConfig json_Decode d.
Arguments set_URLs {TLSConfig} d urls.
Arguments set_client {TLSConfig} d c.
Arguments client {TLSConfig} d.
Arguments pass_d {TLSConfig} p.
Arguments pass_tasks {TLSConfig} p.
Arguments pass_err {TLSConfig} p.

(** ** Goroutines: an interleaving semantics *)

(** The state of a pass under way: what is left of each goroutine, and the
    events so far, each with the index of the goroutine it belongs to. The
    clock, the network and the orders of iteration are free: any time, any
    response and any order of the entries may come. *)
Abbreviation pool := (list (prog unit)).
Abbreviation log := (list (nat * event)).

Inductive step : pool * log -> pool * log -> Prop :=
| step_now (ps : pool) (l : log) (i : nat) (k : Time -> prog unit) (t : Time) :
    ps !! i = Some (TimeNow k) ->
    step (ps, l) (<[i := k t]> ps, l ++ [(i, EvNow t)])
| step_get (ps : pool) (l : log) (i : nat) (url : string)
           (k : response -> prog unit) (r : response) :
    ps !! i = Some (ClientGet url k) ->
    step (ps, l) (<[i := k r]> ps, l ++ [(i, EvGet url r)])
| step_range (ps : pool) (l : log) (i : nat) (m : metrics)
             (k : orders -> prog unit) (o : orders) :
    ps !! i = Some (RangeOver m k) ->
    orders_of m o ->
    step (ps, l) (<[i := k o]> ps, l ++ [(i, EvRange o)])
| step_close (ps : pool) (l : log) (i : nat) (k : prog unit) :
    ps !! i = Some (BodyClose k) ->
    step (ps, l) (<[i := k]> ps, l ++ [(i, EvClose)])
| step_acc (ps : pool) (l : log) (i : nat) (c : acc_call) (k : prog unit) :
    ps !! i = Some (Acc c k) ->
    step (ps, l) (<[i := k]> ps, l ++ [(i, EvAcc c)]).

Inductive steps : pool * log -> pool * log -> Prop :=
| steps_refl (s : pool * log) : steps s s
| steps_step (s1 s2 s3 : pool * log) : steps s1 s2 -> step s2 s3 -> steps s1 s3.

Definition finished (p : prog unit) : bool :=
  match p with Ret _ => true | _ => false end.

(** [wg.Wait()] returns: every goroutine has run to its end. *)
Definition all_done (ps : pool) : Prop := Forall (fun p => finished p = true) ps.

(** A complete pass: from the goroutines started to all of them done. *)
Definition completes (tasks : pool) (l : log) : Prop :=
  exists ps, steps (tasks, []) (ps, l) /\ all_done ps.

(** The events of goroutine [i], in their order. *)
Definition events_of (i : nat) (l : log) : list event :=
  omap (fun ie : nat * event => if Nat.eqb ie.1 i then Some ie.2 else None) l.

Definition calls_of_events (es : list event) : list acc_call :=
  omap (fun e => match e with EvAcc c => Some c | _ => None end) es.

(** The accumulator calls of goroutine [i], and of the whole pass. *)
Definition calls_of (i : nat) (l : log) : list acc_call :=
  calls_of_events (events_of i l).

Definition all_calls (l : log) : list acc_call :=
  calls_of_events (map snd l).

(** One goroutine run to its end under a given clock reading and a given
    network, ranging in the order of [map_to_list]: its result and its
    events. *)
Fixpoint run {A : Type} (now : Time) (http : string -> response) (p : prog A)
  : A * list event :=
  match p with
  | Ret a => (a, [])
  | TimeNow k => let '(a, es) := run now http (k now) in (a, EvNow now :: es)
  | ClientGet url k =>
      let '(a, es) := run now http (k (http url)) in
      (a, EvGet url (http url) :: es)
  | RangeOver m k =>
      let '(a, es) := run now http (k (canonical_orders m)) in
      (a, EvRange (canonical_orders m) :: es)
  | BodyClose k => let '(a, es) := run now http k in (a, EvClose :: es)
  | Acc c k => let '(a, es) := run now http k in (a, EvAcc c :: es)
  end.

(** The schedule that runs the goroutines one after the other, goroutine
    [i] reading the time [clock i]. *)
Fixpoint run_seq (clock : nat -> Time) (http : string -> response)
    (i : nat) (tasks : pool) : log :=
  match tasks with
  | [] => []
  | p :: tasks' =>
      map (fun e => (i, e)) (run (clock i) http p).2 ++
      run_seq clock http (S i) tasks'
  end.

(** What a goroutine for [url] does from its first step to its last, given
    the time [t] it read, the response [r] it got and the orders [o] in
    which it ranged over the document, if it came to that. *)
Definition task_events (json_Decode : string -> metrics -> metrics * option error)
    (url : string) (t : Time) (r : response) (o : orders) : list event :=
  EvNow t :: EvGet url r ::
  match r with
  | inr err => [EvAcc (AccAddError (url_error url err))]
  | inl body =>
      match DecodeJSONMetrics json_Decode body with
      | (_, Some err) => [EvClose; EvAcc (AccAddError (url_error url err))]
      | (m, None) => EvRange o :: map EvAcc (normalize o t) ++ [EvClose]
      end
  end.

Definition call_name (c : acc_call) : option string :=
  match c with AccAdd _ n _ _ _ => Some n | AccAddError _ => None end.

(** [runs p es p']: the program [p], after the events [es], is at [p']. *)
Inductive runs {A : Type} : prog A -> list event -> prog A -> Prop :=
| runs_nil (p : prog A) : runs p [] p
| runs_now (k : Time -> prog A) (t : Time) (es : list event) (p' : prog A) :
    runs (k t) es p' -> runs (TimeNow k) (EvNow t :: es) p'
| runs_get (url : string) (k : response -> prog A) (r : response)
           (es : list event) (p' : prog A) :
    runs (k r) es p' -> runs (ClientGet url k) (EvGet url r :: es) p'
| runs_range (m : metrics) (k : orders -> prog A) (o : orders)
             (es : list event) (p' : prog A) :
    orders_of m o ->
    runs (k o) es p' -> runs (RangeOver m k) (EvRange o :: es) p'
| runs_close (k : prog A) (es : list event) (p' : prog A) :
    runs k es p' -> runs (BodyClose k) (EvClose :: es) p'
| runs_acc (c : acc_call) (k : prog A) (es : list event) (p' : prog A) :
    runs k es p' -> runs (Acc c k) (EvAcc c :: es) p'.

Definition is_clock_or_get (e : event) : bool :=
  match e with
  | EvNow _ | EvGet _ _ => true
  | EvRange _ | EvClose | EvAcc _ => false
  end.

(** The errors reported among some accumulator calls, and the records. *)
Definition call_errors (cs : list acc_call) : list error :=
  omap (fun c => match c with AccAddError e => Some e | _ => None end) cs.

Definition call_records (cs : list acc_call) : list acc_call :=
  List.filter is_record cs.

(** The error of one URL's pipeline, if it has one: that of the request,
    or that of decoding the body. *)
Definition pipeline_error (json_Decode : string -> metrics -> metrics * option error)
    (r : response) : option error :=
  match r with
  | inr err => Some err
  | inl body => (DecodeJSONMetrics json_Decode body).2
  end.

(** What a goroutine for [url] tells the accumulator: the records of the
    document when there is no error, else the error with its URL. *)
Definition task_calls (json_Decode : string -> metrics -> metrics * option error)
    (url : string) (t : Time) (r : response) (o : orders) : list acc_call :=
  match pipeline_error json_Decode r with
  | Some err => [AccAddError (url_error url err)]
  | None => normalize o t
  end.

(** The orders a goroutine ranged in were orders of the document it
    decoded, if it decoded one. *)
Definition task_orders (json_Decode : string -> metrics -> metrics * option error)
    (r : response) (o : orders) : Prop :=
  match r with
  | inl body =>
      match DecodeJSONMetrics json_Decode body with
      | (m, None) => orders_of m o
      | (_, Some _) => True
      end
  | inr _ => True
  end.

(** ** The field tables of the specification *)

Definition gauge_fields : list string := ["value"].
Definition counter_fields : list string := ["count"].
Definition histogram_fields : list string :=
  ["count"; "max"; "mean"; "min"; "p50"; "p75"; "p95"; "p98"; "p99"; "p999";
   "stddev"].
Definition meter_fields : list string :=
  ["count"; "m15_rate"; "m1_rate"; "m5_rate"; "mean_rate"].
Definition timer_fields : list string :=
  ["count"; "max"; "mean"; "min"; "p50"; "p75"; "p95"; "p98"; "p99"; "p999";
   "stddev"; "m15_rate"; "m1_rate"; "m5_rate"; "mean_rate"].

(** A gauge the normalizer keeps: its value is an integer or a float. *)
Definition numeric_gauge (g : gauge) : bool :=
  match Type_ (Value g) with
  | IntType | FloatType => true
  | StringType => false
  end.

Definition numeric_gauges (gs : list (string * gauge)) : list (string * gauge) :=
  filter (fun kv => numeric_gauge kv.2 = true) gs.

(** [c] is an output record for the metric [name]: stamped [now], without
    tags, its fields exactly those of [table]. *)
Definition record_for (table : list string) (now : Time)
    (c : acc_call) (name : string) : Prop :=
  is_record c = true /\ call_name c = Some name /\
  call_time c = Some now /\
  dom (call_fields c) = list_to_set table.

(** The calls [cs] are, one for one, output records for the metrics named
    [names], in some order of these. *)
Definition records_for (table : list string) (now : Time)
    (cs : list acc_call) (names : list string) : Prop :=
  exists ns, ns ≡ₚ names /\ Forall2 (record_for table now) cs ns.

(** [c] is a record for the metric [name] sent through [method]. *)
Definition sent_through (method : sink_method) (c : acc_call) (name : string)
  : Prop :=
  call_method c = Some method /\ call_name c = Some name.

(** ** A small world to run a pass in *)

(** The gauge the document decoder makes of the raw token of a [value]
    member: the token goes to [UnmarshalJSON]. *)
Definition gauge_of_token (raw : string) : gauge :=
  {| Value := (UnmarshalJSON gaugeValue_zero raw).1 |}.

Definition int_gauge (z : Z) : gauge :=
  {| Value := {| IntValue := z; FloatValue := S754_zero false;
                 StringValue := EmptyString; Type_ := IntType |} |}.

Definition string_gauge (s : string) : gauge :=
  {| Value := {| IntValue := 0; FloatValue := S754_zero false;
                 StringValue := s; Type_ := StringType |} |}.

Definition demo_doc : metrics :=
  {| Version := "3.1.2";
     Gauges := <["jvm.memory.total.used" := int_gauge 93176816]>
               (<["app.state" := string_gauge "ok"]> ∅);
     Counters := {[ "requests.total" := {| c_Count := 42 |} ]};
     Histograms := ∅; Meters := ∅; Timers := ∅ |}.

(** A stand-in for the JSON decoder that knows one body. *)
Definition demo_json_Decode (body : string) (m : metrics) : metrics * option error :=
  if String.eqb body "doc" then (demo_doc, None)
  else (m, Some "invalid character '<' looking for beginning of value").

Definition demo_GetTLSConfig (cert key ca : string) (insecure : bool) : unit + error :=
  inl tt.

Definition demo_http (url : string) : response :=
  if String.eqb url "http://a/metrics" then inl "doc"
  else if String.eqb url "http://b/metrics" then inl "<html>"
  else if String.eqb url "http://c/metrics" then inl "doc"
  else inr "connection refused".

Definition demo_d : Dropwizard unit :=
  {| URLs := ["http://a/metrics"; "http://b/metrics"; "http://c/metrics"];
     SSLCA := EmptyString; SSLCert := EmptyString; SSLKey := EmptyString;
     InsecureSkipVerify := false; Timeout := 5000000000; client := None |}.

Definition demo_clock (i : nat) : Time := 1000 + Z.of_nat i.

Definition demo_log : log :=
  run_seq demo_clock demo_http 0
          (pass_tasks (Gather demo_GetTLSConfig demo_json_Decode demo_d)).

(** ** Further vocabulary *)

(** The bytes a decimal number can begin with: a sign, a point or a
    digit. *)
Definition numeric_head (c : ascii) : bool :=
  Ascii.eqb c "+" || Ascii.eqb c "-" || Ascii.eqb c "." || is_dec_digit c.

Definition starts_numeric (s : string) : bool :=
  match s with
  | String c _ => numeric_head c
  | EmptyString => false
  end.

(** A zero or a finite non-zero number: neither an infinity nor NaN. *)
Definition is_finite (f : float64) : bool :=
  match f with
  | S754_zero _ | S754_finite _ _ _ => true
  | S754_infinity _ | S754_nan => false
  end.

Definition is_close (e : event) : bool :=
  match e with EvClose => true | _ => false end.

Definition call_tags (c : acc_call) : option (gmap string string) :=
  match c with AccAdd _ _ _ tg _ => tg | AccAddError _ => None end.

(** What [gatherURL] reads of a meter and of a timer: the numbers, not the
    unit strings. *)
Definition meter_numbers (m : meter) : Z * float64 * float64 * float64 * float64 :=
  (m_Count m, m_M15Rate m, m_M1Rate m, m_M5Rate m, m_MeanRate m).

Definition timer_numbers (t : timer) : Z * list float64 :=
  (t_Count t,
   [t_Max t; t_Mean t; t_Min t; t_P50 t; t_P75 t; t_P95 t; t_P98 t; t_P99 t;
    t_P999 t; t_Stddev t; t_M15Rate t; t_M1Rate t; t_M5Rate t; t_MeanRate t]).

(** Two lists of entries with the same names in the same order, the values
    alike under [key]. *)
Definition same_entries {V K : Type} (key : V -> K)
    (es es' : list (string * V)) : Prop :=
  Forall2 (fun a b => a.1 = b.1 /\ key a.2 = key b.2) es es'.

(** The fields that hold a float whatever the kind of the metric: the
    mean, the deviation, the percentiles and the rates. *)
Definition float_field (k : string) : bool :=
  existsb (String.eqb k)
    ["mean"; "stddev"; "p50"; "p75"; "p95"; "p98"; "p99"; "p999";
     "m15_rate"; "m1_rate"; "m5_rate"; "mean_rate"].

(** ** The values of the field tables *)

(** What the table of each kind puts under each of its field names, for
    one metric of the document: the member of the metric that the wire
    format has under that name. A gauge has its value when that is a
    number. *)
Definition gauge_values (g : gauge) : list (string * value) :=
  match Type_ (Value g) with
  | IntType => [("value", VInt (IntValue (Value g)))]
  | FloatType => [("value", VFloat (FloatValue (Value g)))]
  | StringType => []
  end.

Definition counter_values (c : counter) : list (string * value) :=
  [("count", VInt (c_Count c))].

Definition histogram_values (h : histogram) : list (string * value) :=
  [("count", VInt (h_Count h)); ("max", VInt (h_Max h));
   ("mean", VFloat (h_Mean h)); ("min", VInt (h_Min h));
   ("p50", VFloat (h_P50 h)); ("p75", VFloat (h_P75 h));
   ("p95", VFloat (h_P95 h)); ("p98", VFloat (h_P98 h));
   ("p99", VFloat (h_P99 h)); ("p999", VFloat (h_P999 h));
   ("stddev", VFloat (h_Stddev h))].

Definition meter_values (m : meter) : list (string * value) :=
  [("count", VInt (m_Count m)); ("m15_rate", VFloat (m_M15Rate m));
   ("m1_rate", VFloat (m_M1Rate m)); ("m5_rate", VFloat (m_M5Rate m));
   ("mean_rate", VFloat (m_MeanRate m))].

Definition timer_values (t : timer) : list (string * value) :=
  [("count", VInt (t_Count t)); ("max", VFloat (t_Max t));
   ("mean", VFloat (t_Mean t)); ("min", VFloat (t_Min t));
   ("p50", VFloat (t_P50 t)); ("p75", VFloat (t_P75 t));
   ("p95", VFloat (t_P95 t)); ("p98", VFloat (t_P98 t));
   ("p99", VFloat (t_P99 t)); ("p999", VFloat (t_P999 t));
   ("stddev", VFloat (t_Stddev t)); ("m15_rate", VFloat (t_M15Rate t));
   ("m1_rate", VFloat (t_M1Rate t)); ("m5_rate", VFloat (t_M5Rate t));
   ("mean_rate", VFloat (t_MeanRate t))].

(** [c] is the output record of the entry [kv] of a map of the document:
    sent through [method], named after the entry, stamped [now], without
    tags, and holding under each field name of the table the value of the
    entry, and no other field. *)
Definition record_of {V : Type} (method : sink_method)
    (values : V -> list (string * value)) (now : Time)
    (c : acc_call) (kv : string * V) : Prop :=
  call_method c = Some method /\ call_name c = Some kv.1 /\
  call_time c = Some now /\ call_tags c = None /\
  forall k v, call_fields c !! k = Some v <-> (k, v) ∈ values kv.2.

(** The calls [cs] are, one for one, the output records of the entries
    [entries], in some order of these. *)
Definition records_of {V : Type} (method : sink_method)
    (values : V -> list (string * value)) (now : Time)
    (cs : list acc_call) (entries : list (string * V)) : Prop :=
  exists es, es ≡ₚ entries /\ Forall2 (record_of method values now) cs es.

(** ** A document with a metric of every kind *)

(** [float64(z)] for an integer [z]. *)
Definition float64_of_Z (z : Z) : float64 :=
  binary_normalize prec64 emax64 z 0 false.

Definition sample_doc : metrics :=
  {| Version := "3.1.2";
     Gauges := <["jvm.threads.count" := gauge_of_token "27"]>
               (<["jvm.memory.heap.usage" := gauge_of_token "0.25"]>
               (<["app.state" := gauge_of_token (quoted "ok")]> ∅));
     Counters := {[ "requests.active" := {| c_Count := 3 |} ]};
     Histograms :=
       {[ "response.size" :=
            {| h_Count := 42; h_Max := 900; h_Mean := float64_of_Z 250;
               h_Min := 10; h_P50 := float64_of_Z 200;
               h_P75 := float64_of_Z 300; h_P95 := float64_of_Z 700;
               h_P98 := float64_of_Z 800; h_P99 := float64_of_Z 850;
               h_P999 := float64_of_Z 890; h_Stddev := float64_of_Z 120 |} ]};
     Meters :=
       {[ "requests.rate" :=
            {| m_Count := 77; m_M15Rate := float64_of_Z 15;
               m_M1Rate := float64_of_Z 1; m_M5Rate := float64_of_Z 5;
               m_MeanRate := float64_of_Z 9; m_Units := "events/second" |} ]};
     Timers :=
       {[ "requests.time" :=
            {| t_Count := 55; t_Max := float64_of_Z 990;
               t_Mean := float64_of_Z 260; t_Min := float64_of_Z 11;
               t_P50 := float64_of_Z 210; t_P75 := float64_of_Z 310;
               t_P95 := float64_of_Z 710; t_P98 := float64_of_Z 810;
               t_P99 := float64_of_Z 860; t_P999 := float64_of_Z 895;
               t_Stddev := float64_of_Z 130; t_M15Rate := float64_of_Z 16;
               t_M1Rate := float64_of_Z 2; t_M5Rate := float64_of_Z 6;
               t_MeanRate := float64_of_Z 8;
               t_DurationUnits := "seconds";
               t_RateUnits := "calls/second" |} ]} |}.

(** A plugin one of whose URLs refuses the connection, and its pass. *)
Definition demo_d_down : Dropwizard unit :=
  set_URLs demo_d ["http://a/metrics"; "http://down/metrics"].

Definition demo_log_down : log :=
  run_seq demo_clock demo_http 0
          (pass_tasks (Gather demo_GetTLSConfig demo_json_Decode demo_d_down)).

(** A [GetTLSConfig] that cannot read the CA file. *)
Definition failing_GetTLSConfig (cert key ca : string) (insecure : bool)
  : unit + error :=
  inr "open /etc/telegraf/ca.pem: no such file or directory".

(** ** Registration *)

(** [time.Second], in nanoseconds, the unit of a [time.Duration]. *)
Definition Second : Z := 1000000000.

(** [init]: the plugin registers, under the name [dropwizard], a factory
    that gives a plugin with a timeout of five seconds and every other
    field at its zero value. [inputs_Add] is [inputs.Add], the registry's
    entry point. *)
Definition init {TLSConfig R : Type}
    (inputs_Add : string -> (unit -> Dropwizard TLSConfig) -> R) : R :=
  inputs_Add "dropwizard" (fun _ =>
    {| URLs := []; SSLCA := EmptyString; SSLCert := EmptyString;
       SSLKey := EmptyString; InsecureSkipVerify := false;
       Timeout := Second * 5; client := None |}).

(* ===================================================================== *)
(** * Theorems *)
(* ===================================================================== *)

(** ** [ParseInt] reads integer literals *)

Section ParseIntFacts.

Lemma digit_val_dec c :
  is_dec_digit c = true ->
  digit_val c = Some (byte_of c - 48) /\ 0 <= byte_of c - 48 < 10.
Proof.
  unfold is_dec_digit, digit_val. intros H.
  rewrite H. apply andb_true_iff in H. split; [reflexivity|lia].
Qed.

Lemma digit_val_nondec c :
  is_dec_digit c = false ->
  match digit_val c with Some v => 10 <= v | None => True end.
Proof.
  unfold is_dec_digit, digit_val. intros H. rewrite H.
  repeat match goal with
         | |- context [if ?b then _ else _] => destruct b eqn:?
         end; auto; lia.
Qed.

Lemma digits_value_ge s : forall n v,
  0 <= n -> digits_value s n = Some v -> n <= v.
Proof.
  induction s as [|c s IH]; simpl; intros n v Hn H.
  - injection H as <-. lia.
  - destruct (is_dec_digit c) eqn:Hc; [|discriminate].
    destruct (digit_val_dec c Hc) as [_ Hd].
    apply IH in H; lia.
Qed.

Lemma uint64_small z : 0 <= z <= maxUint64 -> uint64 z = z.
Proof. unfold uint64, maxUint64. intros. apply Z.mod_small. lia. Qed.

Lemma uint64_range z : 0 <= uint64 z <= maxUint64.
Proof.
  unfold uint64, maxUint64.
  pose proof (Z.mod_pos_bound z (2 ^ 64) ltac:(lia)). lia.
Qed.

(** On a run of digits the loop returns their value, or reports a range
    error exactly when the value does not fit 64 bits. *)
Lemma ParseUint_loop_digits s : forall n v,
  0 <= n <= maxUint64 ->
  digits_value s n = Some v ->
  ParseUint_loop 10 cutoff10 maxUint64 s n =
    if v <=? maxUint64 then (v, None) else (maxUint64, Some ErrRange).
Proof.
  assert (Hmax : maxUint64 = 18446744073709551615) by reflexivity.
  assert (Hcut : cutoff10 = 1844674407370955162) by reflexivity.
  induction s as [|c s IH]; simpl; intros n v Hn H.
  - injection H as <-. destruct (Z.leb_spec n maxUint64); [reflexivity|lia].
  - destruct (is_dec_digit c) eqn:Hc; [|discriminate].
    destruct (digit_val_dec c Hc) as [-> Hd].
    set (d := byte_of c - 48) in *.
    assert (Hge : n * 10 + d <= v)
      by (apply (digits_value_ge s); [lia|exact H]).
    destruct (Z.leb_spec 10 d); [lia|].
    destruct (Z.leb_spec cutoff10 n).
    + destruct (Z.leb_spec v maxUint64); [lia|reflexivity].
    + rewrite (uint64_small (n * 10)) by lia.
      destruct (Z.le_gt_cases (n * 10 + d) maxUint64) as [Hfit|Hovf].
      * rewrite (uint64_small (n * 10 + d)) by lia.
        destruct (Z.ltb_spec (n * 10 + d) (n * 10)); [lia|].
        destruct (Z.ltb_spec maxUint64 (n * 10 + d)); [lia|].
        simpl. apply IH; [lia|exact H].
      * assert (Hw : uint64 (n * 10 + d) = n * 10 + d - 2 ^ 64).
        { unfold uint64. symmetry.
          apply Z.mod_unique with (q := 1); lia. }
        rewrite Hw.
        destruct (Z.ltb_spec (n * 10 + d - 2 ^ 64) (n * 10)); [|lia].
        simpl. destruct (Z.leb_spec v maxUint64); [lia|reflexivity].
Qed.

Lemma digits_value_None s : forall n m,
  digits_value s n = None -> digits_value s m = None.
Proof.
  induction s as [|c s IH]; simpl; intros n m H; [discriminate|].
  destruct (is_dec_digit c); [eapply IH, H|reflexivity].
Qed.

(** On anything else the loop ends in an error. *)
Lemma ParseUint_loop_nondigits s : forall n,
  digits_value s n = None ->
  ParseUint_loop 10 cutoff10 maxUint64 s n = (0, Some ErrSyntax) \/
  ParseUint_loop 10 cutoff10 maxUint64 s n = (maxUint64, Some ErrRange).
Proof.
  induction s as [|c s IH]; simpl; intros n H; [discriminate|].
  destruct (is_dec_digit c) eqn:Hc.
  - destruct (digit_val_dec c Hc) as [-> Hd].
    destruct (Z.leb_spec 10 (byte_of c - 48)); [lia|].
    destruct (cutoff10 <=? n); [now right|].
    destruct (_ || _); [now right|].
    apply IH. eapply digits_value_None, H.
  - pose proof (digit_val_nondec c Hc) as Hv.
    destruct (digit_val c) as [v|]; [|now left].
    destruct (Z.leb_spec 10 v); [now left|lia].
Qed.

Lemma ParseUint_literal s v :
  unsigned_literal s = Some v ->
  0 <= v /\
  ParseUint s 10 64 =
    if v <=? maxUint64 then (v, None) else (maxUint64, Some ErrRange).
Proof.
  unfold unsigned_literal, ParseUint. destruct s as [|c s]; [discriminate|].
  intros H. split.
  - apply (digits_value_ge (String c s) 0); [lia|exact H].
  - change ((2 <=? 10) && (10 <=? 36)) with true. cbv iota.
    change (uint64 (2 ^ 64 - 1)) with maxUint64.
    apply ParseUint_loop_digits; [unfold maxUint64; lia|exact H].
Qed.

Lemma ParseUint_nonliteral s :
  unsigned_literal s = None ->
  ParseUint s 10 64 = (0, Some ErrSyntax) \/
  ParseUint s 10 64 = (maxUint64, Some ErrRange).
Proof.
  unfold unsigned_literal, ParseUint. destruct s as [|c s]; [now left|].
  intros H. change ((2 <=? 10) && (10 <=? 36)) with true. cbv iota.
  change (uint64 (2 ^ 64 - 1)) with maxUint64.
  apply ParseUint_loop_nondigits, H.
Qed.

Lemma int64_small z : minInt64 <= z <= maxInt64 -> int64 z = z.
Proof.
  unfold int64, minInt64, maxInt64. intros.
  rewrite Z.mod_small; lia.
Qed.

(** The range check that ends [ParseInt], on the unsigned value [un] of
    the digits: the signed value when it fits, a range error otherwise. *)
Lemma ParseInt_range (neg : bool) (un : Z) :
  0 <= un <= maxUint64 ->
  (let cutoff := 2 ^ (64 - 1) in
   if negb neg && (cutoff <=? un) then (cutoff - 1, Some ErrRange)
   else if neg && (cutoff <? un) then (- cutoff, Some ErrRange)
   else let n := int64 un in (if neg then int64 (- n) else n, None)) =
  ParseInt_outcome (if neg then - un else un).
Proof.
  intros Hun. unfold ParseInt_outcome.
  assert (Hmax : maxUint64 = 18446744073709551615) by reflexivity.
  assert (Hmin : minInt64 = -9223372036854775808) by reflexivity.
  assert (Hmx : maxInt64 = 9223372036854775807) by reflexivity.
  change (2 ^ (64 - 1)) with 9223372036854775808.
  cbv zeta. destruct neg; simpl negb; simpl andb.
  - destruct (Z.ltb_spec 9223372036854775808 un);
      destruct (Z.ltb_spec (- un) minInt64); try lia.
    + rewrite Hmin. reflexivity.
    + destruct (Z.ltb_spec maxInt64 (- un)); [lia|].
      destruct (Z.eq_dec un 9223372036854775808) as [->|Hne].
      * reflexivity.
      * rewrite (int64_small un) by lia.
        rewrite (int64_small (- un)) by lia. reflexivity.
  - destruct (Z.leb_spec 9223372036854775808 un);
      destruct (Z.ltb_spec un minInt64); try lia;
      destruct (Z.ltb_spec maxInt64 un); try lia.
    + rewrite Hmx. reflexivity.
    + rewrite (int64_small un) by lia. reflexivity.
Qed.

Lemma ParseInt_signed_literal (neg : bool) (s1 : string) (u : Z) :
  unsigned_literal s1 = Some u ->
  ParseInt_signed neg s1 10 64 = ParseInt_outcome (if neg then - u else u).
Proof.
  intros H. unfold ParseInt_signed.
  destruct (ParseUint_literal _ _ H) as [Hu ->].
  assert (Hmax : maxUint64 = 18446744073709551615) by reflexivity.
  assert (Hmin : minInt64 = -9223372036854775808) by reflexivity.
  assert (Hmx : maxInt64 = 9223372036854775807) by reflexivity.
  destruct (Z.leb_spec u maxUint64).
  - cbn [not_range_error]. cbv iota. apply ParseInt_range. lia.
  - cbn [not_range_error]. cbv iota. rewrite ParseInt_range by lia.
    unfold ParseInt_outcome.
    destruct neg.
    + destruct (Z.ltb_spec (- u) minInt64); [|lia]. reflexivity.
    + destruct (Z.ltb_spec u minInt64); [lia|].
      destruct (Z.ltb_spec maxInt64 u); [|lia]. reflexivity.
Qed.

(** [ParseInt] on an integer literal: its value when that fits 64 bits,
    a range error otherwise. *)
Lemma ParseInt_literal s v :
  int_literal s = Some v -> ParseInt s 10 64 = ParseInt_outcome v.
Proof.
  unfold int_literal, ParseInt. destruct s as [|c rest]; [discriminate|].
  destruct (Ascii.eqb c "+").
  - intros H. apply (ParseInt_signed_literal false), H.
  - destruct (Ascii.eqb c "-").
    + destruct (unsigned_literal rest) as [u|] eqn:Hu; [|discriminate].
      intros [= <-]. apply (ParseInt_signed_literal true), Hu.
    + intros H. apply (ParseInt_signed_literal false), H.
Qed.

Lemma ParseInt_signed_nonliteral (neg : bool) (s1 : string) :
  unsigned_literal s1 = None -> snd (ParseInt_signed neg s1 10 64) <> None.
Proof.
  intros H1. unfold ParseInt_signed.
  destruct (ParseUint_nonliteral _ H1) as [-> | ->]; [discriminate|].
  destruct neg; discriminate.
Qed.

(** [ParseInt] on anything else: an error. *)
Lemma ParseInt_nonliteral s :
  int_literal s = None -> snd (ParseInt s 10 64) <> None.
Proof.
  unfold int_literal, ParseInt. destruct s as [|c rest]; [discriminate|].
  destruct (Ascii.eqb c "+"); [apply ParseInt_signed_nonliteral|].
  destruct (Ascii.eqb c "-"); [|apply ParseInt_signed_nonliteral].
  destruct (unsigned_literal rest) eqn:Hu; [discriminate|].
  intros _. apply ParseInt_signed_nonliteral, Hu.
Qed.

End ParseIntFacts.

(** ** [ParseFloat] on integer literals *)

Section ParseFloatFacts.

Lemma dec_digit_not_special c :
  is_dec_digit c = true ->
  Ascii.eqb c "+" = false /\ Ascii.eqb c "-" = false /\
  Ascii.eqb c "." = false /\
  Ascii.eqb c "n" = false /\ Ascii.eqb c "N" = false /\
  Ascii.eqb c "i" = false /\ Ascii.eqb c "I" = false /\
  Ascii.eqb (lower c) (lower "i") = false.
Proof.
  destruct c as [[] [] [] [] [] [] [] []]; intros H;
    try discriminate H; repeat split; reflexivity.
Qed.

Lemma unsigned_literal_head s u :
  unsigned_literal s = Some u ->
  exists c s', s = String c s' /\ is_dec_digit c = true.
Proof.
  destruct s as [|c s']; [discriminate|]. simpl.
  destruct (is_dec_digit c) eqn:Hc; [|discriminate]. eauto.
Qed.

(** No integer literal is one of the names [special] knows. *)
Lemma special_literal s v : int_literal s = Some v -> special s = None.
Proof.
  unfold int_literal, special. destruct s as [|c rest]; [discriminate|].
  destruct (Ascii.eqb c "+") eqn:Hplus.
  - intros H. destruct (unsigned_literal_head _ _ H) as (c2 & r & -> & Hc2).
    apply Ascii.eqb_eq in Hplus as ->.
    destruct (dec_digit_not_special _ Hc2) as (_ & _ & _ & _ & _ & _ & _ & Hi).
    simpl. rewrite Hi. reflexivity.
  - destruct (Ascii.eqb c "-") eqn:Hminus.
    + destruct (unsigned_literal rest) as [u|] eqn:Hu; [|discriminate].
      intros _. destruct (unsigned_literal_head _ _ Hu) as (c2 & r & -> & Hc2).
      apply Ascii.eqb_eq in Hminus as ->.
      destruct (dec_digit_not_special _ Hc2) as (_ & _ & _ & _ & _ & _ & _ & Hi).
      simpl. rewrite Hi. reflexivity.
    + intros H. destruct (unsigned_literal_head _ _ H) as (c2 & r & [= <- <-] & Hc2).
      destruct (dec_digit_not_special _ Hc2) as (_ & _ & _ & -> & -> & -> & -> & _).
      reflexivity.
Qed.

Lemma readDigits_digits s : forall sd acc v,
  digits_value s acc = Some v ->
  readDigits s false sd acc 0 =
    Some (v, 0, match s with EmptyString => sd | _ => true end, EmptyString).
Proof.
  induction s as [|c s IH]; simpl; intros sd acc v H.
  - injection H as <-. reflexivity.
  - destruct (is_dec_digit c) eqn:Hc; [|discriminate].
    destruct (dec_digit_not_special _ Hc) as (_ & _ & -> & _).
    rewrite (IH true _ _ H). destruct s; reflexivity.
Qed.

Lemma readFloat_unsigned (neg : bool) s1 u :
  unsigned_literal s1 = Some u ->
  match readDigits s1 false false 0 0 with
  | None => None
  | Some (mant, frac, sawdigits, s2) =>
      if negb sawdigits then None
      else
        match s2 with
        | EmptyString => Some (neg, mant, - frac)
        | String c2 s3 =>
            if Ascii.eqb c2 "e" || Ascii.eqb c2 "E" then
              match s3 with
              | EmptyString => None
              | String c3 s4 =>
                  let '(esign, s5) :=
                    if Ascii.eqb c3 "+" then (1, s4)
                    else if Ascii.eqb c3 "-" then (-1, s4)
                    else (1, s3) in
                  if starts_with_digit s5 then
                    match readExp s5 0 with
                    | (e, EmptyString) => Some (neg, mant, e * esign - frac)
                    | (_, String _ _) => None
                    end
                  else None
              end
            else None
        end
  end = Some (neg, u, 0).
Proof.
  intros H. unfold unsigned_literal in H.
  destruct s1 as [|c s]; [discriminate|].
  rewrite (readDigits_digits _ _ _ _ H). reflexivity.
Qed.

(** [readFloat] on an integer literal: its sign, its digits, exponent 0. *)
Lemma readFloat_literal s v :
  int_literal s = Some v ->
  readFloat s = Some (v <? 0, Z.abs v, 0) \/
  (v = 0 /\ exists neg, readFloat s = Some (neg, 0, 0)).
Proof.
  unfold int_literal, readFloat. destruct s as [|c rest]; [discriminate|].
  assert (Hpos : forall u, 0 <= u -> (u <? 0) = false /\ Z.abs u = u)
    by (intros; split; [apply Z.ltb_ge|]; lia).
  destruct (Ascii.eqb c "+").
  - intros H. rewrite (readFloat_unsigned false _ _ H).
    destruct (ParseUint_literal _ _ H) as [Hv _].
    destruct (Hpos _ Hv) as [-> ->]. now left.
  - destruct (Ascii.eqb c "-").
    + destruct (unsigned_literal rest) as [u|] eqn:Hu; [|discriminate].
      intros [= <-]. rewrite (readFloat_unsigned true _ _ Hu).
      destruct (ParseUint_literal _ _ Hu) as [Hv _].
      destruct (Z.eq_dec u 0) as [->|Hne]; [right; eauto|].
      left. replace (- u <? 0) with true by (symmetry; apply Z.ltb_lt; lia).
      replace (Z.abs (- u)) with u by lia. reflexivity.
    + intros H. rewrite (readFloat_unsigned false _ _ H).
      destruct (ParseUint_literal _ _ H) as [Hv _].
      destruct (Hpos _ Hv) as [-> ->]. now left.
Qed.

(** [ParseFloat] on a non-zero integer literal: its value rounded to
    binary64, and a range error when that is an infinity. *)
Lemma ParseFloat_literal s v :
  int_literal s = Some v -> v <> 0 ->
  ParseFloat s 64 =
    let f := binary_normalize prec64 emax64 v 0 false in
    (f, if is_inf f then Some ErrRange else None).
Proof.
  intros H Hv. unfold ParseFloat. change (64 =? 32) with false. cbv iota.
  unfold atof64, atof. rewrite (special_literal _ _ H).
  destruct (readFloat_literal _ _ H) as [-> | [? _]]; [|contradiction].
  unfold floatBits.
  destruct (Z.eqb_spec (Z.abs v) 0); [lia|].
  change (0 <=? 0) with true. cbv iota.
  replace ((if v <? 0 then - Z.abs v else Z.abs v) * 10 ^ 0) with v;
    [reflexivity|].
  destruct (Z.ltb_spec v 0); lia.
Qed.

End ParseFloatFacts.

(** ** [strings.Trim] with the double quote as cutset *)

Section TrimFacts.

Lemma append_cons c (t u : string) :
  (String c t ++ u)%string = String c (t ++ u)%string.
Proof. reflexivity. Qed.

Lemma append_nil (u : string) : (EmptyString ++ u)%string = u.
Proof. reflexivity. Qed.

Lemma in_quote_cutset c : in_cutset c quote_cutset = is_quote c.
Proof. unfold quote_cutset, is_quote. simpl. apply orb_false_r. Qed.

Lemma TrimLeft_id s :
  starts_with_quote s = false -> TrimLeft s quote_cutset = s.
Proof.
  destruct s as [|c s]; [reflexivity|]. cbn [TrimLeft starts_with_quote].
  rewrite in_quote_cutset. intros ->. reflexivity.
Qed.

Lemma TrimRight_id s :
  ends_with_quote s = false -> TrimRight s quote_cutset = s.
Proof.
  induction s as [|c s IH]; [reflexivity|].
  destruct s as [|c' s'].
  - cbn [TrimRight ends_with_quote]. rewrite in_quote_cutset. intros ->. reflexivity.
  - intros H. change (ends_with_quote (String c' s') = false) in H.
    change (TrimRight (String c (String c' s')) quote_cutset) with
      (match TrimRight (String c' s') quote_cutset with
       | EmptyString =>
           if in_cutset c quote_cutset then EmptyString else String c EmptyString
       | t => String c t
       end).
    rewrite (IH H). reflexivity.
Qed.

Lemma TrimRight_quote t :
  TrimRight (t +:+ quote_cutset) quote_cutset = TrimRight t quote_cutset.
Proof.
  induction t as [|c t IH]; [reflexivity|].
  rewrite append_cons. cbn [TrimRight]. rewrite IH. reflexivity.
Qed.

(** Between its two quotes a token keeps its text, when that text itself
    neither starts nor ends with a double quote. *)
Lemma Trim_quoted t :
  starts_with_quote t = false -> ends_with_quote t = false ->
  Trim (quoted t) quote_cutset = t.
Proof.
  intros Hs He. unfold Trim, quoted.
  cbn [TrimLeft]. rewrite in_quote_cutset.
  change (is_quote dquote) with true. cbv iota.
  destruct t as [|c t].
  - reflexivity.
  - rewrite TrimLeft_id by exact Hs.
    rewrite TrimRight_quote. apply TrimRight_id, He.
Qed.

(** What [Trim] leaves neither starts nor ends with a double quote. *)
Lemma TrimRight_ends s : ends_with_quote (TrimRight s quote_cutset) = false.
Proof.
  induction s as [|c s IH]; [reflexivity|].
  cbn [TrimRight]. destruct (TrimRight s quote_cutset) as [|c' t] eqn:Ht.
  - rewrite in_quote_cutset. destruct (is_quote c) eqn:Hc; [reflexivity|].
    simpl. exact Hc.
  - exact IH.
Qed.

Lemma TrimLeft_starts s : starts_with_quote (TrimLeft s quote_cutset) = false.
Proof.
  induction s as [|c s IH]; [reflexivity|].
  cbn [TrimLeft]. rewrite in_quote_cutset.
  destruct (is_quote c) eqn:Hc; [exact IH|]. simpl. exact Hc.
Qed.

Lemma TrimRight_starts s :
  starts_with_quote s = false ->
  starts_with_quote (TrimRight s quote_cutset) = false.
Proof.
  destruct s as [|c s]; [reflexivity|]. cbn [TrimRight starts_with_quote].
  intros Hc. destruct (TrimRight s quote_cutset).
  - rewrite in_quote_cutset, Hc. exact Hc.
  - exact Hc.
Qed.

Lemma TrimLeft_split s :
  exists l, s = l +:+ TrimLeft s quote_cutset /\ all_quotes l = true.
Proof.
  induction s as [|c s (l & Hl & Hq)]; [exists EmptyString; split; reflexivity|].
  cbn [TrimLeft]. rewrite in_quote_cutset. destruct (is_quote c) eqn:Hc.
  - exists (String c l). rewrite append_cons. cbn [all_quotes].
    rewrite Hc, Hq, <- Hl. split; reflexivity.
  - exists EmptyString. split; reflexivity.
Qed.

Lemma TrimRight_split s :
  exists r, s = TrimRight s quote_cutset +:+ r /\ all_quotes r = true.
Proof.
  induction s as [|c s (r & Hr & Hq)]; [exists EmptyString; split; reflexivity|].
  cbn [TrimRight]. destruct (TrimRight s quote_cutset) as [|c' t] eqn:Ht.
  - rewrite append_nil in Hr. subst s.
    rewrite in_quote_cutset. destruct (is_quote c) eqn:Hc.
    + exists (String c r). rewrite append_nil. cbn [all_quotes].
      rewrite Hc, Hq. split; reflexivity.
    + exists r. rewrite append_cons, append_nil. split; [reflexivity|exact Hq].
  - exists r. rewrite append_cons, <- Hr.
    split; [reflexivity|exact Hq].
Qed.

(** [Trim] takes off a run of double quotes at each end, and all of it. *)
Lemma Trim_spec s :
  exists l r,
    s = l +:+ Trim s quote_cutset +:+ r /\
    all_quotes l = true /\ all_quotes r = true /\
    starts_with_quote (Trim s quote_cutset) = false /\
    ends_with_quote (Trim s quote_cutset) = false.
Proof.
  destruct (TrimLeft_split s) as (l & Hl & Hlq).
  destruct (TrimRight_split (TrimLeft s quote_cutset)) as (r & Hr & Hrq).
  exists l, r. unfold Trim. rewrite <- Hr, <- Hl.
  repeat split; try assumption.
  - apply TrimRight_starts, TrimLeft_starts.
  - apply TrimRight_ends.
Qed.

End TrimFacts.

(** ** Rounding a large integer to binary64 *)

Section RoundingFacts.

Lemma iter_pos_nat {A : Type} (f : A -> A) (p : positive) : forall x,
  SpecFloat.iter_pos f p x = Nat.iter (Pos.to_nat p) f x.
Proof.
  induction p as [p IH|p IH|]; intros x; cbn [SpecFloat.iter_pos].
  - rewrite !IH, Pos2Nat.inj_xI.
    replace (S (2 * Pos.to_nat p)) with (Pos.to_nat p + S (Pos.to_nat p))%nat by lia.
    rewrite Nat.iter_add, Nat.iter_succ_r. reflexivity.
  - rewrite !IH, Pos2Nat.inj_xO.
    replace (2 * Pos.to_nat p)%nat with (Pos.to_nat p + Pos.to_nat p)%nat by lia.
    rewrite Nat.iter_add. reflexivity.
  - reflexivity.
Qed.

Lemma shr_1_nonneg m r s :
  0 <= m ->
  shr_1 {| shr_m := m; shr_r := r; shr_s := s |} =
  {| shr_m := m / 2; shr_r := Z.odd m; shr_s := r || s |}.
Proof.
  intros Hm. rewrite <- Z.div2_div.
  destruct m as [|[p|p|]|p]; try reflexivity; lia.
Qed.

Lemma mod_pow2_succ m k :
  0 <= k ->
  m mod 2 ^ (k + 1) = m mod 2 ^ k + 2 ^ k * Z.b2z (Z.testbit m k).
Proof.
  intros Hk. rewrite Z.pow_add_r, Z.pow_1_r by lia.
  rewrite Z.rem_mul_r by lia.
  rewrite Z.testbit_spec' by lia. reflexivity.
Qed.

(** [S k] right shifts of [m]: the quotient, the last bit shifted out,
    and whether any bit below it was set. *)
Lemma shr_iter m (k : nat) :
  0 <= m ->
  Nat.iter (S k) shr_1 {| shr_m := m; shr_r := false; shr_s := false |} =
  {| shr_m := m / 2 ^ Z.of_nat (S k);
     shr_r := Z.testbit m (Z.of_nat k);
     shr_s := negb (m mod 2 ^ Z.of_nat k =? 0) |}.
Proof.
  intros Hm. induction k as [|k IH].
  - change (Nat.iter 1 shr_1 ?x) with (shr_1 x). rewrite shr_1_nonneg by lia.
    change (2 ^ Z.of_nat 1) with 2. change (2 ^ Z.of_nat 0) with 1.
    rewrite Z.mod_1_r. rewrite Z.bit0_odd. reflexivity.
  - change (Nat.iter (S (S k)) shr_1 ?x) with (shr_1 (Nat.iter (S k) shr_1 x)).
    rewrite IH.
    assert (Hpow : 0 < 2 ^ Z.of_nat (S k)) by (apply Z.pow_pos_nonneg; lia).
    rewrite shr_1_nonneg by (apply Z.div_pos; lia).
    f_equal.
    + rewrite Z.div_div by lia.
      replace (Z.of_nat (S (S k))) with (Z.of_nat (S k) + 1) by lia.
      rewrite Z.pow_add_r by lia. reflexivity.
    + rewrite Z.testbit_odd, Z.shiftr_div_pow2 by lia. reflexivity.
    + replace (Z.of_nat (S k)) with (Z.of_nat k + 1) by lia.
      rewrite mod_pow2_succ by lia.
      pose proof (Z.mod_pos_bound m (2 ^ Z.of_nat k)
                    ltac:(apply Z.pow_pos_nonneg; lia)) as Hb.
      assert (0 < 2 ^ Z.of_nat k) by (apply Z.pow_pos_nonneg; lia).
      destruct (Z.testbit m (Z.of_nat k)); simpl Z.b2z.
      * destruct (Z.eqb_spec (m mod 2 ^ Z.of_nat k + 2 ^ Z.of_nat k * 1) 0); [lia|].
        reflexivity.
      * rewrite Z.mul_0_r, Z.add_0_r. reflexivity.
Qed.

Lemma digits2_size p : digits2_pos p = Pos.size p.
Proof. induction p; simpl; congruence. Qed.

Lemma digits2_bounds p :
  2 ^ (Zpos (digits2_pos p) - 1) <= Zpos p < 2 ^ Zpos (digits2_pos p).
Proof.
  rewrite digits2_size. split.
  - pose proof (Pos.size_le p) as H.
    apply Pos2Z.pos_le_pos in H. rewrite Pos2Z.inj_pow in H.
    change (Zpos p~0) with (2 * Zpos p) in H.
    replace (Zpos (Pos.size p)) with (Zpos (Pos.size p) - 1 + 1) in H by lia.
    rewrite Z.pow_add_r, Z.pow_1_r in H by lia. lia.
  - pose proof (Pos.size_gt p) as H.
    apply Pos2Z.pos_lt_pos in H. rewrite Pos2Z.inj_pow in H. exact H.
Qed.

Lemma digits2_unique p d :
  2 ^ (d - 1) <= Zpos p < 2 ^ d -> Zpos (digits2_pos p) = d.
Proof.
  intros [Hlo Hhi]. pose proof (digits2_bounds p) as [Hlo' Hhi'].
  set (d' := Zpos (digits2_pos p)) in *.
  assert (0 < d).
  { destruct (Z.lt_trichotomy d 0) as [Hn|[Hz|Hp]]; [| |assumption].
    - rewrite (Z.pow_neg_r 2 d Hn) in Hhi. lia.
    - rewrite Hz in Hhi. change (2 ^ 0) with 1 in Hhi. lia. }
  destruct (Z.lt_trichotomy d' d) as [Hlt|[Heq|Hgt]]; [|assumption|].
  - assert (2 ^ d' <= 2 ^ (d - 1)) by (apply Z.pow_le_mono_r; lia). lia.
  - assert (2 ^ d <= 2 ^ (d' - 1)) by (apply Z.pow_le_mono_r; lia). lia.
Qed.

Lemma fexp64 x : fexp prec64 emax64 x = Z.max (x - 53) (-1074).
Proof. reflexivity. Qed.

Lemma shl_align_none p e' : 0 <= e' -> shl_align p 0 e' = (p, 0).
Proof.
  intros H. unfold shl_align. rewrite Z.sub_0_r.
  destruct e'; try reflexivity; lia.
Qed.

(** The first shift of [binary_round_aux] on an exact integer [m] of more
    than 53 bits: [sh] places, with the bit and the sticky flag of what
    was shifted out. *)
Lemma shr_fexp64_exact m sh :
  0 < m -> 1 <= sh -> Zdigits2 m = sh + 53 ->
  shr_fexp prec64 emax64 m 0 loc_Exact =
  ({| shr_m := m / 2 ^ sh;
      shr_r := Z.testbit m (sh - 1);
      shr_s := negb (m mod 2 ^ (sh - 1) =? 0) |}, sh).
Proof.
  intros Hm Hsh Hd. unfold shr_fexp. rewrite Hd, fexp64.
  replace (Z.max (sh + 53 + 0 - 53) (-1074) - 0) with sh by lia.
  unfold shr, shr_record_of_loc.
  destruct sh as [|psh|psh]; try lia.
  rewrite iter_pos_nat.
  destruct (Pos2Nat.is_succ psh) as [k Hk]. rewrite Hk.
  rewrite shr_iter by lia.
  assert (Z.of_nat (S k) = Zpos psh) as Hk' by lia.
  rewrite Hk'. replace (Z.of_nat k) with (Zpos psh - 1) by lia.
  reflexivity.
Qed.

(** What [round_nearest_even] does with that bit and that flag. *)
Lemma round_nearest_even_mant m sh :
  0 <= m -> 1 <= sh ->
  round_nearest_even (m / 2 ^ sh)
    (loc_of_shr_record
       {| shr_m := m / 2 ^ sh;
          shr_r := Z.testbit m (sh - 1);
          shr_s := negb (m mod 2 ^ (sh - 1) =? 0) |}) =
  round_mant (m / 2 ^ sh) (m mod 2 ^ sh) (2 ^ (sh - 1)).
Proof.
  intros Hm Hsh. unfold round_mant.
  replace (m mod 2 ^ sh) with
    (m mod 2 ^ (sh - 1) + 2 ^ (sh - 1) * Z.b2z (Z.testbit m (sh - 1))).
  2:{ rewrite <- mod_pow2_succ by lia. f_equal. f_equal. lia. }
  assert (Hp : 0 < 2 ^ (sh - 1)) by (apply Z.pow_pos_nonneg; lia).
  pose proof (Z.mod_pos_bound m (2 ^ (sh - 1)) Hp) as Hb.
  set (lo := m mod 2 ^ (sh - 1)) in *. set (half := 2 ^ (sh - 1)) in *.
  destruct (Z.testbit m (sh - 1)); simpl Z.b2z;
    destruct (Z.eqb_spec lo 0) as [Hz|Hz]; simpl.
  - rewrite Hz. destruct (Z.ltb_spec (0 + half * 1) half); [lia|].
    destruct (Z.ltb_spec half (0 + half * 1)); [lia|]. reflexivity.
  - destruct (Z.ltb_spec (lo + half * 1) half); [lia|].
    destruct (Z.ltb_spec half (lo + half * 1)); [reflexivity|lia].
  - destruct (Z.ltb_spec (lo + half * 0) half); [reflexivity|lia].
  - destruct (Z.ltb_spec (lo + half * 0) half); [reflexivity|lia].
Qed.

Lemma round_mant_cases q rem half :
  round_mant q rem half = q \/ round_mant q rem half = q + 1.
Proof.
  unfold round_mant.
  destruct (rem <? half); [now left|].
  destruct (half <? rem); [now right|].
  destruct (Z.even q); [now left|now right].
Qed.

(** The second shift of [binary_round_aux]: nothing to do for a mantissa of
    53 bits, one place when rounding carried into a 54th bit. *)
Lemma shr_fexp64_round q' sh :
  2 ^ 52 <= q' <= 2 ^ 53 -> 0 <= sh ->
  exists M E,
    shr_fexp prec64 emax64 q' sh loc_Exact =
      ({| shr_m := Zpos M; shr_r := false; shr_s := false |}, E) /\
    2 ^ 52 <= Zpos M < 2 ^ 53 /\
    Zpos M * 2 ^ E = q' * 2 ^ sh /\
    ((q' < 2 ^ 53 /\ E = sh) \/ (q' = 2 ^ 53 /\ E = sh + 1)).
Proof.
  intros Hq Hsh.
  change (2 ^ 53) with 9007199254740992 in *.
  change (2 ^ 52) with 4503599627370496 in *.
  destruct q' as [|M|M]; try lia.
  destruct (Pos.eq_dec M 9007199254740992%positive) as [->|Hne].
  - exists 4503599627370496%positive, (sh + 1).
    unfold shr_fexp. rewrite fexp64.
    change (Zdigits2 (Zpos 9007199254740992)) with 54.
    replace (Z.max (54 + sh - 53) (-1074) - sh) with 1 by lia.
    split; [reflexivity|]. split; [lia|].
    split; [|right; split; [reflexivity|reflexivity]].
    rewrite Z.pow_add_r, Z.pow_1_r by lia. lia.
  - exists M, sh.
    assert (Hd : Zpos (digits2_pos M) = 53).
    { apply digits2_unique. change (2 ^ (53 - 1)) with 4503599627370496.
      change (2 ^ 53) with 9007199254740992. lia. }
    unfold shr_fexp. rewrite fexp64. cbn [Zdigits2]. rewrite Hd.
    replace (Z.max (53 + sh - 53) (-1074) - sh) with 0 by lia.
    split; [reflexivity|]. split; [lia|]. split; [reflexivity|].
    left. split; [lia|reflexivity].
Qed.

(** [binary_round] on an integer [p] of [sh + 53] bits, [sh >= 1]: the
    result has the rounded mantissa, brought back to 53 bits, or is an
    infinity when the exponent is out of range. *)
Lemma binary_round_big sx p sh :
  1 <= sh -> Zpos (digits2_pos p) = sh + 53 ->
  exists M E,
    binary_round prec64 emax64 sx p 0 =
      (if E <=? 971 then S754_finite sx M E else S754_infinity sx) /\
    2 ^ 52 <= Zpos M < 2 ^ 53 /\
    Zpos M * 2 ^ E =
      round_mant (Zpos p / 2 ^ sh) (Zpos p mod 2 ^ sh) (2 ^ (sh - 1)) * 2 ^ sh /\
    ((round_mant (Zpos p / 2 ^ sh) (Zpos p mod 2 ^ sh) (2 ^ (sh - 1)) < 2 ^ 53
      /\ E = sh) \/
     (round_mant (Zpos p / 2 ^ sh) (Zpos p mod 2 ^ sh) (2 ^ (sh - 1)) = 2 ^ 53
      /\ E = sh + 1)).
Proof.
  intros Hsh Hd.
  pose proof (digits2_bounds p) as [Hlo Hhi]. rewrite Hd in Hlo, Hhi.
  assert (Hpow : 0 < 2 ^ sh) by (apply Z.pow_pos_nonneg; lia).
  assert (Hq : 2 ^ 52 <= Zpos p / 2 ^ sh < 2 ^ 53).
  { replace (sh + 53 - 1) with (52 + sh) in Hlo by lia.
    rewrite Z.pow_add_r in Hlo, Hhi by lia. split.
    - apply Z.div_le_lower_bound; lia.
    - apply Z.div_lt_upper_bound; lia. }
  set (q' := round_mant (Zpos p / 2 ^ sh) (Zpos p mod 2 ^ sh) (2 ^ (sh - 1))).
  assert (Hq' : 2 ^ 52 <= q' <= 2 ^ 53).
  { subst q'. destruct (round_mant_cases (Zpos p / 2 ^ sh)
      (Zpos p mod 2 ^ sh) (2 ^ (sh - 1))) as [-> | ->]; lia. }
  destruct (shr_fexp64_round q' sh Hq' ltac:(lia)) as (M & E & Hshr & HM & Hval & Hcase).
  exists M, E. split; [|split; [exact HM|split; [exact Hval|exact Hcase]]].
  unfold binary_round. rewrite fexp64.
  rewrite shl_align_none by lia.
  unfold binary_round_aux.
  rewrite (shr_fexp64_exact (Zpos p) sh) by (cbn [Zdigits2]; lia).
  cbn [shr_m]. rewrite round_nearest_even_mant by lia.
  fold q'. rewrite Hshr. cbn [shr_m]. reflexivity.
Qed.

Lemma round_mant_error q rem half :
  0 <= rem < 2 * half ->
  (round_mant q rem half = q /\ rem <= half) \/
  (round_mant q rem half = q + 1 /\ half <= rem).
Proof.
  intros H. unfold round_mant.
  destruct (Z.ltb_spec rem half); [left; lia|].
  destruct (Z.ltb_spec half rem); [right; lia|].
  destruct (Z.even q); [left|right]; lia.
Qed.

Lemma round_mant_up_odd q rem half :
  Z.odd q = true -> half <= rem -> round_mant q rem half = q + 1.
Proof.
  intros Hodd H. unfold round_mant.
  destruct (Z.ltb_spec rem half); [lia|].
  destruct (Z.ltb_spec half rem); [reflexivity|].
  rewrite <- Z.negb_odd, Hodd. reflexivity.
Qed.

(** The pieces of an integer [p] of [sh + 53] bits that rounding looks
    at. *)
Lemma big_pieces p sh :
  1 <= sh -> Zpos (digits2_pos p) = sh + 53 ->
  let q := Zpos p / 2 ^ sh in
  let rem := Zpos p mod 2 ^ sh in
  let half := 2 ^ (sh - 1) in
  Zpos p = q * 2 ^ sh + rem /\ 0 <= rem < 2 * half /\ 2 ^ sh = 2 * half /\
  0 < half /\ 2 ^ 52 <= q < 2 ^ 53.
Proof.
  intros Hsh Hd q rem half.
  pose proof (digits2_bounds p) as [Hlo Hhi]. rewrite Hd in Hlo, Hhi.
  assert (Hhalf : 0 < half) by (apply Z.pow_pos_nonneg; lia).
  assert (Hpow : 2 ^ sh = 2 * half).
  { subst half. replace sh with (sh - 1 + 1) at 1 by lia.
    rewrite Z.pow_add_r, Z.pow_1_r by lia. lia. }
  pose proof (Z.mod_pos_bound (Zpos p) (2 ^ sh) ltac:(lia)) as Hrem.
  pose proof (Z.div_mod (Zpos p) (2 ^ sh) ltac:(lia)) as Hdm.
  repeat split; try (subst q rem; lia).
  - replace (sh + 53 - 1) with (52 + sh) in Hlo by lia.
    rewrite Z.pow_add_r in Hlo by lia.
    apply Z.div_le_lower_bound; lia.
  - rewrite Z.pow_add_r in Hhi by lia.
    apply Z.div_lt_upper_bound; lia.
Qed.

(** From [float64_overflow] on, rounding gives an infinity. *)
Lemma binary_round_overflow sx p :
  float64_overflow <= Zpos p ->
  binary_round prec64 emax64 sx p 0 = S754_infinity sx.
Proof.
  intros Hp.
  pose proof (digits2_bounds p) as [Hlo Hhi].
  assert (Hd : 1024 <= Zpos (digits2_pos p)).
  { destruct (Z.le_gt_cases 1024 (Zpos (digits2_pos p))) as [|Hlt]; [assumption|].
    assert (2 ^ Zpos (digits2_pos p) <= 2 ^ 1023) by (apply Z.pow_le_mono_r; lia).
    assert (2 ^ 1023 < float64_overflow) by reflexivity. lia. }
  set (sh := Zpos (digits2_pos p) - 53).
  assert (Hd' : Zpos (digits2_pos p) = sh + 53) by (subst sh; lia).
  assert (Hsh : 1 <= sh) by lia.
  destruct (binary_round_big sx p sh Hsh Hd') as (M & E & -> & HM & Hval & Hcase).
  destruct (big_pieces p sh Hsh Hd') as (HV & Hrem & Hpow & Hhalf & Hq).
  destruct (Z.leb_spec E 971) as [HE|HE]; [exfalso|reflexivity].
  assert (sh = 971) as Hsh971 by lia.
  destruct Hcase as [[Hlt _]|[_ HE']]; [|lia].
  set (q := Zpos p / 2 ^ sh) in *. set (rem := Zpos p mod 2 ^ sh) in *.
  set (half := 2 ^ (sh - 1)) in *.
  assert (Hhalf970 : half = 2 ^ 970) by (subst half; rewrite Hsh971; reflexivity).
  assert (HT : float64_overflow = (2 ^ 53 - 1) * (2 * half) + half).
  { rewrite Hhalf970. reflexivity. }
  change (2 ^ 53) with 9007199254740992 in *.
  change (2 ^ 52) with 4503599627370496 in *.
  assert (Hq53 : q = 9007199254740991) by nia.
  assert (Hr : half <= rem) by nia.
  rewrite round_mant_up_odd in Hlt; [lia|rewrite Hq53; reflexivity|exact Hr].
Qed.

Lemma bounded64 m e :
  bounded prec64 emax64 m e = true ->
  Zpos m < 2 ^ 53 /\ -1074 <= e <= 971.
Proof.
  unfold bounded, canonical_mantissa. rewrite fexp64.
  intros H. apply andb_true_iff in H as [Hc He].
  apply Z.eqb_eq in Hc. apply Z.leb_le in He.
  change (emax64 - prec64) with 971 in He.
  pose proof (digits2_bounds m) as [_ Hhi].
  assert (2 ^ Zpos (digits2_pos m) <= 2 ^ 53) by (apply Z.pow_le_mono_r; lia).
  lia.
Qed.

(** No positive binary64 number lies strictly between two neighbouring
    multiples of [2^sh] whose mantissas have 53 bits. Numbers are in
    units of [2^-1074]. *)
Lemma grid_gap q sh mg eg :
  2 ^ 52 <= q -> 0 <= sh -> 0 < mg < 2 ^ 53 -> -1074 <= eg ->
  mg * 2 ^ (eg + 1074) <= q * 2 ^ (sh + 1074) \/
  (q + 1) * 2 ^ (sh + 1074) <= mg * 2 ^ (eg + 1074).
Proof.
  intros Hq Hsh Hmg Heg.
  assert (HU : 0 < 2 ^ (sh + 1074)) by (apply Z.pow_pos_nonneg; lia).
  destruct (Z.le_gt_cases (mg * 2 ^ (eg + 1074)) (q * 2 ^ (sh + 1074)))
    as [Hle|Hgt]; [now left|right].
  assert (Hge : sh <= eg).
  { destruct (Z.le_gt_cases sh eg) as [|Hlt]; [assumption|exfalso].
    assert (Hy : 0 < 2 ^ (eg + 1074)) by (apply Z.pow_pos_nonneg; lia).
    assert (H1 : 2 ^ (eg + 1 + 1074) <= 2 ^ (sh + 1074))
      by (apply Z.pow_le_mono_r; lia).
    replace (eg + 1 + 1074) with (eg + 1074 + 1) in H1 by lia.
    rewrite Z.pow_add_r, Z.pow_1_r in H1 by lia.
    change (2 ^ 53) with (2 ^ 52 * 2) in Hmg.
    assert (mg * 2 ^ (eg + 1074) < 2 ^ 52 * 2 * 2 ^ (eg + 1074))
      by (apply Z.mul_lt_mono_pos_r; lia).
    assert (2 ^ 52 * 2 ^ (sh + 1074) <= q * 2 ^ (sh + 1074))
      by (apply Z.mul_le_mono_nonneg_r; lia).
    assert (2 ^ 52 * (2 ^ (eg + 1074) * 2) <= 2 ^ 52 * 2 ^ (sh + 1074))
      by (apply Z.mul_le_mono_nonneg_l; lia).
    lia. }
  replace (eg + 1074) with ((eg - sh) + (sh + 1074)) in * by lia.
  rewrite (Z.pow_add_r 2 (eg - sh) (sh + 1074)) in * by lia.
  set (U := 2 ^ (sh + 1074)) in *.
  assert (0 < 2 ^ (eg - sh)) by (apply Z.pow_pos_nonneg; lia).
  rewrite Z.mul_assoc in *.
  apply Z.mul_le_mono_nonneg_r; [lia|].
  apply Z.mul_lt_mono_pos_r in Hgt; lia.
Qed.

Lemma scaled_grid g y q sh :
  valid_binary prec64 emax64 g = true ->
  float64_scaled g = Some y ->
  2 ^ 52 <= q -> 0 <= sh ->
  (y <= q * 2 ^ (sh + 1074) \/ (q + 1) * 2 ^ (sh + 1074) <= y) /\
  (- y <= q * 2 ^ (sh + 1074) \/ (q + 1) * 2 ^ (sh + 1074) <= - y).
Proof.
  intros Hv Hy Hq Hsh.
  assert (HU : 0 < 2 ^ (sh + 1074)) by (apply Z.pow_pos_nonneg; lia).
  assert (H52 : 0 < 2 ^ 52) by reflexivity.
  assert (HqU : 0 <= q * 2 ^ (sh + 1074)) by (apply Z.mul_nonneg_nonneg; lia).
  destruct g as [sg|sg| |sg mg eg]; simpl in Hy; try discriminate.
  - injection Hy as <-. split; left; lia.
  - simpl in Hv. apply bounded64 in Hv as [Hm He].
    assert (HS : 0 < 2 ^ (eg + 1074)) by (apply Z.pow_pos_nonneg; lia).
    pose proof (grid_gap q sh (Zpos mg) eg Hq Hsh ltac:(lia) ltac:(lia)) as Hgap.
    assert (0 < Zpos mg * 2 ^ (eg + 1074)) by (apply Z.mul_pos_pos; lia).
    injection Hy as <-. destruct sg.
    + rewrite Z.mul_opp_l. split; [left; lia|rewrite Z.opp_involutive; exact Hgap].
    + split; [exact Hgap|left; lia].
Qed.

(** Below [float64_overflow], rounding an integer of at least 64 bits
    gives a finite binary64 number, and none is closer. *)
Lemma binary_round_nearest (sx : bool) (p : positive) :
  2 ^ 63 <= Zpos p < float64_overflow ->
  nearest_float64 (if sx then Zneg p else Zpos p)
                  (binary_round prec64 emax64 sx p 0).
Proof.
  intros [Hp63 HpT].
  pose proof (digits2_bounds p) as [Hlo Hhi].
  assert (Hd : 64 <= Zpos (digits2_pos p)).
  { destruct (Z.le_gt_cases 64 (Zpos (digits2_pos p))) as [|Hlt]; [assumption|].
    assert (2 ^ Zpos (digits2_pos p) <= 2 ^ 63) by (apply Z.pow_le_mono_r; lia).
    lia. }
  set (sh := Zpos (digits2_pos p) - 53).
  assert (Hd' : Zpos (digits2_pos p) = sh + 53) by (subst sh; lia).
  assert (Hsh : 1 <= sh) by lia.
  destruct (binary_round_big sx p sh Hsh Hd') as (M & E & -> & HM & Hval & Hcase).
  destruct (big_pieces p sh Hsh Hd') as (HV & Hrem & Hpow & Hhalf & Hq).
  set (q := Zpos p / 2 ^ sh) in *. set (rem := Zpos p mod 2 ^ sh) in *.
  set (half := 2 ^ (sh - 1)) in *.
  pose proof (round_mant_error q rem half Hrem) as Herr.
  set (q' := round_mant q rem half) in *.
  assert (Hsh971 : sh <= 971).
  { destruct (Z.le_gt_cases sh 971) as [|Hgt]; [assumption|exfalso].
    assert (2 ^ 1024 <= 2 ^ (sh + 53 - 1)) by (apply Z.pow_le_mono_r; lia).
    assert (float64_overflow < 2 ^ 1024) by reflexivity.
    rewrite Hd' in Hlo. lia. }
  assert (HE : E <= 971).
  { destruct Hcase as [[_ ->]|[Hq53 ->]]; [assumption|].
    destruct (Z.eq_dec sh 971) as [Heq|]; [exfalso|lia].
    assert (Hhalf970 : half = 2 ^ 970) by (subst half; rewrite Heq; reflexivity).
    assert (HT : float64_overflow = (2 ^ 53 - 1) * (2 * half) + half)
      by (rewrite Hhalf970; reflexivity).
    change (2 ^ 53) with 9007199254740992 in *.
    destruct Herr as [[Hq' _]|[Hq' Hr]]; [lia|].
    assert (q = 9007199254740991) as Hqv by lia.
    rewrite Hpow, Hqv in HV. lia. }
  destruct (Z.leb_spec E 971) as [_|]; [|lia].
  split.
  - cbn [valid_binary]. unfold bounded, canonical_mantissa.
    rewrite fexp64.
    assert (Hd53 : Zpos (digits2_pos M) = 53).
    { apply digits2_unique. change (53 - 1) with 52. exact HM. }
    rewrite Hd53. apply andb_true_iff. split.
    + apply Z.eqb_eq. destruct Hcase as [[_ ->]|[_ ->]]; lia.
    + apply Z.leb_le. change (emax64 - prec64) with 971. exact HE.
  - exists ((if sx then - Zpos M else Zpos M) * 2 ^ (E + 1074)).
    split; [reflexivity|]. intros g y Hg Hy.
    assert (H52 : 0 < 2 ^ 52) by reflexivity.
    destruct (scaled_grid g y q sh Hg Hy ltac:(lia) ltac:(lia)) as [Hgp Hgn].
    assert (HE0 : 0 <= E) by (destruct Hcase as [[_ ->]|[_ ->]]; lia).
    rewrite (Z.pow_add_r 2 sh 1074) in Hgp, Hgn by lia.
    rewrite (Z.pow_add_r 2 E 1074) by lia.
    set (S := 2 ^ 1074) in *.
    assert (HS : 0 < S) by reflexivity.
    assert (Hx : Zpos M * (2 ^ E * S) = q' * (2 * half) * S)
      by (rewrite Z.mul_assoc, Hval, Hpow; reflexivity).
    rewrite Hpow in Hgp, Hgn.
    assert (HVS : Zpos p * S = q * (2 * half) * S + rem * S)
      by (rewrite HV, Hpow; ring).
    assert (Ha : 0 <= rem * S < 2 * (half * S)).
    { split; [apply Z.mul_nonneg_nonneg; lia|].
      rewrite Z.mul_assoc. apply Z.mul_lt_mono_pos_r; lia. }
    assert (Hab : rem <= half -> rem * S <= half * S)
      by (intros; apply Z.mul_le_mono_nonneg_r; lia).
    assert (Hba : half <= rem -> half * S <= rem * S)
      by (intros; apply Z.mul_le_mono_nonneg_r; lia).
    assert (Hq1 : (q + 1) * (2 * half * S) = q * (2 * half) * S + 2 * (half * S))
      by ring.
    rewrite Hq1 in Hgp, Hgn.
    replace (q * (2 * half * S)) with (q * (2 * half) * S) in Hgp, Hgn by ring.
    assert (Hx' : q' * (2 * half) * S = q * (2 * half) * S \/
                  q' * (2 * half) * S = q * (2 * half) * S + 2 * (half * S)).
    { destruct Herr as [[-> _]|[-> _]]; [left; reflexivity|right; ring]. }
    set (c := q * (2 * half) * S) in *.
    set (a := rem * S) in *. set (b := half * S) in *.
    destruct sx.
    + change (Zneg p) with (- Zpos p).
      rewrite !Z.mul_opp_l, Hx, HVS.
      destruct Herr as [[Hq' Hr]|[Hq' Hr]]; rewrite Hq' in *; fold c;
        [specialize (Hab Hr)|specialize (Hba Hr);
         replace ((q + 1) * (2 * half) * S) with (c + 2 * b)
           by (subst c b; ring)]; lia.
    + rewrite Hx, HVS.
      destruct Herr as [[Hq' Hr]|[Hq' Hr]]; rewrite Hq' in *; fold c;
        [specialize (Hab Hr)|specialize (Hba Hr);
         replace ((q + 1) * (2 * half) * S) with (c + 2 * b)
           by (subst c b; ring)]; lia.
Qed.

End RoundingFacts.

(** ** Integer literals carry no quotes *)

Section LiteralQuotes.

Lemma dec_digit_not_quote c : is_dec_digit c = true -> is_quote c = false.
Proof.
  destruct c as [[] [] [] [] [] [] [] []]; intros H;
    try discriminate H; reflexivity.
Qed.

Lemma digits_no_quote_end s : forall acc v,
  digits_value s acc = Some v -> ends_with_quote s = false.
Proof.
  induction s as [|c s IH]; [reflexivity|].
  intros acc v H. cbn [digits_value] in H.
  destruct (is_dec_digit c) eqn:Hc; [|discriminate].
  destruct s as [|c' s'].
  - cbn [ends_with_quote]. apply dec_digit_not_quote, Hc.
  - change (ends_with_quote (String c (String c' s')))
      with (ends_with_quote (String c' s')).
    eapply IH, H.
Qed.

Lemma unsigned_literal_no_quote s u :
  unsigned_literal s = Some u ->
  starts_with_quote s = false /\ ends_with_quote s = false.
Proof.
  intros H. destruct (unsigned_literal_head _ _ H) as (c & s' & -> & Hc).
  split.
  - cbn [starts_with_quote]. apply dec_digit_not_quote, Hc.
  - unfold unsigned_literal in H. eapply digits_no_quote_end, H.
Qed.

(** [Trim] leaves an integer literal as it is. *)
Lemma literal_Trim b v :
  int_literal b = Some v -> Trim b quote_cutset = b.
Proof.
  unfold int_literal. destruct b as [|c rest]; [discriminate|].
  assert (Hsigned : forall u, unsigned_literal rest = Some u ->
            is_quote c = false -> Trim (String c rest) quote_cutset = String c rest).
  { intros u Hu Hc. destruct (unsigned_literal_no_quote _ _ Hu) as [_ He].
    destruct (unsigned_literal_head _ _ Hu) as (c2 & r & -> & _).
    unfold Trim. rewrite TrimLeft_id by exact Hc.
    apply TrimRight_id. exact He. }
  destruct (Ascii.eqb c "+") eqn:Hplus.
  - intros H. apply Ascii.eqb_eq in Hplus as ->. apply (Hsigned v H). reflexivity.
  - destruct (Ascii.eqb c "-") eqn:Hminus.
    + destruct (unsigned_literal rest) as [u|] eqn:Hu; [|discriminate].
      intros _. apply Ascii.eqb_eq in Hminus as ->.
      apply (Hsigned u eq_refl). reflexivity.
    + intros H. destruct (unsigned_literal_no_quote _ _ H) as [Hs He].
      unfold Trim. rewrite TrimLeft_id by exact Hs. apply TrimRight_id, He.
Qed.

End LiteralQuotes.

(* ===================================================================== *)
(** * The gauge decoder *)
(* ===================================================================== *)

(** C6. The gauge decoder never fails: on every token it returns no error
    and a value of exactly one variant, the fields of the other two left at
    their zero values; a token that neither parser accepts gives the
    String variant. *)
Theorem UnmarshalJSON_never_fails (v : gaugeValue) (b : string) :
  exists g,
    UnmarshalJSON v b = (g, None) /\
    match Type_ g with
    | IntType =>
        ParseInt b 10 64 = (IntValue g, None) /\
        FloatValue g = S754_zero false /\ StringValue g = EmptyString
    | FloatType =>
        snd (ParseInt b 10 64) <> None /\
        ParseFloat b 64 = (FloatValue g, None) /\
        IntValue g = 0 /\ StringValue g = EmptyString
    | StringType =>
        snd (ParseInt b 10 64) <> None /\ snd (ParseFloat b 64) <> None /\
        IntValue g = 0 /\ FloatValue g = S754_zero false
    end.
Proof.
  unfold UnmarshalJSON.
  destruct (ParseInt b 10 64) as [n [e|]] eqn:Hi.
  - destruct (ParseFloat b 64) as [f [e'|]] eqn:Hf; eexists; (split; [reflexivity|]);
      cbn; repeat split; congruence.
  - eexists; split; [reflexivity|]. cbn. repeat split.
Qed.

(** The Integer variant comes from an integer literal that fits 64 bits,
    and from nothing else. *)
Lemma UnmarshalJSON_IntType_inv (g0 : gaugeValue) (b : string) :
  Type_ (UnmarshalJSON g0 b).1 = IntType ->
  exists v, int_literal b = Some v /\ minInt64 <= v <= maxInt64 /\
            IntValue (UnmarshalJSON g0 b).1 = v.
Proof.
  unfold UnmarshalJSON. destruct (int_literal b) as [v|] eqn:Hlit.
  - rewrite (ParseInt_literal _ _ Hlit). unfold ParseInt_outcome.
    destruct (Z.ltb_spec v minInt64);
      [destruct (ParseFloat b 64) as [f [e|]]; discriminate|].
    destruct (Z.ltb_spec maxInt64 v);
      [destruct (ParseFloat b 64) as [f [e|]]; discriminate|].
    intros _. exists v. cbn. repeat split; lia.
  - pose proof (ParseInt_nonliteral _ Hlit) as Hne.
    destruct (ParseInt b 10 64) as [n [e|]]; [|contradiction].
    destruct (ParseFloat b 64) as [f [e'|]]; discriminate.
Qed.

(** C2, as amended. The decoder tries the integer parse first, and on every
    base-10 integer literal (an optional sign and digits) whose value fits a
    signed 64-bit integer it yields the Integer variant holding exactly
    that value, whatever the float parse would have said. *)
Theorem UnmarshalJSON_int_literal (g0 : gaugeValue) (b : string) (v : Z) :
  int_literal b = Some v ->
  minInt64 <= v <= maxInt64 ->
  ParseInt b 10 64 = (v, None) /\
  UnmarshalJSON g0 b =
    ({| IntValue := v; FloatValue := S754_zero false;
        StringValue := EmptyString; Type_ := IntType |}, None).
Proof.
  intros Hlit Hrange.
  assert (Hint : ParseInt b 10 64 = (v, None)).
  { rewrite (ParseInt_literal _ _ Hlit). unfold ParseInt_outcome.
    destruct (Z.ltb_spec v minInt64); [lia|].
    destruct (Z.ltb_spec maxInt64 v); [lia|]. reflexivity. }
  split; [exact Hint|]. unfold UnmarshalJSON. rewrite Hint. reflexivity.
Qed.

Lemma UnmarshalJSON_int_literal_witness :
  int_literal "-42" = Some (-42) /\
  minInt64 <= -42 <= maxInt64 /\
  ParseInt "-42" 10 64 = (-42, None) /\
  UnmarshalJSON gaugeValue_zero "-42" =
    ({| IntValue := -42; FloatValue := S754_zero false;
        StringValue := EmptyString; Type_ := IntType |}, None).
Proof.
  split; [reflexivity|]. split; [unfold minInt64, maxInt64; lia|].
  apply (UnmarshalJSON_int_literal gaugeValue_zero "-42" (-42));
    [reflexivity|unfold minInt64, maxInt64; lia].
Defined.

(** C2 as stated fails: [9223372036854775808] is lexically an integer, and
    the decoder classifies it as Float. *)
Lemma UnmarshalJSON_int_literal_counterexample :
  int_literal "9223372036854775808" = Some 9223372036854775808 /\
  Type_ (fst (UnmarshalJSON gaugeValue_zero "9223372036854775808")) = FloatType /\
  Type_ (fst (UnmarshalJSON gaugeValue_zero "9223372036854775808")) <> IntType.
Proof. vm_compute. repeat split; discriminate. Qed.

(** C5, as amended. On every token that parses neither as a 64-bit integer
    nor as a float the decoder yields the String variant, holding the token
    with every leading and every trailing double quote taken off: what is
    left neither starts nor ends with a double quote. For a token [quoted t]
    whose text [t] neither starts nor ends with a double quote that is [t]
    itself. *)
Theorem UnmarshalJSON_string (g0 : gaugeValue) (b : string) :
  snd (ParseInt b 10 64) <> None ->
  snd (ParseFloat b 64) <> None ->
  UnmarshalJSON g0 b =
    ({| IntValue := 0; FloatValue := S754_zero false;
        StringValue := Trim b quote_cutset; Type_ := StringType |}, None) /\
  (exists l r,
     b = l +:+ Trim b quote_cutset +:+ r /\
     all_quotes l = true /\ all_quotes r = true /\
     starts_with_quote (Trim b quote_cutset) = false /\
     ends_with_quote (Trim b quote_cutset) = false) /\
  (forall t, b = quoted t ->
     starts_with_quote t = false -> ends_with_quote t = false ->
     Trim b quote_cutset = t).
Proof.
  intros Hi Hf. split; [|split].
  - unfold UnmarshalJSON.
    destruct (ParseInt b 10 64) as [n [e|]]; [|contradiction].
    destruct (ParseFloat b 64) as [f [e'|]]; [reflexivity|contradiction].
  - apply Trim_spec.
  - intros t -> Hs He. apply Trim_quoted; assumption.
Qed.

Lemma UnmarshalJSON_string_witness :
  snd (ParseInt (quoted "ok") 10 64) <> None /\
  snd (ParseFloat (quoted "ok") 64) <> None /\
  UnmarshalJSON gaugeValue_zero (quoted "ok") =
    ({| IntValue := 0; FloatValue := S754_zero false;
        StringValue := "ok"; Type_ := StringType |}, None).
Proof.
  split; [discriminate|]. split; [discriminate|].
  destruct (UnmarshalJSON_string gaugeValue_zero (quoted "ok")) as (H & _ & _);
    [discriminate|discriminate|exact H].
Defined.

(** C5 as stated fails on the JSON string token whose text is an [a]
    followed by an escaped double quote (a backslash and a double quote):
    the token ends in two double quotes, and [Trim] takes off both where
    the claim strips one. *)
Lemma UnmarshalJSON_string_counterexample :
  let tok := quoted (String "a" (String "\" quote_cutset)) in
  snd (ParseInt tok 10 64) <> None /\
  snd (ParseFloat tok 64) <> None /\
  Type_ (fst (UnmarshalJSON gaugeValue_zero tok)) = StringType /\
  StringValue (fst (UnmarshalJSON gaugeValue_zero tok)) = "a\" /\
  strip_one_quote tok = String "a" (String "\" quote_cutset) /\
  StringValue (fst (UnmarshalJSON gaugeValue_zero tok)) <> strip_one_quote tok.
Proof. vm_compute. repeat split; discriminate. Qed.

(** C10, as amended. A base-10 integer literal whose value lies outside the
    signed 64-bit range fails the integer parse. Below [float64_overflow] in
    magnitude it is classified as Float and holds a finite binary64 number
    than which none is closer to the value; from [float64_overflow] on the
    float parse reports a range error too, and the token is classified as
    String, holding the token text. *)
Theorem UnmarshalJSON_big_literal (g0 : gaugeValue) (b : string) (v : Z) :
  int_literal b = Some v ->
  v < minInt64 \/ maxInt64 < v ->
  snd (ParseInt b 10 64) = Some ErrRange /\
  (Z.abs v < float64_overflow ->
     exists f,
       UnmarshalJSON g0 b =
         ({| IntValue := 0; FloatValue := f;
             StringValue := EmptyString; Type_ := FloatType |}, None) /\
       nearest_float64 v f) /\
  (float64_overflow <= Z.abs v ->
     UnmarshalJSON g0 b =
       ({| IntValue := 0; FloatValue := S754_zero false;
           StringValue := b; Type_ := StringType |}, None)).
Proof.
  intros Hlit Hout.
  assert (Hmin : minInt64 = - 2 ^ 63) by reflexivity.
  assert (Hmax : maxInt64 = 2 ^ 63 - 1) by reflexivity.
  assert (Hint : ParseInt b 10 64 =
                 (if v <? minInt64 then minInt64 else maxInt64, Some ErrRange)).
  { rewrite (ParseInt_literal _ _ Hlit). unfold ParseInt_outcome.
    destruct (Z.ltb_spec v minInt64); [reflexivity|].
    destruct (Z.ltb_spec maxInt64 v); [reflexivity|lia]. }
  assert (Hv0 : v <> 0) by lia.
  pose proof (ParseFloat_literal _ _ Hlit Hv0) as Hfl. cbv zeta in Hfl.
  split; [rewrite Hint; reflexivity|]. split.
  - intros Hfin.
    exists (binary_normalize prec64 emax64 v 0 false).
    assert (Hnear : nearest_float64 v (binary_normalize prec64 emax64 v 0 false)).
    { destruct v as [|p|p]; [contradiction| |].
      - apply (binary_round_nearest false p). lia.
      - apply (binary_round_nearest true p).
        change (Z.abs (Zneg p)) with (Zpos p) in Hfin.
        change (Zneg p) with (- Zpos p) in Hout. lia. }
    split; [|exact Hnear].
    unfold UnmarshalJSON. rewrite Hint, Hfl.
    destruct Hnear as (_ & x & Hx & _).
    destruct (binary_normalize prec64 emax64 v 0 false); try discriminate Hx;
      reflexivity.
  - intros Hinf.
    assert (Hf : binary_normalize prec64 emax64 v 0 false = S754_infinity (v <? 0)).
    { destruct v as [|p|p]; [contradiction| |].
      - apply (binary_round_overflow false p). exact Hinf.
      - apply (binary_round_overflow true p). exact Hinf. }
    unfold UnmarshalJSON. rewrite Hint, Hfl, Hf. cbn [is_inf].
    rewrite (literal_Trim _ _ Hlit). reflexivity.
Qed.

Lemma UnmarshalJSON_big_literal_witness :
  int_literal "9223372036854775808" = Some 9223372036854775808 /\
  maxInt64 < 9223372036854775808 /\
  exists f,
    UnmarshalJSON gaugeValue_zero "9223372036854775808" =
      ({| IntValue := 0; FloatValue := f;
          StringValue := EmptyString; Type_ := FloatType |}, None) /\
    nearest_float64 9223372036854775808 f.
Proof.
  split; [reflexivity|]. split; [reflexivity|].
  destruct (UnmarshalJSON_big_literal gaugeValue_zero "9223372036854775808"
              9223372036854775808 eq_refl (or_intror eq_refl)) as (_ & H & _).
  apply H. reflexivity.
Defined.

(** C10 as stated fails on the literal [1] followed by 309 zeros: it lies
    outside the signed 64-bit range, it is too large for binary64 as well,
    and the decoder classifies it as String. *)
Lemma UnmarshalJSON_big_literal_counterexample :
  let tok := String "1" (zeros 309) in
  int_literal tok = Some (10 ^ 309) /\
  maxInt64 < 10 ^ 309 /\
  UnmarshalJSON gaugeValue_zero tok =
    ({| IntValue := 0; FloatValue := S754_zero false;
        StringValue := tok; Type_ := StringType |}, None) /\
  Type_ (fst (UnmarshalJSON gaugeValue_zero tok)) <> FloatType.
Proof. vm_compute. repeat split; discriminate. Qed.

(* ===================================================================== *)
(** * The plugin: programs and their runs *)
(* ===================================================================== *)

Section RunFacts.

Context {A : Type}.

Lemma runs_app (p p' p'' : prog A) (es es' : list event) :
  runs p es p' -> runs p' es' p'' -> runs p (es ++ es') p''.
Proof.
  induction 1; intros H2; simpl; [exact H2| | | | |]; constructor; auto.
Qed.

Lemma runs_Ret_inv (a : A) (es : list event) (p' : prog A) :
  runs (Ret a) es p' -> es = [] /\ p' = Ret a.
Proof. inversion 1; subst; auto. Qed.

Lemma runs_emit_inv (cs : list acc_call) (k : prog A) (es : list event) (a : A) :
  runs (emit cs k) es (Ret a) ->
  exists es', es = map EvAcc cs ++ es' /\ runs k es' (Ret a).
Proof.
  revert es. induction cs as [|c cs IH]; intros es H.
  - exists es. split; [reflexivity|exact H].
  - cbn [emit] in H. inversion H; subst.
    destruct (IH _ H4) as (es' & -> & Hk).
    exists es'. split; [reflexivity|exact Hk].
Qed.

Lemma runs_emit (cs : list acc_call) (k : prog A) :
  runs (emit cs k) (map EvAcc cs) k.
Proof. induction cs; simpl; constructor; auto. Qed.

End RunFacts.

Lemma canonical_orders_of (m : metrics) : orders_of m (canonical_orders m).
Proof. repeat split; reflexivity. Qed.

(** [run] gives a run to the end. *)
Lemma run_runs {A : Type} (now : Time) (http : string -> response) (p : prog A) :
  runs p (run now http p).2 (Ret (run now http p).1).
Proof.
  induction p as [a|k IH|url k IH|m k IH|k IH|c k IH]; cbn [run].
  - constructor.
  - specialize (IH now). destruct (run now http (k now)). constructor. exact IH.
  - specialize (IH (http url)). destruct (run now http (k (http url))).
    constructor. exact IH.
  - specialize (IH (canonical_orders m)).
    destruct (run now http (k (canonical_orders m))).
    constructor; [apply canonical_orders_of|exact IH].
  - destruct (run now http k). constructor. exact IH.
  - destruct (run now http k). constructor. exact IH.
Qed.

Lemma bind_emit {A B : Type} (cs : list acc_call) (k : prog A) (f : A -> prog B) :
  bind (emit cs k) f = emit cs (bind k f).
Proof. induction cs as [|c cs IH]; simpl; [reflexivity|]. rewrite IH. reflexivity. Qed.

Section PassFacts.

Context {TLSConfig : Type}.
Variable json_Decode : string -> metrics -> metrics * option error.

(** A goroutine that has run to its end has read the time, then sent the
    request, and then done what [task_events] says. *)
Lemma gather_task_complete (d : Dropwizard TLSConfig) (url : string)
    (es : list event) :
  runs (gather_task json_Decode d url) es (Ret tt) ->
  exists t r o, es = task_events json_Decode url t r o /\
                task_orders json_Decode r o.
Proof.
  unfold gather_task, gatherURL. cbn [bind]. intros H.
  inversion H as [| k t es1 p' H1 | | | |]; subst. clear H.
  inversion H1 as [| | url' k r es2 p' H2 | | |]; subst. clear H1.
  unfold task_events, task_orders.
  destruct r as [body|err]; cbn [bind] in H2.
  - destruct (DecodeJSONMetrics json_Decode body) as [m [err|]] eqn:Hdec.
    + cbn [bind] in H2.
      inversion H2 as [| | | | k es3 p' H3 |]; subst. clear H2.
      inversion H3 as [| | | | | c k es4 p' H4]; subst. clear H3.
      apply runs_Ret_inv in H4 as [-> _].
      exists t, (inl body), (canonical_orders m). rewrite Hdec.
      split; [reflexivity|exact I].
    + cbn [bind] in H2.
      inversion H2 as [| | | m' k o es3 p' Ho H3 | |]; subst. clear H2.
      rewrite bind_emit in H3. cbn [bind] in H3.
      apply runs_emit_inv in H3 as (es' & -> & H4).
      inversion H4 as [| | | | k es5 p' H5 |]; subst. clear H4.
      apply runs_Ret_inv in H5 as [-> _].
      exists t, (inl body), o. rewrite Hdec. split; [reflexivity|exact Ho].
  - inversion H2 as [| | | | | c k es3 p' H3]; subst. clear H2.
    apply runs_Ret_inv in H3 as [-> _].
    exists t, (inr err), (canonical_orders metrics_zero).
    split; [reflexivity|exact I].
Qed.

(** And every such sequence of events is a run of the goroutine. *)
Lemma gather_task_run (d : Dropwizard TLSConfig) (url : string)
    (t : Time) (r : response) (o : orders) :
  task_orders json_Decode r o ->
  runs (gather_task json_Decode d url) (task_events json_Decode url t r o) (Ret tt).
Proof.
  unfold gather_task, gatherURL, task_events, task_orders. cbn [bind].
  intros Ho. do 2 constructor.
  destruct r as [body|err]; cbn [bind].
  - destruct (DecodeJSONMetrics json_Decode body) as [m [err|]].
    + cbn [bind]. do 3 constructor.
    + cbn [bind]. constructor; [exact Ho|]. rewrite bind_emit. cbn [bind].
      eapply runs_app; [apply runs_emit|]. do 2 constructor.
  - do 2 constructor.
Qed.

End PassFacts.

(** ** Interleavings *)

Section Interleaving.

Lemma events_of_app (i : nat) (l1 l2 : log) :
  events_of i (l1 ++ l2) = events_of i l1 ++ events_of i l2.
Proof. unfold events_of. apply omap_app. Qed.

Lemma events_of_single (i j : nat) (e : event) :
  events_of i [(j, e)] = if Nat.eqb j i then [e] else [].
Proof. unfold events_of. cbn. destruct (Nat.eqb j i); reflexivity. Qed.

(** One step of the pool is one step of one goroutine. *)
Lemma step_inv (ps ps' : pool) (l l' : log) :
  step (ps, l) (ps', l') ->
  exists i e p p',
    ps !! i = Some p /\ ps' = <[i := p']> ps /\ l' = l ++ [(i, e)] /\
    runs p [e] p'.
Proof.
  inversion 1; subst; do 4 eexists;
    (split; [eassumption|]); (split; [reflexivity|]); (split; [reflexivity|]);
    constructor; try assumption; constructor.
Qed.

(** What every state of a pass satisfies: the goroutines are those
    started, each has run the events the log has for it, and the log names
    no other goroutine. *)
Lemma steps_inv (tasks ps : pool) (l : log) :
  steps (tasks, []) (ps, l) ->
  length ps = length tasks /\
  Forall (fun ie : nat * event => (ie.1 < length tasks)%nat) l /\
  forall i p0, tasks !! i = Some p0 ->
    exists p, ps !! i = Some p /\ runs p0 (events_of i l) p.
Proof.
  intros H. remember (tasks, @nil (nat * event)) as s0 eqn:Hs0.
  remember (ps, l) as s eqn:Hs. revert ps l Hs.
  induction H as [s|s1 s2 s3 H12 IH H23]; intros ps l Hs; subst.
  - injection Hs as <- <-. split; [reflexivity|]. split; [constructor|].
    intros i p0 Hi. exists p0. split; [exact Hi|constructor].
  - destruct s2 as [ps2 l2].
    destruct (IH eq_refl ps2 l2 eq_refl) as (Hlen & Hall & Hrun).
    apply step_inv in H23 as (j & e & p & p' & Hj & -> & -> & Hstep).
    assert (Hjlt : (j < length ps2)%nat) by (eapply lookup_lt_Some; eauto).
    split; [rewrite length_insert; exact Hlen|]. split.
    + apply Forall_app. split; [exact Hall|].
      constructor; [simpl; lia|constructor].
    + intros i p0 Hi. destruct (Hrun i p0 Hi) as (pi & Hpi & Hri).
      rewrite events_of_app, events_of_single.
      destruct (Nat.eqb_spec j i) as [->|Hne].
      * exists p'. split; [apply list_lookup_insert_eq; exact Hjlt|].
        assert (pi = p) as -> by congruence.
        eapply runs_app; eauto.
      * exists pi. rewrite app_nil_r.
        split; [rewrite list_lookup_insert_ne by exact Hne; exact Hpi|exact Hri].
Qed.

(** In a complete pass every goroutine started has run to its end. *)
Lemma completes_runs (tasks : pool) (l : log) :
  completes tasks l ->
  Forall (fun ie : nat * event => (ie.1 < length tasks)%nat) l /\
  forall i p0, tasks !! i = Some p0 -> runs p0 (events_of i l) (Ret tt).
Proof.
  intros (ps & Hsteps & Hdone).
  destruct (steps_inv _ _ _ Hsteps) as (Hlen & Hall & Hrun).
  split; [exact Hall|]. intros i p0 Hi.
  destruct (Hrun i p0 Hi) as (p & Hp & Hr).
  unfold all_done in Hdone. rewrite Forall_lookup in Hdone.
  specialize (Hdone i p Hp). destruct p as [[]| | | | |]; try discriminate.
  exact Hr.
Qed.

(** A run of one goroutine is a sequence of steps of the pool. *)
Lemma run_steps (s0 : pool * log) (p p' : prog unit) (es : list event) :
  runs p es p' ->
  forall (ps : pool) (l : log) (i : nat),
    ps !! i = Some p ->
    steps s0 (ps, l) ->
    steps s0 (<[i := p']> ps, l ++ map (fun e => (i, e)) es).
Proof.
  induction 1 as [p|k t es p' H IH|url k r es p' H IH|m k o es p' Ho H IH
                  |k es p' H IH|c k es p' H IH];
    intros ps l i Hi Hs.
  - rewrite app_nil_r, list_insert_id by exact Hi. exact Hs.
  - assert (Hlt : (i < length ps)%nat) by (eapply lookup_lt_Some; eauto).
    specialize (IH (<[i := k t]> ps) (l ++ [(i, EvNow t)]) i
                  (list_lookup_insert_eq _ _ _ Hlt)
                  (steps_step _ _ _ Hs (step_now ps l i k t Hi))).
    rewrite list_insert_insert_eq, <- app_assoc in IH. exact IH.
  - assert (Hlt : (i < length ps)%nat) by (eapply lookup_lt_Some; eauto).
    specialize (IH (<[i := k r]> ps) (l ++ [(i, EvGet url r)]) i
                  (list_lookup_insert_eq _ _ _ Hlt)
                  (steps_step _ _ _ Hs (step_get ps l i url k r Hi))).
    rewrite list_insert_insert_eq, <- app_assoc in IH. exact IH.
  - assert (Hlt : (i < length ps)%nat) by (eapply lookup_lt_Some; eauto).
    specialize (IH (<[i := k o]> ps) (l ++ [(i, EvRange o)]) i
                  (list_lookup_insert_eq _ _ _ Hlt)
                  (steps_step _ _ _ Hs (step_range ps l i m k o Hi Ho))).
    rewrite list_insert_insert_eq, <- app_assoc in IH. exact IH.
  - assert (Hlt : (i < length ps)%nat) by (eapply lookup_lt_Some; eauto).
    specialize (IH (<[i := k]> ps) (l ++ [(i, EvClose)]) i
                  (list_lookup_insert_eq _ _ _ Hlt)
                  (steps_step _ _ _ Hs (step_close ps l i k Hi))).
    rewrite list_insert_insert_eq, <- app_assoc in IH. exact IH.
  - assert (Hlt : (i < length ps)%nat) by (eapply lookup_lt_Some; eauto).
    specialize (IH (<[i := k]> ps) (l ++ [(i, EvAcc c)]) i
                  (list_lookup_insert_eq _ _ _ Hlt)
                  (steps_step _ _ _ Hs (step_acc ps l i c k Hi))).
    rewrite list_insert_insert_eq, <- app_assoc in IH. exact IH.
Qed.

Lemma run_seq_steps (clock : nat -> Time) (http : string -> response)
    (tasks rest : pool) :
  forall (done : pool) (l : log),
    steps (tasks, []) (done ++ rest, l) ->
    all_done done ->
    exists ps,
      steps (tasks, []) (ps, l ++ run_seq clock http (length done) rest) /\
      all_done ps.
Proof.
  induction rest as [|p rest IH]; intros done l Hs Hd.
  - exists done. rewrite !app_nil_r in *. split; assumption.
  - cbn [run_seq].
    pose proof (run_runs (clock (length done)) http p) as Hr.
    destruct (run (clock (length done)) http p) as [[] es]. cbn [fst snd] in *.
    assert (Hi : (done ++ p :: rest) !! length done = Some p)
      by (rewrite lookup_app_r, Nat.sub_diag by lia; reflexivity).
    pose proof (run_steps _ _ _ _ Hr _ _ _ Hi Hs) as Hs'.
    replace (<[length done := Ret tt]> (done ++ p :: rest))
      with ((done ++ [Ret tt]) ++ rest) in Hs'.
    2:{ rewrite insert_app_r_alt, Nat.sub_diag by lia.
        rewrite <- app_assoc. reflexivity. }
    destruct (IH (done ++ [Ret tt]) _ Hs') as (ps & Hps & Hall).
    { apply Forall_app. split; [exact Hd|]. constructor; [reflexivity|constructor]. }
    exists ps. rewrite length_app, Nat.add_1_r in Hps.
    rewrite app_assoc. split; assumption.
Qed.

(** Every pass can complete: running the goroutines one after the other is
    one of its interleavings. *)
Lemma run_seq_completes (clock : nat -> Time) (http : string -> response)
    (tasks : pool) :
  completes tasks (run_seq clock http 0 tasks).
Proof.
  destruct (run_seq_steps clock http tasks tasks [] [] (steps_refl _))
    as (ps & Hps & Hall); [constructor|].
  exists ps. split; assumption.
Qed.

End Interleaving.

(* ===================================================================== *)
(** * The normalizer *)
(* ===================================================================== *)

Section NormalizerFacts.

Lemma for_range_single {V : Type} (entries : list (string * V))
    (f : string -> V -> acc_call) :
  for_range entries (fun name x => [f name x]) =
  map (fun kv => f kv.1 kv.2) entries.
Proof.
  unfold for_range. induction entries as [|kv l IH]; [reflexivity|].
  cbn [flat_map map]. rewrite IH. reflexivity.
Qed.

Lemma Forall2_map_entries {V : Type} (P : acc_call -> string -> Prop)
    (f : string * V -> acc_call) (l : list (string * V)) :
  (forall kv, P (f kv) kv.1) -> Forall2 P (map f l) l.*1.
Proof.
  intros H. induction l as [|kv l IH]; [constructor|].
  cbn. constructor; [apply H|exact IH].
Qed.

Lemma gauge_body_cases (now : Time) (name : string) (g : gauge) :
  (numeric_gauge g = true /\
   exists v, gauge_body now name g =
             [AccAdd AddGauge name {[ "value" := v ]} None now]) \/
  (numeric_gauge g <> true /\ Type_ (Value g) = StringType /\
   gauge_body now name g = []).
Proof.
  unfold numeric_gauge, gauge_body.
  destruct (Type_ (Value g)); [left|left|right]; eauto.
Qed.

Lemma gauge_body_records (now : Time) (gs : list (string * gauge)) :
  Forall2 (record_for gauge_fields now)
          (for_range gs (gauge_body now)) (numeric_gauges gs).*1.
Proof.
  unfold for_range, numeric_gauges.
  induction gs as [|[name g] l IH]; [constructor|].
  cbn [flat_map]. rewrite filter_cons. cbn [fst snd].
  destruct (gauge_body_cases now name g) as [(Hn & v & ->)|(Hn & _ & ->)].
  - rewrite decide_True by exact Hn. cbn. constructor; [|exact IH].
    repeat split.
  - rewrite decide_False by exact Hn. exact IH.
Qed.

Lemma counter_body_records (now : Time) (cs : list (string * counter)) :
  Forall2 (record_for counter_fields now) (for_range cs (counter_body now)) cs.*1.
Proof.
  unfold counter_body.
  rewrite (for_range_single _ (fun name c =>
    AccAdd AddCounter name {[ "count" := VInt (c_Count c) ]} None now)).
  apply Forall2_map_entries. intros [name c].
  repeat split.
Qed.

Lemma histogram_body_records (now : Time) (hs : list (string * histogram)) :
  Forall2 (record_for histogram_fields now)
          (for_range hs (histogram_body now)) hs.*1.
Proof.
  unfold histogram_body.
  rewrite (for_range_single _ (fun name h => AccAdd AddHistogram name _ None now)).
  apply Forall2_map_entries. intros [name h].
  repeat split.
Qed.

Lemma meter_body_records (now : Time) (ms : list (string * meter)) :
  Forall2 (record_for meter_fields now) (for_range ms (meter_body now)) ms.*1.
Proof.
  unfold meter_body.
  rewrite (for_range_single _ (fun name x => AccAdd AddHistogram name _ None now)).
  apply Forall2_map_entries. intros [name x].
  repeat split.
Qed.

Lemma timer_body_records (now : Time) (ts : list (string * timer)) :
  Forall2 (record_for timer_fields now) (for_range ts (timer_body now)) ts.*1.
Proof.
  unfold timer_body.
  rewrite (for_range_single _ (fun name x => AccAdd AddFields name _ None now)).
  apply Forall2_map_entries. intros [name x].
  repeat split.
Qed.

Lemma Forall_for_range {V : Type} (P : acc_call -> Prop)
    (entries : list (string * V)) (body : string -> V -> list acc_call) :
  (forall name x, Forall P (body name x)) -> Forall P (for_range entries body).
Proof.
  intros H. unfold for_range.
  induction entries as [|kv l IH]; [constructor|].
  cbn [flat_map]. apply Forall_app. split; [apply H|exact IH].
Qed.

(** Every call of the normalizer is a record stamped with the time given. *)
Lemma normalize_times (o : orders) (now : Time) :
  Forall (fun c => is_record c = true /\ call_time c = Some now) (normalize o now).
Proof.
  unfold normalize. repeat (apply Forall_app; split);
    apply Forall_for_range; intros name x.
  - unfold gauge_body. destruct (Type_ (Value x)); repeat constructor.
  - repeat constructor.
  - repeat constructor.
  - repeat constructor.
  - repeat constructor.
Qed.

Lemma records_for_entries {V : Type} (table : list string) (now : Time)
    (cs : list acc_call) (entries all : list (string * V)) :
  entries ≡ₚ all ->
  Forall2 (record_for table now) cs entries.*1 ->
  records_for table now cs all.*1.
Proof.
  intros Hp Hf. exists entries.*1. split; [|exact Hf].
  apply fmap_Permutation, Hp.
Qed.

End NormalizerFacts.

(** ** What the records hold *)

Section TableFacts.

(** A table with distinct names, as a map: what is under a name. *)
Lemma table_lookup (tbl : list (string * value)) (k : string) (v : value) :
  NoDup tbl.*1 ->
  ((list_to_map tbl : gmap string value) !! k = Some v <-> (k, v) ∈ tbl).
Proof. intros H. symmetry. apply elem_of_list_to_map, H. Qed.

Lemma NoDup_strings (l : list string) : bool_decide (NoDup l) = true -> NoDup l.
Proof. intros H. apply bool_decide_eq_true in H. exact H. Qed.

Lemma Forall2_map_self {V : Type} (P : acc_call -> string * V -> Prop)
    (f : string * V -> acc_call) (l : list (string * V)) :
  (forall kv, P (f kv) kv) -> Forall2 P (map f l) l.
Proof.
  intros H. induction l as [|kv l IH]; [constructor|].
  cbn. constructor; [apply H|exact IH].
Qed.

Lemma gauge_body_records_of (now : Time) (gs : list (string * gauge)) :
  Forall2 (record_of AddGauge gauge_values now)
          (for_range gs (gauge_body now)) (numeric_gauges gs).
Proof.
  unfold for_range, numeric_gauges.
  induction gs as [|[name g] l IH]; [constructor|].
  cbn [flat_map]. rewrite filter_cons. cbn [fst snd].
  destruct (Type_ (Value g)) eqn:Hty.
  - rewrite decide_True by (unfold numeric_gauge; rewrite Hty; reflexivity).
    unfold gauge_body at 1. rewrite Hty. cbn [app]. constructor; [|exact IH].
    do 4 (split; [reflexivity|]). cbn [call_fields snd]. intros k v.
    unfold gauge_values. rewrite Hty.
    apply (table_lookup [("value", VInt (IntValue (Value g)))]).
    apply NoDup_strings. reflexivity.
  - rewrite decide_True by (unfold numeric_gauge; rewrite Hty; reflexivity).
    unfold gauge_body at 1. rewrite Hty. cbn [app]. constructor; [|exact IH].
    do 4 (split; [reflexivity|]). cbn [call_fields snd]. intros k v.
    unfold gauge_values. rewrite Hty.
    apply (table_lookup [("value", VFloat (FloatValue (Value g)))]).
    apply NoDup_strings. reflexivity.
  - rewrite decide_False
      by (unfold numeric_gauge; rewrite Hty; discriminate).
    unfold gauge_body at 1. rewrite Hty. exact IH.
Qed.

Lemma counter_body_records_of (now : Time) (cs : list (string * counter)) :
  Forall2 (record_of AddCounter counter_values now)
          (for_range cs (counter_body now)) cs.
Proof.
  unfold counter_body.
  rewrite (for_range_single _ (fun name c =>
    AccAdd AddCounter name {[ "count" := VInt (c_Count c) ]} None now)).
  apply Forall2_map_self. intros [name c].
  do 4 (split; [reflexivity|]). cbn [call_fields fst snd]. intros k v.
  apply (table_lookup (counter_values c)). apply NoDup_strings. reflexivity.
Qed.

Lemma histogram_body_records_of (now : Time) (hs : list (string * histogram)) :
  Forall2 (record_of AddHistogram histogram_values now)
          (for_range hs (histogram_body now)) hs.
Proof.
  unfold histogram_body.
  rewrite (for_range_single _ (fun name h => AccAdd AddHistogram name _ None now)).
  apply Forall2_map_self. intros [name h].
  do 4 (split; [reflexivity|]). cbn [call_fields fst snd]. intros k v.
  apply (table_lookup (histogram_values h)). apply NoDup_strings. reflexivity.
Qed.

Lemma meter_body_records_of (now : Time) (ms : list (string * meter)) :
  Forall2 (record_of AddHistogram meter_values now)
          (for_range ms (meter_body now)) ms.
Proof.
  unfold meter_body.
  rewrite (for_range_single _ (fun name x => AccAdd AddHistogram name _ None now)).
  apply Forall2_map_self. intros [name x].
  do 4 (split; [reflexivity|]). cbn [call_fields fst snd]. intros k v.
  apply (table_lookup (meter_values x)). apply NoDup_strings. reflexivity.
Qed.

Lemma timer_body_records_of (now : Time) (ts : list (string * timer)) :
  Forall2 (record_of AddFields timer_values now)
          (for_range ts (timer_body now)) ts.
Proof.
  unfold timer_body.
  rewrite (for_range_single _ (fun name x => AccAdd AddFields name _ None now)).
  apply Forall2_map_self. intros [name x].
  do 4 (split; [reflexivity|]). cbn [call_fields fst snd]. intros k v.
  apply (table_lookup (timer_values x)). apply NoDup_strings. reflexivity.
Qed.

(** The records of a document, loop by loop: each call is the record of
    an entry of the map its loop ranges over, with the values of that
    entry, and each entry has its record. *)
Lemma normalize_records_of (m : metrics) (o : orders) (now : Time) :
  orders_of m o ->
  records_of AddGauge gauge_values now
    (for_range (o_gauges o) (gauge_body now))
    (numeric_gauges (map_to_list (Gauges m))) /\
  records_of AddCounter counter_values now
    (for_range (o_counters o) (counter_body now)) (map_to_list (Counters m)) /\
  records_of AddHistogram histogram_values now
    (for_range (o_histograms o) (histogram_body now))
    (map_to_list (Histograms m)) /\
  records_of AddHistogram meter_values now
    (for_range (o_meters o) (meter_body now)) (map_to_list (Meters m)) /\
  records_of AddFields timer_values now
    (for_range (o_timers o) (timer_body now)) (map_to_list (Timers m)).
Proof.
  intros (Hg & Hc & Hh & Hm & Ht).
  split; [|split; [|split; [|split]]].
  - exists (numeric_gauges (o_gauges o)). split; [|apply gauge_body_records_of].
    unfold numeric_gauges. rewrite Hg. reflexivity.
  - exists (o_counters o). split; [exact Hc|apply counter_body_records_of].
  - exists (o_histograms o). split; [exact Hh|apply histogram_body_records_of].
  - exists (o_meters o). split; [exact Hm|apply meter_body_records_of].
  - exists (o_timers o). split; [exact Ht|apply timer_body_records_of].
Qed.

End TableFacts.

(** C1. On every decoded document, in whatever order the loops take its
    entries, the normalizer makes exactly one record for each gauge whose
    value is an integer or a float, each counter, each histogram, each
    meter and each timer, named after the metric, and none for a gauge
    holding a string. The fields of each record are exactly those of the
    table of its kind, and under each field name the record holds the
    value the metric has under that name: the record of a histogram holds
    its [count], [max], [mean], ..., that of a meter its [count] and its
    four rates, and so on, and nothing else. *)
Theorem normalize_one_record_per_metric (m : metrics) (o : orders) (now : Time) :
  orders_of m o ->
  exists gs cs hs ms ts,
    normalize o now = gs ++ cs ++ hs ++ ms ++ ts /\
    records_for gauge_fields now gs (numeric_gauges (map_to_list (Gauges m))).*1 /\
    records_for counter_fields now cs (map_to_list (Counters m)).*1 /\
    records_for histogram_fields now hs (map_to_list (Histograms m)).*1 /\
    records_for meter_fields now ms (map_to_list (Meters m)).*1 /\
    records_for timer_fields now ts (map_to_list (Timers m)).*1 /\
    records_of AddGauge gauge_values now gs
      (numeric_gauges (map_to_list (Gauges m))) /\
    records_of AddCounter counter_values now cs (map_to_list (Counters m)) /\
    records_of AddHistogram histogram_values now hs
      (map_to_list (Histograms m)) /\
    records_of AddHistogram meter_values now ms (map_to_list (Meters m)) /\
    records_of AddFields timer_values now ts (map_to_list (Timers m)) /\
    ((forall g, numeric_gauge g = true -> (gauge_values g).*1 = gauge_fields) /\
     (forall c, (counter_values c).*1 = counter_fields) /\
     (forall h, (histogram_values h).*1 = histogram_fields) /\
     (forall x, (meter_values x).*1 = meter_fields) /\
     (forall t, (timer_values t).*1 = timer_fields)) /\
    (forall name g, (name, g) ∈ numeric_gauges (map_to_list (Gauges m)) <->
       Gauges m !! name = Some g /\
       (Type_ (Value g) = IntType \/ Type_ (Value g) = FloatType)) /\
    length (normalize o now) =
      (length (numeric_gauges (map_to_list (Gauges m))) + size (Counters m) +
       size (Histograms m) + size (Meters m) + size (Timers m))%nat.
Proof.
  intros Ho.
  destruct (normalize_records_of m o now Ho) as (Vg & Vc & Vh & Vm & Vt).
  destruct Ho as (Hg & Hc & Hh & Hm & Ht).
  exists (for_range (o_gauges o) (gauge_body now)),
         (for_range (o_counters o) (counter_body now)),
         (for_range (o_histograms o) (histogram_body now)),
         (for_range (o_meters o) (meter_body now)),
         (for_range (o_timers o) (timer_body now)).
  assert (Hgn : numeric_gauges (o_gauges o) ≡ₚ
                numeric_gauges (map_to_list (Gauges m)))
    by (unfold numeric_gauges; rewrite Hg; reflexivity).
  pose proof (records_for_entries _ now _ _ _ Hgn (gauge_body_records now (o_gauges o)))
    as Rg.
  pose proof (records_for_entries _ now _ _ _ Hc (counter_body_records now (o_counters o)))
    as Rc.
  pose proof (records_for_entries _ now _ _ _ Hh
                (histogram_body_records now (o_histograms o))) as Rh.
  pose proof (records_for_entries _ now _ _ _ Hm (meter_body_records now (o_meters o)))
    as Rm.
  pose proof (records_for_entries _ now _ _ _ Ht (timer_body_records now (o_timers o)))
    as Rt.
  split; [reflexivity|].
  split; [exact Rg|]. split; [exact Rc|]. split; [exact Rh|].
  split; [exact Rm|]. split; [exact Rt|].
  split; [exact Vg|]. split; [exact Vc|]. split; [exact Vh|].
  split; [exact Vm|]. split; [exact Vt|].
  split; [|split].
  - split; [|repeat split].
    intros g. unfold numeric_gauge, gauge_values.
    destruct (Type_ (Value g)); [reflexivity|reflexivity|discriminate].
  - intros name g. unfold numeric_gauges.
    rewrite list_elem_of_filter, elem_of_map_to_list. cbn [snd].
    unfold numeric_gauge. destruct (Type_ (Value g)); intuition discriminate.
  - unfold normalize. rewrite !length_app.
    pose proof (Forall2_length _ _ _ (gauge_body_records now (o_gauges o))) as Lg.
    pose proof (Forall2_length _ _ _ (counter_body_records now (o_counters o))) as Lc.
    pose proof (Forall2_length _ _ _ (histogram_body_records now (o_histograms o))) as Lh.
    pose proof (Forall2_length _ _ _ (meter_body_records now (o_meters o))) as Lm.
    pose proof (Forall2_length _ _ _ (timer_body_records now (o_timers o))) as Lt.
    rewrite length_fmap, (Permutation_length Hgn) in Lg.
    rewrite length_fmap, (Permutation_length Hc), length_map_to_list in Lc.
    rewrite length_fmap, (Permutation_length Hh), length_map_to_list in Lh.
    rewrite length_fmap, (Permutation_length Hm), length_map_to_list in Lm.
    rewrite length_fmap, (Permutation_length Ht), length_map_to_list in Lt. lia.
Qed.

(** On [sample_doc], which has a metric of every kind and a string gauge:
    six records, spelled out; the string gauge [app.state] has none. *)
Lemma normalize_one_record_per_metric_witness :
  orders_of sample_doc (canonical_orders sample_doc) /\
  normalize (canonical_orders sample_doc) 1000 =
    [AccAdd AddGauge "jvm.memory.heap.usage"
       (list_to_map [("value", VFloat (S754_finite false 4503599627370496 (-54)))])
       None 1000;
     AccAdd AddGauge "jvm.threads.count"
       (list_to_map [("value", VInt 27)]) None 1000;
     AccAdd AddCounter "requests.active"
       (list_to_map [("count", VInt 3)]) None 1000;
     AccAdd AddHistogram "response.size"
       (list_to_map
          [("count", VInt 42); ("max", VInt 900);
           ("mean", VFloat (float64_of_Z 250)); ("min", VInt 10);
           ("p50", VFloat (float64_of_Z 200)); ("p75", VFloat (float64_of_Z 300));
           ("p95", VFloat (float64_of_Z 700)); ("p98", VFloat (float64_of_Z 800));
           ("p99", VFloat (float64_of_Z 850)); ("p999", VFloat (float64_of_Z 890));
           ("stddev", VFloat (float64_of_Z 120))])
       None 1000;
     AccAdd AddHistogram "requests.rate"
       (list_to_map
          [("count", VInt 77); ("m15_rate", VFloat (float64_of_Z 15));
           ("m1_rate", VFloat (float64_of_Z 1));
           ("m5_rate", VFloat (float64_of_Z 5));
           ("mean_rate", VFloat (float64_of_Z 9))])
       None 1000;
     AccAdd AddFields "requests.time"
       (list_to_map
          [("count", VInt 55); ("max", VFloat (float64_of_Z 990));
           ("mean", VFloat (float64_of_Z 260)); ("min", VFloat (float64_of_Z 11));
           ("p50", VFloat (float64_of_Z 210)); ("p75", VFloat (float64_of_Z 310));
           ("p95", VFloat (float64_of_Z 710)); ("p98", VFloat (float64_of_Z 810));
           ("p99", VFloat (float64_of_Z 860)); ("p999", VFloat (float64_of_Z 895));
           ("stddev", VFloat (float64_of_Z 130));
           ("m15_rate", VFloat (float64_of_Z 16));
           ("m1_rate", VFloat (float64_of_Z 2));
           ("m5_rate", VFloat (float64_of_Z 6));
           ("mean_rate", VFloat (float64_of_Z 8))])
       None 1000] /\
  exists gs cs hs ms ts,
    normalize (canonical_orders sample_doc) 1000 = gs ++ cs ++ hs ++ ms ++ ts /\
    records_for gauge_fields 1000 gs
      (numeric_gauges (map_to_list (Gauges sample_doc))).*1 /\
    records_of AddGauge gauge_values 1000 gs
      (numeric_gauges (map_to_list (Gauges sample_doc))) /\
    records_of AddCounter counter_values 1000 cs
      (map_to_list (Counters sample_doc)) /\
    records_of AddHistogram histogram_values 1000 hs
      (map_to_list (Histograms sample_doc)) /\
    records_of AddHistogram meter_values 1000 ms
      (map_to_list (Meters sample_doc)) /\
    records_of AddFields timer_values 1000 ts
      (map_to_list (Timers sample_doc)) /\
    length (normalize (canonical_orders sample_doc) 1000) = 6%nat.
Proof.
  split; [apply canonical_orders_of|]. split; [vm_compute; reflexivity|].
  destruct (normalize_one_record_per_metric sample_doc
              (canonical_orders sample_doc) 1000
              (canonical_orders_of sample_doc))
    as (gs & cs & hs & ms & ts & H1 & H2 & _ & _ & _ & _ &
        V1 & V2 & V3 & V4 & V5 & _ & _ & H4).
  exists gs, cs, hs, ms, ts.
  split; [exact H1|]. split; [exact H2|]. split; [exact V1|].
  split; [exact V2|]. split; [exact V3|]. split; [exact V4|].
  split; [exact V5|]. rewrite H4. reflexivity.
Defined.

(** C9. Meter records go to the sink through [AddHistogram], the method
    histogram records go through; timer records go through [AddFields];
    gauges and counters have [AddGauge] and [AddCounter] to themselves.
    This is so for each entry, in whatever order the loops take them. *)
Theorem normalize_sink_methods (o : orders) (now : Time) :
  normalize o now =
    for_range (o_gauges o) (gauge_body now) ++
    for_range (o_counters o) (counter_body now) ++
    for_range (o_histograms o) (histogram_body now) ++
    for_range (o_meters o) (meter_body now) ++
    for_range (o_timers o) (timer_body now) /\
  Forall2 (sent_through AddGauge)
          (for_range (o_gauges o) (gauge_body now)) (numeric_gauges (o_gauges o)).*1 /\
  Forall2 (sent_through AddCounter)
          (for_range (o_counters o) (counter_body now)) (o_counters o).*1 /\
  Forall2 (sent_through AddHistogram)
          (for_range (o_histograms o) (histogram_body now)) (o_histograms o).*1 /\
  Forall2 (sent_through AddHistogram)
          (for_range (o_meters o) (meter_body now)) (o_meters o).*1 /\
  Forall2 (sent_through AddFields)
          (for_range (o_timers o) (timer_body now)) (o_timers o).*1.
Proof.
  split; [reflexivity|]. split; [|split; [|split; [|split]]].
  - unfold for_range, numeric_gauges.
    induction (o_gauges o) as [|[name g] l IH]; [constructor|].
    cbn [flat_map]. rewrite filter_cons. cbn [fst snd].
    destruct (gauge_body_cases now name g) as [(Hn & v & ->)|(Hn & _ & ->)].
    + rewrite decide_True by exact Hn. cbn. constructor; [|exact IH].
      split; reflexivity.
    + rewrite decide_False by exact Hn. exact IH.
  - unfold counter_body.
    rewrite (for_range_single _ (fun name c =>
      AccAdd AddCounter name {[ "count" := VInt (c_Count c) ]} None now)).
    apply Forall2_map_entries. intros [name c]. split; reflexivity.
  - unfold histogram_body.
    rewrite (for_range_single _ (fun name h => AccAdd AddHistogram name _ None now)).
    apply Forall2_map_entries. intros [name h]. split; reflexivity.
  - unfold meter_body.
    rewrite (for_range_single _ (fun name x => AccAdd AddHistogram name _ None now)).
    apply Forall2_map_entries. intros [name x]. split; reflexivity.
  - unfold timer_body.
    rewrite (for_range_single _ (fun name x => AccAdd AddFields name _ None now)).
    apply Forall2_map_entries. intros [name x]. split; reflexivity.
Qed.

(* ===================================================================== *)
(** * A collection pass *)
(* ===================================================================== *)

Section TaskFacts.

Variable json_Decode : string -> metrics -> metrics * option error.

Lemma calls_of_events_acc (cs : list acc_call) :
  calls_of_events (map EvAcc cs) = cs.
Proof.
  unfold calls_of_events. induction cs as [|c cs IH]; [reflexivity|].
  cbn. rewrite IH. reflexivity.
Qed.

Lemma calls_of_events_app (es1 es2 : list event) :
  calls_of_events (es1 ++ es2) = calls_of_events es1 ++ calls_of_events es2.
Proof. apply omap_app. Qed.

(** The accumulator calls among the events of a goroutine. *)
Lemma task_events_calls (url : string) (t : Time) (r : response) (o : orders) :
  calls_of_events (task_events json_Decode url t r o) =
  task_calls json_Decode url t r o.
Proof.
  unfold task_events, task_calls, pipeline_error.
  destruct r as [body|err]; [|reflexivity].
  destruct (DecodeJSONMetrics json_Decode body) as [m [err|]]; [reflexivity|].
  cbn [fst snd].
  change (calls_of_events (EvNow t :: EvGet url (inl body) :: EvRange o :: ?x))
    with (calls_of_events x).
  rewrite calls_of_events_app, calls_of_events_acc. apply app_nil_r.
Qed.

(** After the time and the request a goroutine asks for neither again. *)
Lemma task_events_shape (url : string) (t : Time) (r : response) (o : orders) :
  exists rest,
    task_events json_Decode url t r o = EvNow t :: EvGet url r :: rest /\
    Forall (fun e => is_clock_or_get e = false) rest.
Proof.
  unfold task_events. eexists. split; [reflexivity|].
  destruct r as [body|err]; [|repeat constructor].
  destruct (DecodeJSONMetrics json_Decode body) as [m [err|]];
    [repeat constructor|].
  constructor; [reflexivity|].
  apply Forall_app. split; [|repeat constructor].
  induction (normalize o t) as [|c cs IH]; constructor; [reflexivity|exact IH].
Qed.

(** Every record a goroutine makes carries the time it read. *)
Lemma task_calls_times (url : string) (t : Time) (r : response) (o : orders) :
  Forall (fun c => is_record c = true -> call_time c = Some t)
         (task_calls json_Decode url t r o).
Proof.
  unfold task_calls. destruct (pipeline_error json_Decode r).
  - repeat constructor. discriminate.
  - eapply Forall_impl; [apply normalize_times|]. cbn. tauto.
Qed.

Lemma task_calls_error (url : string) (t : Time) (r : response) (o : orders)
    (err : error) :
  pipeline_error json_Decode r = Some err ->
  task_calls json_Decode url t r o = [AccAddError (url_error url err)].
Proof. unfold task_calls. intros ->. reflexivity. Qed.

Lemma task_calls_ok (url : string) (t : Time) (body : string) (m : metrics)
    (o : orders) :
  DecodeJSONMetrics json_Decode body = (m, None) ->
  task_calls json_Decode url t (inl body) o = normalize o t.
Proof. unfold task_calls, pipeline_error. intros ->. reflexivity. Qed.

Lemma task_orders_ok (body : string) (m : metrics) (o : orders) :
  DecodeJSONMetrics json_Decode body = (m, None) ->
  task_orders json_Decode (inl body) o -> orders_of m o.
Proof. unfold task_orders. intros ->. tauto. Qed.

End TaskFacts.

Section LogFacts.

Lemma elem_of_events_of (i : nat) (e : event) (l : log) :
  e ∈ events_of i l <-> (i, e) ∈ l.
Proof.
  unfold events_of. rewrite list_elem_of_omap. split.
  - intros ([j e'] & Hin & Hsome). cbn [fst snd] in Hsome.
    destruct (Nat.eqb_spec j i) as [->|]; [|discriminate].
    injection Hsome as ->. exact Hin.
  - intros Hin. exists (i, e). split; [exact Hin|].
    cbn [fst snd]. rewrite Nat.eqb_refl. reflexivity.
Qed.

(** When all the errors of a log belong to goroutine [j], the errors of the
    pass are those of [j]. *)
Lemma call_errors_one_task (j : nat) (l : log) :
  (forall i err, (i, EvAcc (AccAddError err)) ∈ l -> i = j) ->
  call_errors (all_calls l) = call_errors (calls_of j l).
Proof.
  unfold all_calls, calls_of, events_of, calls_of_events, call_errors.
  induction l as [|[i e] l IH]; intros H; [reflexivity|].
  assert (IH' := IH (fun i' err Hin => H i' err (list_elem_of_further _ _ _ Hin))).
  cbn [map omap fst snd list_omap].
  destruct e as [t|url r|o|  |[meth name f tg t|err]]; cbn [fst snd];
    destruct (Nat.eqb_spec i j) as [->|Hne]; cbn; try exact IH'.
  - f_equal. exact IH'.
  - exfalso. apply Hne, (H i err). left.
Qed.

End LogFacts.

Section GatherFacts.

Context {TLSConfig : Type}.
Variable GetTLSConfig : string -> string -> string -> bool -> TLSConfig + error.
Variable json_Decode : string -> metrics -> metrics * option error.

(** The URLs a pass works on: the default one when none is configured. *)
Lemma Gather_URLs (d : Dropwizard TLSConfig) :
  URLs (pass_d (Gather GetTLSConfig json_Decode d)) =
  match URLs d with [] => [default_URL] | _ => URLs d end.
Proof.
  unfold Gather.
  destruct (URLs d) as [|u us] eqn:Hu.
  - cbn [client set_URLs]. destruct (client d); [reflexivity|].
    destruct (GetTLSConfig _ _ _ _); reflexivity.
  - destruct (client d); [exact Hu|].
    destruct (GetTLSConfig _ _ _ _); exact Hu.
Qed.

(** A pass either fails to build its client and starts nothing, or starts
    one goroutine for each of its URLs and returns no error. *)
Lemma Gather_cases (d : Dropwizard TLSConfig) :
  (exists e,
     client d = None /\
     GetTLSConfig (SSLCert d) (SSLKey d) (SSLCA d) (InsecureSkipVerify d) = inr e /\
     pass_err (Gather GetTLSConfig json_Decode d) = Some e /\
     pass_tasks (Gather GetTLSConfig json_Decode d) = []) \/
  ((client d <> None \/
    exists c, GetTLSConfig (SSLCert d) (SSLKey d) (SSLCA d)
                (InsecureSkipVerify d) = inl c) /\
   pass_err (Gather GetTLSConfig json_Decode d) = None /\
   pass_tasks (Gather GetTLSConfig json_Decode d) =
     map (gather_task json_Decode (pass_d (Gather GetTLSConfig json_Decode d)))
         (URLs (pass_d (Gather GetTLSConfig json_Decode d)))).
Proof.
  unfold Gather.
  destruct (URLs d) as [|u us] eqn:Hu.
  - cbn [client set_URLs SSLCert SSLKey SSLCA InsecureSkipVerify].
    destruct (client d) as [c|] eqn:Hc.
    + right. split; [left; discriminate|]. split; reflexivity.
    + destruct (GetTLSConfig (SSLCert d) (SSLKey d) (SSLCA d)
                  (InsecureSkipVerify d)) as [cfg|e] eqn:Htls.
      * right. split; [right; eexists; reflexivity|]. split; reflexivity.
      * left. exists e. repeat split; reflexivity.
  - destruct (client d) as [c|] eqn:Hc.
    + right. split; [left; discriminate|]. split; reflexivity.
    + destruct (GetTLSConfig (SSLCert d) (SSLKey d) (SSLCA d)
                  (InsecureSkipVerify d)) as [cfg|e] eqn:Htls.
      * right. split; [right; eexists; reflexivity|]. split; reflexivity.
      * left. exists e. repeat split; reflexivity.
Qed.

(** The goroutine of the [i]-th URL of a pass that started, in a complete
    run of the pass: its events are those of [task_events]. *)
Lemma Gather_task_events (d : Dropwizard TLSConfig) (l : log) (i : nat)
    (url : string) :
  pass_err (Gather GetTLSConfig json_Decode d) = None ->
  completes (pass_tasks (Gather GetTLSConfig json_Decode d)) l ->
  URLs (pass_d (Gather GetTLSConfig json_Decode d)) !! i = Some url ->
  exists t r o, events_of i l = task_events json_Decode url t r o /\
                task_orders json_Decode r o.
Proof.
  intros Herr Hc Hi.
  destruct (Gather_cases d) as [(e & _ & _ & He & _)|(_ & _ & Htasks)];
    [congruence|].
  destruct (completes_runs _ _ Hc) as [_ Hruns].
  apply (gather_task_complete json_Decode
           (pass_d (Gather GetTLSConfig json_Decode d)) url).
  apply Hruns. rewrite Htasks.
  change (map ?f ?l) with (f <$> l).
  rewrite list_lookup_fmap, Hi. reflexivity.
Qed.

Lemma task_events_get (url url' : string) (t : Time) (r r' : response)
    (o : orders) :
  EvGet url' r' ∈ task_events json_Decode url t r o -> url' = url /\ r' = r.
Proof.
  destruct (task_events_shape json_Decode url t r o) as (rest & -> & Hrest).
  rewrite !elem_of_cons. intros [Heq|[Heq|Hin]].
  - discriminate.
  - injection Heq as -> ->. split; reflexivity.
  - rewrite Forall_forall in Hrest. specialize (Hrest _ Hin). discriminate.
Qed.

Lemma elem_of_calls_of (i : nat) (c : acc_call) (l : log) :
  c ∈ calls_of i l <-> (i, EvAcc c) ∈ l.
Proof.
  unfold calls_of, calls_of_events. rewrite list_elem_of_omap. split.
  - intros (e & He & Hc). apply elem_of_events_of in He.
    destruct e; try discriminate. injection Hc as ->. exact He.
  - intros Hin. exists (EvAcc c). split; [|reflexivity].
    apply elem_of_events_of, Hin.
Qed.

(** The goroutine of the [i]-th URL, once the response it got is known. *)
Lemma Gather_task_response (d : Dropwizard TLSConfig) (l : log) (i : nat)
    (url : string) (r : response) :
  pass_err (Gather GetTLSConfig json_Decode d) = None ->
  completes (pass_tasks (Gather GetTLSConfig json_Decode d)) l ->
  URLs (pass_d (Gather GetTLSConfig json_Decode d)) !! i = Some url ->
  (i, EvGet url r) ∈ l ->
  exists t o, events_of i l = task_events json_Decode url t r o /\
              task_orders json_Decode r o /\
              (i, EvNow t) ∈ l /\
              calls_of i l = task_calls json_Decode url t r o.
Proof.
  intros Herr Hc Hi Hget.
  destruct (Gather_task_events d l i url Herr Hc Hi) as (t & r0 & o & Hev & Ho).
  apply elem_of_events_of in Hget. rewrite Hev in Hget.
  apply task_events_get in Hget as [_ ->].
  exists t, o. split; [exact Hev|]. split; [exact Ho|]. split.
  - apply elem_of_events_of. rewrite Hev. left.
  - unfold calls_of. rewrite Hev. apply task_events_calls.
Qed.

End GatherFacts.

(** C8. With no URL configured a pass is the pass of the single URL
    [http://localhost:8081/metrics]: the same goroutines, hence the same
    records and errors in the same runs, the same result, and the same
    plugin afterwards, whose list of URLs now holds the default, so that
    the next pass finds it there. *)
Theorem Gather_default_URL {TLSConfig : Type}
    (GetTLSConfig : string -> string -> string -> bool -> TLSConfig + error)
    (json_Decode : string -> metrics -> metrics * option error)
    (d : Dropwizard TLSConfig) :
  URLs d = [] ->
  Gather GetTLSConfig json_Decode d =
  Gather GetTLSConfig json_Decode (set_URLs d [default_URL]) /\
  (forall l,
     completes (pass_tasks (Gather GetTLSConfig json_Decode d)) l <->
     completes (pass_tasks (Gather GetTLSConfig json_Decode
                              (set_URLs d [default_URL]))) l) /\
  URLs (pass_d (Gather GetTLSConfig json_Decode d)) = [default_URL].
Proof.
  intros Hd.
  assert (Heq : Gather GetTLSConfig json_Decode d =
                Gather GetTLSConfig json_Decode (set_URLs d [default_URL])).
  { destruct d as [urls ca cert key skip timeout cl]. cbn in Hd. subst urls.
    reflexivity. }
  split; [exact Heq|]. split.
  - intros l. rewrite Heq. reflexivity.
  - rewrite Gather_URLs, Hd. reflexivity.
Qed.

Lemma Gather_default_URL_witness :
  URLs (set_URLs demo_d []) = [] /\
  Gather demo_GetTLSConfig demo_json_Decode (set_URLs demo_d []) =
  Gather demo_GetTLSConfig demo_json_Decode
         (set_URLs (set_URLs demo_d []) [default_URL]) /\
  URLs (pass_d (Gather demo_GetTLSConfig demo_json_Decode (set_URLs demo_d []))) =
    ["http://localhost:8081/metrics"].
Proof.
  split; [reflexivity|].
  destruct (Gather_default_URL demo_GetTLSConfig demo_json_Decode
              (set_URLs demo_d []) eq_refl) as (H1 & _ & H2).
  split; [exact H1|exact H2].
Defined.

(** C3. A pass returns an error exactly when it has no client yet and
    building one from the TLS configuration fails, and then it starts no
    goroutine, so that nothing is fetched or reported. Otherwise it returns
    no error whatever the URLs do: in every complete run, a URL whose
    request or whose decoding fails has exactly one call on the accumulator,
    [AddError] with the message [[url=<the URL>]: <the error>], the error
    being that of the request or the one the JSON decoder returned on the
    body. Every pass has a complete run. *)
Theorem Gather_pass_error {TLSConfig : Type}
    (GetTLSConfig : string -> string -> string -> bool -> TLSConfig + error)
    (json_Decode : string -> metrics -> metrics * option error)
    (d : Dropwizard TLSConfig) :
  (forall e,
     pass_err (Gather GetTLSConfig json_Decode d) = Some e <->
     client d = None /\
     GetTLSConfig (SSLCert d) (SSLKey d) (SSLCA d) (InsecureSkipVerify d) = inr e) /\
  (pass_err (Gather GetTLSConfig json_Decode d) <> None ->
     pass_tasks (Gather GetTLSConfig json_Decode d) = [] /\
     forall l, completes (pass_tasks (Gather GetTLSConfig json_Decode d)) l ->
               l = []) /\
  (exists l, completes (pass_tasks (Gather GetTLSConfig json_Decode d)) l) /\
  (pass_err (Gather GetTLSConfig json_Decode d) = None ->
     length (pass_tasks (Gather GetTLSConfig json_Decode d)) =
       length (URLs (pass_d (Gather GetTLSConfig json_Decode d))) /\
     forall l i url,
       completes (pass_tasks (Gather GetTLSConfig json_Decode d)) l ->
       URLs (pass_d (Gather GetTLSConfig json_Decode d)) !! i = Some url ->
       (exists t r o,
          (i, EvGet url r) ∈ l /\
          calls_of i l = task_calls json_Decode url t r o /\
          forall err, pipeline_error json_Decode r = Some err ->
                      calls_of i l = [AccAddError (url_error url err)]) /\
       (forall err,
          (i, EvGet url (inr err)) ∈ l ->
          calls_of i l = [AccAddError ("[url=" +:+ url +:+ "]: " +:+ err)]) /\
       (forall body m err,
          (i, EvGet url (inl body)) ∈ l ->
          json_Decode body metrics_zero = (m, Some err) ->
          calls_of i l = [AccAddError ("[url=" +:+ url +:+ "]: " +:+ err)])).
Proof.
  assert (Hrun : exists l,
            completes (pass_tasks (Gather GetTLSConfig json_Decode d)) l).
  { eexists. apply (run_seq_completes (fun _ => 0) (fun _ => inr EmptyString)). }
  destruct (Gather_cases GetTLSConfig json_Decode d)
    as [(e & Hc & Htls & He & Ht)|(Hok & He & Ht)].
  - split; [|split; [|split; [exact Hrun|]]].
    + intros e'. rewrite He. split.
      * intros [= <-]. split; assumption.
      * intros [_ Htls']. congruence.
    + intros _. split; [exact Ht|]. intros l (ps & Hs & _).
      rewrite Ht in Hs. apply steps_inv in Hs as (_ & Hall & _).
      destruct l as [|[i ev] l]; [reflexivity|].
      inversion Hall as [|? ? Hlt _]; subst. cbn in Hlt. lia.
    + rewrite He. discriminate.
  - split; [|split; [|split; [exact Hrun|]]].
    + intros e. rewrite He. split; [discriminate|].
      intros [Hc Htls]. destruct Hok as [Hc'|[c Hc']]; congruence.
    + rewrite He. intros H. contradiction.
    + intros _. split; [rewrite Ht; apply length_map|].
      intros l i url Hcomp Hi. split; [|split].
      * destruct (Gather_task_events GetTLSConfig json_Decode d l i url He Hcomp Hi)
          as (t & r & o & Hev & _).
        exists t, r, o.
        assert (Hcalls : calls_of i l = task_calls json_Decode url t r o)
          by (unfold calls_of; rewrite Hev; apply task_events_calls).
        split; [|split; [exact Hcalls|]].
        -- apply elem_of_events_of. rewrite Hev. unfold task_events.
           right. left.
        -- intros err Herr. rewrite Hcalls. apply task_calls_error, Herr.
      * intros err Hget.
        destruct (Gather_task_response GetTLSConfig json_Decode d l i url _
                    He Hcomp Hi Hget) as (t & o & _ & _ & _ & ->).
        reflexivity.
      * intros body m err Hget Hdec.
        destruct (Gather_task_response GetTLSConfig json_Decode d l i url _
                    He Hcomp Hi Hget) as (t & o & _ & _ & _ & ->).
        unfold task_calls, pipeline_error, DecodeJSONMetrics.
        rewrite Hdec. reflexivity.
Qed.

(** C7. In a complete run of a pass each endpoint's goroutine reads the
    time once, as its first event and before it sends its request, and
    every record it makes carries that time: one reading for each endpoint,
    made by the endpoint's own goroutine. *)
Theorem gather_one_timestamp_per_endpoint {TLSConfig : Type}
    (GetTLSConfig : string -> string -> string -> bool -> TLSConfig + error)
    (json_Decode : string -> metrics -> metrics * option error)
    (d : Dropwizard TLSConfig) (l : log) (i : nat) (url : string) :
  pass_err (Gather GetTLSConfig json_Decode d) = None ->
  completes (pass_tasks (Gather GetTLSConfig json_Decode d)) l ->
  URLs (pass_d (Gather GetTLSConfig json_Decode d)) !! i = Some url ->
  exists t r rest,
    events_of i l = EvNow t :: EvGet url r :: rest /\
    Forall (fun e => is_clock_or_get e = false) rest /\
    Forall (fun c => is_record c = true -> call_time c = Some t) (calls_of i l).
Proof.
  intros Herr Hcomp Hi.
  destruct (Gather_task_events GetTLSConfig json_Decode d l i url Herr Hcomp Hi)
    as (t & r & o & Hev & _).
  destruct (task_events_shape json_Decode url t r o) as (rest & Hshape & Hrest).
  exists t, r, rest. split; [congruence|]. split; [exact Hrest|].
  unfold calls_of. rewrite Hev, task_events_calls. apply task_calls_times.
Qed.

(** C4. In a complete run of a pass in which the body one URL returned
    does not decode: that URL has no record, and its one call on the
    accumulator is [AddError] with the message
    [[url=<the URL>]: <the error of the decoder>]; every other URL whose
    body decodes has the records of its document, all of them, in one of
    the orders the loops may take: one record for each numeric gauge,
    counter, histogram, meter and timer of the document, holding the
    values of that metric; and when the bodies of all the others decode,
    that error is the only one the pass reports. *)
Theorem gather_decode_error_isolated {TLSConfig : Type}
    (GetTLSConfig : string -> string -> string -> bool -> TLSConfig + error)
    (json_Decode : string -> metrics -> metrics * option error)
    (d : Dropwizard TLSConfig) (l : log) (j : nat) (u body : string)
    (m0 : metrics) (e : error) :
  pass_err (Gather GetTLSConfig json_Decode d) = None ->
  completes (pass_tasks (Gather GetTLSConfig json_Decode d)) l ->
  URLs (pass_d (Gather GetTLSConfig json_Decode d)) !! j = Some u ->
  (j, EvGet u (inl body)) ∈ l ->
  json_Decode body metrics_zero = (m0, Some e) ->
  call_records (calls_of j l) = [] /\
  calls_of j l = [AccAddError ("[url=" +:+ u +:+ "]: " +:+ e)] /\
  (forall i ui bi mi, i <> j ->
     URLs (pass_d (Gather GetTLSConfig json_Decode d)) !! i = Some ui ->
     (i, EvGet ui (inl bi)) ∈ l ->
     json_Decode bi metrics_zero = (mi, None) ->
     exists ti o gs cs hs ms ts,
       (i, EvNow ti) ∈ l /\ orders_of mi o /\
       calls_of i l = normalize o ti /\
       calls_of i l = gs ++ cs ++ hs ++ ms ++ ts /\
       records_of AddGauge gauge_values ti gs
         (numeric_gauges (map_to_list (Gauges mi))) /\
       records_of AddCounter counter_values ti cs (map_to_list (Counters mi)) /\
       records_of AddHistogram histogram_values ti hs
         (map_to_list (Histograms mi)) /\
       records_of AddHistogram meter_values ti ms (map_to_list (Meters mi)) /\
       records_of AddFields timer_values ti ts (map_to_list (Timers mi))) /\
  ((forall i ui, i <> j ->
      URLs (pass_d (Gather GetTLSConfig json_Decode d)) !! i = Some ui ->
      exists bi mi, (i, EvGet ui (inl bi)) ∈ l /\
                    json_Decode bi metrics_zero = (mi, None)) ->
   call_errors (all_calls l) = ["[url=" +:+ u +:+ "]: " +:+ e]).
Proof.
  intros Herr Hcomp Hj Hget Hdec.
  assert (Hdec' : DecodeJSONMetrics json_Decode body = (m0, Some e))
    by (unfold DecodeJSONMetrics; rewrite Hdec; reflexivity).
  destruct (Gather_task_response GetTLSConfig json_Decode d l j u _ Herr Hcomp Hj Hget)
    as (t & o & _ & _ & _ & Hcalls).
  rewrite (task_calls_error json_Decode u t (inl body) o e) in Hcalls
    by (unfold pipeline_error; rewrite Hdec'; reflexivity).
  change (url_error u e) with ("[url=" +:+ u +:+ "]: " +:+ e) in Hcalls.
  assert (Hok : forall i ui bi mi, i <> j ->
     URLs (pass_d (Gather GetTLSConfig json_Decode d)) !! i = Some ui ->
     (i, EvGet ui (inl bi)) ∈ l ->
     json_Decode bi metrics_zero = (mi, None) ->
     exists ti o, (i, EvNow ti) ∈ l /\ orders_of mi o /\
                  calls_of i l = normalize o ti).
  { intros i ui bi mi Hne Hi Hgi Hdi.
    assert (Hdi' : DecodeJSONMetrics json_Decode bi = (mi, None))
      by (unfold DecodeJSONMetrics; rewrite Hdi; reflexivity).
    destruct (Gather_task_response GetTLSConfig json_Decode d l i ui _
                Herr Hcomp Hi Hgi) as (ti & oi & _ & Hoi & Hnow & Hci).
    exists ti, oi. split; [exact Hnow|].
    split; [eapply task_orders_ok; eassumption|].
    rewrite Hci. eapply task_calls_ok, Hdi'. }
  split; [rewrite Hcalls; reflexivity|]. split; [exact Hcalls|].
  split.
  { intros i ui bi mi Hne Hi Hgi Hdi.
    destruct (Hok i ui bi mi Hne Hi Hgi Hdi) as (ti & oi & Hnow & Hoi & Hci).
    destruct (normalize_records_of mi oi ti Hoi) as (Vg & Vc & Vh & Vm & Vt).
    exists ti, oi, (for_range (o_gauges oi) (gauge_body ti)),
           (for_range (o_counters oi) (counter_body ti)),
           (for_range (o_histograms oi) (histogram_body ti)),
           (for_range (o_meters oi) (meter_body ti)),
           (for_range (o_timers oi) (timer_body ti)).
    split; [exact Hnow|]. split; [exact Hoi|]. split; [exact Hci|].
    split; [exact Hci|].
    split; [exact Vg|]. split; [exact Vc|]. split; [exact Vh|].
    split; [exact Vm|exact Vt]. }
  intros Hothers.
  rewrite (call_errors_one_task j); [rewrite Hcalls; reflexivity|].
  intros i err Hin.
  destruct (Nat.eq_dec i j) as [|Hne]; [assumption|exfalso].
  destruct (completes_runs _ _ Hcomp) as [Hall _].
  rewrite Forall_forall in Hall. specialize (Hall _ Hin). cbn [fst] in Hall.
  destruct (Gather_cases GetTLSConfig json_Decode d)
    as [(e' & _ & _ & He' & _)|(_ & _ & Htasks)]; [congruence|].
  rewrite Htasks, length_map in Hall.
  destruct (lookup_lt_is_Some_2 _ _ Hall) as [ui Hi].
  destruct (Hothers i ui Hne Hi) as (bi & mi & Hgi & Hdi).
  destruct (Hok i ui bi mi Hne Hi Hgi Hdi) as (ti & oi & _ & _ & Hci).
  apply elem_of_calls_of in Hin. rewrite Hci in Hin.
  pose proof (normalize_times oi ti) as Hrec.
  rewrite Forall_forall in Hrec. destruct (Hrec _ Hin) as [Hr _]. discriminate.
Qed.

Lemma gather_one_timestamp_per_endpoint_witness :
  pass_err (Gather demo_GetTLSConfig demo_json_Decode demo_d) = None /\
  completes (pass_tasks (Gather demo_GetTLSConfig demo_json_Decode demo_d)) demo_log /\
  URLs (pass_d (Gather demo_GetTLSConfig demo_json_Decode demo_d)) !! 2%nat =
    Some "http://c/metrics" /\
  exists t r rest,
    events_of 2 demo_log = EvNow t :: EvGet "http://c/metrics" r :: rest /\
    Forall (fun e => is_clock_or_get e = false) rest /\
    Forall (fun c => is_record c = true -> call_time c = Some t)
           (calls_of 2 demo_log).
Proof.
  split; [reflexivity|]. split; [apply run_seq_completes|].
  split; [reflexivity|].
  apply (gather_one_timestamp_per_endpoint demo_GetTLSConfig demo_json_Decode
           demo_d demo_log 2 "http://c/metrics");
    [reflexivity|apply run_seq_completes|reflexivity].
Defined.

Lemma demo_log_get (i : nat) (url : string) :
  URLs demo_d !! i = Some url -> (i, EvGet url (demo_http url)) ∈ demo_log.
Proof.
  intros H. apply elem_of_events_of.
  destruct i as [|[|[|i]]]; cbn in H; try discriminate;
    injection H as <-; vm_compute; right; left.
Qed.

Lemma demo_log_get_a :
  (0%nat, EvGet "http://a/metrics" (inl "doc")) ∈ demo_log.
Proof. apply (demo_log_get 0 "http://a/metrics"). reflexivity. Qed.

Lemma demo_log_get_b :
  (1%nat, EvGet "http://b/metrics" (inl "<html>")) ∈ demo_log.
Proof. apply (demo_log_get 1 "http://b/metrics"). reflexivity. Qed.

Lemma demo_log_down_get :
  (1%nat, EvGet "http://down/metrics" (inr "connection refused")) ∈ demo_log_down.
Proof. apply elem_of_events_of. vm_compute. right. left. Qed.

Lemma demo_log_others (i : nat) (ui : string) :
  i <> 1%nat -> URLs demo_d !! i = Some ui ->
  exists bi mi, (i, EvGet ui (inl bi)) ∈ demo_log /\
                demo_json_Decode bi metrics_zero = (mi, None).
Proof.
  intros Hne Hi. exists "doc", demo_doc. split; [|reflexivity].
  destruct i as [|[|[|i]]]; cbn in Hi; [| |  |discriminate].
  - injection Hi as <-. apply (demo_log_get 0 "http://a/metrics"). reflexivity.
  - exfalso. apply Hne. reflexivity.
  - injection Hi as <-. apply (demo_log_get 2 "http://c/metrics"). reflexivity.
Qed.

(** The pass of [demo_d]: the body of the second URL does not decode. That
    URL has the one error, with its URL in the message, and no record; the
    first and the third URL have the two records of their document, spelled
    out, each stamped with the time its own goroutine read; the error is
    the only one of the pass. *)
Lemma gather_decode_error_isolated_witness :
  (1%nat, EvGet "http://b/metrics" (inl "<html>")) ∈ demo_log /\
  demo_json_Decode "<html>" metrics_zero =
    (metrics_zero,
     Some "invalid character '<' looking for beginning of value") /\
  calls_of 1 demo_log =
    [AccAddError
       "[url=http://b/metrics]: invalid character '<' looking for beginning of value"] /\
  call_records (calls_of 1 demo_log) = [] /\
  calls_of 0 demo_log =
    [AccAdd AddGauge "jvm.memory.total.used"
       (list_to_map [("value", VInt 93176816)]) None 1000;
     AccAdd AddCounter "requests.total"
       (list_to_map [("count", VInt 42)]) None 1000] /\
  calls_of 2 demo_log =
    [AccAdd AddGauge "jvm.memory.total.used"
       (list_to_map [("value", VInt 93176816)]) None 1002;
     AccAdd AddCounter "requests.total"
       (list_to_map [("count", VInt 42)]) None 1002] /\
  (exists ti o gs cs hs ms ts,
     (0%nat, EvNow ti) ∈ demo_log /\ orders_of demo_doc o /\
     calls_of 0 demo_log = gs ++ cs ++ hs ++ ms ++ ts /\
     records_of AddGauge gauge_values ti gs
       (numeric_gauges (map_to_list (Gauges demo_doc))) /\
     records_of AddCounter counter_values ti cs
       (map_to_list (Counters demo_doc))) /\
  call_errors (all_calls demo_log) =
    ["[url=http://b/metrics]: invalid character '<' looking for beginning of value"].
Proof.
  assert (Hget : (1%nat, EvGet "http://b/metrics" (inl "<html>")) ∈ demo_log)
    by exact demo_log_get_b.
  assert (Herr : pass_err (Gather demo_GetTLSConfig demo_json_Decode demo_d) = None)
    by reflexivity.
  assert (Hcomp : completes
            (pass_tasks (Gather demo_GetTLSConfig demo_json_Decode demo_d)) demo_log)
    by apply run_seq_completes.
  assert (Hurl : URLs (pass_d (Gather demo_GetTLSConfig demo_json_Decode demo_d))
                   !! 1%nat = Some "http://b/metrics") by reflexivity.
  assert (Hdec : demo_json_Decode "<html>" metrics_zero =
            (metrics_zero,
             Some "invalid character '<' looking for beginning of value"))
    by reflexivity.
  split; [exact Hget|]. split; [exact Hdec|].
  destruct (gather_decode_error_isolated demo_GetTLSConfig demo_json_Decode
              demo_d demo_log 1 "http://b/metrics" "<html>" metrics_zero
              "invalid character '<' looking for beginning of value"
              Herr Hcomp Hurl Hget Hdec) as (Hrec & Hcalls & Hoth & Hone).
  split; [exact Hcalls|]. split; [exact Hrec|].
  split; [vm_compute; reflexivity|]. split; [vm_compute; reflexivity|].
  split.
  { assert (Hurl0 : URLs (pass_d (Gather demo_GetTLSConfig demo_json_Decode demo_d))
                      !! 0%nat = Some "http://a/metrics") by reflexivity.
    assert (Hne : 0%nat <> 1%nat) by discriminate.
    assert (Hd0 : demo_json_Decode "doc" metrics_zero = (demo_doc, None))
      by reflexivity.
    destruct (Hoth 0%nat "http://a/metrics" "doc" demo_doc Hne Hurl0
                demo_log_get_a Hd0)
      as (ti & o & gs & cs & hs & ms & ts & H1 & H2 & _ & H3 & H4 & H5 & _).
    exists ti, o, gs, cs, hs, ms, ts.
    split; [exact H1|]. split; [exact H2|]. split; [exact H3|].
    split; [exact H4|exact H5]. }
  apply Hone. exact demo_log_others.
Defined.

(** Three passes: one whose TLS configuration cannot be built, which
    returns that error and starts nothing; the pass of [demo_d], which
    returns no error although the body of its second URL does not decode;
    and the pass of [demo_d_down], which returns no error although its
    second URL refuses the connection. Each failure is reported with its
    URL. *)
Lemma Gather_pass_error_witness :
  pass_err (Gather failing_GetTLSConfig demo_json_Decode demo_d) =
    Some "open /etc/telegraf/ca.pem: no such file or directory" /\
  pass_tasks (Gather failing_GetTLSConfig demo_json_Decode demo_d) = [] /\
  pass_err (Gather demo_GetTLSConfig demo_json_Decode demo_d) = None /\
  calls_of 1 demo_log =
    [AccAddError
       "[url=http://b/metrics]: invalid character '<' looking for beginning of value"] /\
  pass_err (Gather demo_GetTLSConfig demo_json_Decode demo_d_down) = None /\
  calls_of 1 demo_log_down =
    [AccAddError "[url=http://down/metrics]: connection refused"].
Proof.
  destruct (Gather_pass_error failing_GetTLSConfig demo_json_Decode demo_d)
    as (F1 & F2 & _ & _).
  assert (Hfail : pass_err (Gather failing_GetTLSConfig demo_json_Decode demo_d) =
                  Some "open /etc/telegraf/ca.pem: no such file or directory")
    by (apply F1; split; reflexivity).
  split; [exact Hfail|].
  split; [apply F2; rewrite Hfail; discriminate|].
  assert (Herr : pass_err (Gather demo_GetTLSConfig demo_json_Decode demo_d) = None)
    by reflexivity.
  split; [exact Herr|].
  destruct (Gather_pass_error demo_GetTLSConfig demo_json_Decode demo_d)
    as (_ & _ & _ & G4).
  destruct (G4 Herr) as [_ Gurl].
  assert (Hcomp : completes
            (pass_tasks (Gather demo_GetTLSConfig demo_json_Decode demo_d)) demo_log)
    by apply run_seq_completes.
  assert (Hurl : URLs (pass_d (Gather demo_GetTLSConfig demo_json_Decode demo_d))
                   !! 1%nat = Some "http://b/metrics") by reflexivity.
  destruct (Gurl demo_log 1%nat "http://b/metrics" Hcomp Hurl) as (_ & _ & Gdec).
  split.
  { apply (Gdec "<html>" metrics_zero
             "invalid character '<' looking for beginning of value");
      [exact demo_log_get_b|reflexivity]. }
  assert (Herr' : pass_err (Gather demo_GetTLSConfig demo_json_Decode demo_d_down) =
                  None) by reflexivity.
  split; [exact Herr'|].
  destruct (Gather_pass_error demo_GetTLSConfig demo_json_Decode demo_d_down)
    as (_ & _ & _ & D4).
  destruct (D4 Herr') as [_ Durl].
  assert (Hcomp' : completes
            (pass_tasks (Gather demo_GetTLSConfig demo_json_Decode demo_d_down))
            demo_log_down) by apply run_seq_completes.
  assert (Hurl' : URLs (pass_d (Gather demo_GetTLSConfig demo_json_Decode demo_d_down))
                    !! 1%nat = Some "http://down/metrics") by reflexivity.
  destruct (Durl demo_log_down 1%nat "http://down/metrics" Hcomp' Hurl')
    as (_ & Dreq & _).
  apply (Dreq "connection refused"). exact demo_log_down_get.
Defined.

(* ===================================================================== *)
(** * Further properties of the gauge decoder *)
(* ===================================================================== *)
Section DecoderFacts.

(** A token that begins with none of a sign, a point and a digit is no
    integer literal. *)
Lemma int_literal_head (b : string) :
  starts_numeric b = false -> int_literal b = None.
Proof.
  destruct b as [|c rest]; [reflexivity|].
  unfold starts_numeric, numeric_head, int_literal, unsigned_literal.
  intros H. apply orb_false_iff in H as [H Hd].
  apply orb_false_iff in H as [H Hdot].
  apply orb_false_iff in H as [Hplus Hminus].
  rewrite Hplus, Hminus. cbn [digits_value]. rewrite Hd. reflexivity.
Qed.

(** Nor does [readFloat] read it. *)
Lemma readFloat_head (b : string) :
  starts_numeric b = false -> readFloat b = None.
Proof.
  destruct b as [|c rest]; [reflexivity|].
  unfold starts_numeric, numeric_head, readFloat.
  intros H. apply orb_false_iff in H as [H Hd].
  apply orb_false_iff in H as [H Hdot].
  apply orb_false_iff in H as [Hplus Hminus].
  rewrite Hplus, Hminus. cbn [readDigits]. rewrite Hdot, Hd. reflexivity.
Qed.

Lemma ParseFloat_head (b : string) :
  starts_numeric b = false -> special b = None ->
  snd (ParseFloat b 64) <> None.
Proof.
  intros Hh Hs. unfold ParseFloat. change (64 =? 32) with false. cbv iota.
  unfold atof64, atof. rewrite Hs, (readFloat_head _ Hh). discriminate.
Qed.

Lemma special_quoted (t : string) : special (quoted t) = None.
Proof. reflexivity. Qed.

(** The digits [readDigits] gathers make a number that is not negative. *)
Lemma readDigits_nonneg (s : string) : forall sawdot sawdigits mant frac m f sd rest,
  0 <= mant ->
  readDigits s sawdot sawdigits mant frac = Some (m, f, sd, rest) -> 0 <= m.
Proof.
  induction s as [|c s IH]; intros sawdot sawdigits mant frac m f sd rest Hm;
    cbn [readDigits].
  - intros [= <- _ _ _]. exact Hm.
  - destruct (Ascii.eqb c ".").
    + destruct sawdot; [discriminate|]. apply IH, Hm.
    + destruct (is_dec_digit c) eqn:Hc.
      * apply IH. unfold is_dec_digit in Hc.
        apply andb_true_iff in Hc as [Hc _]. apply Z.leb_le in Hc. lia.
      * intros [= <- _ _ _]. exact Hm.
Qed.

Lemma readFloat_nonneg (s : string) (neg : bool) (m e : Z) :
  readFloat s = Some (neg, m, e) -> 0 <= m.
Proof.
  unfold readFloat. destruct s as [|c rest]; [discriminate|].
  set (p := if Ascii.eqb c "+" then (false, rest)
            else if Ascii.eqb c "-" then (true, rest)
            else (false, String c rest)).
  destruct p as [neg0 s1].
  destruct (readDigits s1 false false 0 0) as [[[[mant frac] sd] s2]|] eqn:Hrd;
    [|discriminate].
  apply readDigits_nonneg in Hrd; [|lia].
  destruct (negb sd); [discriminate|].
  destruct s2 as [|c2 s3]; [intros [= _ <- _]; exact Hrd|].
  destruct (Ascii.eqb c2 "e" || Ascii.eqb c2 "E"); [|discriminate].
  destruct s3 as [|c3 s4]; [discriminate|].
  destruct (if Ascii.eqb c3 "+" then (1, s4)
            else if Ascii.eqb c3 "-" then (-1, s4) else (1, String c3 s4))
    as [esign s5].
  destruct (starts_with_digit s5); [|discriminate].
  destruct (readExp s5 0) as [e0 [|]]; [|discriminate].
  intros [= _ <- _]. exact Hrd.
Qed.

Lemma shr_1_m_nonneg (mrs : shr_record) :
  0 <= shr_m mrs -> 0 <= shr_m (shr_1 mrs).
Proof.
  destruct mrs as [m r s]. cbn [shr_m]. intros Hm.
  rewrite shr_1_nonneg by exact Hm. cbn [shr_m]. apply Z.div_pos; lia.
Qed.

Lemma shr_m_nonneg (mrs : shr_record) (e n : Z) :
  0 <= shr_m mrs -> 0 <= shr_m (fst (shr mrs e n)).
Proof.
  intros Hm. unfold shr. destruct n as [|p|p]; cbn [fst]; try exact Hm.
  rewrite iter_pos_nat.
  induction (Pos.to_nat p) as [|k IH]; [exact Hm|].
  cbn [Nat.iter]. apply shr_1_m_nonneg, IH.
Qed.

Lemma shr_fexp_m_nonneg (prec emax m e : Z) (l : location) :
  0 <= m -> 0 <= shr_m (fst (shr_fexp prec emax m e l)).
Proof.
  intros Hm. unfold shr_fexp. apply shr_m_nonneg.
  destruct l as [|[]]; exact Hm.
Qed.

(** Rounding a mantissa that is not negative never gives NaN. *)
Lemma binary_round_aux_not_nan (prec emax : Z) (sx : bool) (mx ex : Z)
    (lx : location) :
  0 <= mx -> binary_round_aux prec emax sx mx ex lx <> S754_nan.
Proof.
  intros Hm. unfold binary_round_aux.
  pose proof (shr_fexp_m_nonneg prec emax mx ex lx Hm) as H1.
  destruct (shr_fexp prec emax mx ex lx) as [mrs' e'].
  cbn [fst] in H1.
  assert (H2 : 0 <= round_nearest_even (shr_m mrs') (loc_of_shr_record mrs')).
  { unfold round_nearest_even.
    destruct (loc_of_shr_record mrs') as [|[]]; try lia.
    destruct (Z.even (shr_m mrs')); lia. }
  pose proof (shr_fexp_m_nonneg prec emax _ e' loc_Exact H2) as H3.
  destruct (shr_fexp prec emax _ e' loc_Exact) as [mrs'' e''].
  cbn [fst] in H3.
  destruct (shr_m mrs'') as [|p|p]; [discriminate| |lia].
  destruct (e'' <=? emax - prec); discriminate.
Qed.

Lemma floatBits_not_nan (prec emax : Z) (neg : bool) (m e : Z) :
  0 <= m -> floatBits prec emax neg m e <> S754_nan.
Proof.
  intros Hm. unfold floatBits.
  destruct (m =? 0); [discriminate|].
  destruct (Z.leb_spec 0 e) as [He|He].
  - unfold binary_normalize, binary_round.
    destruct ((if neg then - m else m) * 10 ^ e) as [|p|p]; [discriminate| |].
    + destruct (shl_align p 0 _) as [mz ez].
      apply binary_round_aux_not_nan. lia.
    + destruct (shl_align p 0 _) as [mz ez].
      apply binary_round_aux_not_nan. lia.
  - unfold SFdiv_core_binary.
    set (e' := Z.min _ _). set (s := 0 - 0 - e').
    set (m' := match s with Z0 => m | Zpos _ => Z.shiftl m s | Zneg _ => 0 end).
    assert (Hm' : 0 <= m').
    { subst m'. destruct s; [exact Hm| |lia]. apply Z.shiftl_nonneg, Hm. }
    assert (Hq : 0 <= fst (Z.div_eucl m' (10 ^ (- e)))).
    { change (fst (Z.div_eucl m' (10 ^ (- e)))) with (m' / 10 ^ (- e)).
      apply Z.div_pos; [exact Hm'|]. apply Z.pow_pos_nonneg; lia. }
    destruct (Z.div_eucl m' (10 ^ (- e))) as [q r]. cbn [fst] in Hq.
    apply binary_round_aux_not_nan, Hq.
Qed.

End DecoderFacts.

(** ** Numbers below the overflow threshold round to finite numbers *)

Section FiniteFacts.

Lemma Zdigits2_nonneg (x : Z) : 0 <= Zdigits2 x.
Proof. destruct x; cbn; lia. Qed.

(** A number below [2^k] has at most [k] binary digits. *)
Lemma Zdigits2_le (x k : Z) : 0 <= k -> 0 <= x < 2 ^ k -> Zdigits2 x <= k.
Proof.
  intros Hk [Hx Hlt]. destruct x as [|p|p]; [exact Hk| |lia].
  cbn [Zdigits2]. pose proof (digits2_bounds p) as [Hlo _].
  destruct (Z.le_gt_cases (Zpos (digits2_pos p)) k) as [|Hgt]; [assumption|].
  assert (2 ^ k <= 2 ^ (Zpos (digits2_pos p) - 1))
    by (apply Z.pow_le_mono_r; lia).
  lia.
Qed.

Lemma Zdigits2_lt (x : Z) : 0 <= x -> x < 2 ^ Zdigits2 x.
Proof.
  intros Hx. destruct x as [|p|p]; [reflexivity| |lia].
  apply digits2_bounds.
Qed.

Lemma Zdigits2_succ (x : Z) : 0 <= x -> Zdigits2 (x + 1) <= Zdigits2 x + 1.
Proof.
  intros Hx. pose proof (Zdigits2_lt x Hx) as Hlt.
  pose proof (Zdigits2_nonneg x) as Hd.
  apply Zdigits2_le; [lia|]. split; [lia|].
  rewrite Z.pow_add_r, Z.pow_1_r by lia. lia.
Qed.

(** The digits of a quotient by a power of two. *)
Lemma Zdigits2_div_pow2 (x n : Z) :
  0 <= x -> 0 <= n -> Zdigits2 (x / 2 ^ n) <= Z.max 0 (Zdigits2 x - n).
Proof.
  intros Hx Hn. pose proof (Zdigits2_lt x Hx) as Hlt.
  pose proof (Zdigits2_nonneg x) as Hd.
  assert (Hp : 0 < 2 ^ n) by (apply Z.pow_pos_nonneg; lia).
  destruct (Z.le_gt_cases n (Zdigits2 x)) as [Hle|Hgt].
  - rewrite Z.max_r by lia. apply Zdigits2_le; [lia|]. split.
    + apply Z.div_pos; lia.
    + apply Z.div_lt_upper_bound; [lia|].
      rewrite <- Z.pow_add_r by lia.
      replace (n + (Zdigits2 x - n)) with (Zdigits2 x) by lia. exact Hlt.
  - rewrite Z.max_l by lia.
    assert (2 ^ Zdigits2 x <= 2 ^ n) by (apply Z.pow_le_mono_r; lia).
    rewrite Z.div_small by lia. reflexivity.
Qed.

Lemma shr_m_iter (k : nat) (mrs : shr_record) :
  0 <= shr_m mrs ->
  shr_m (Nat.iter k shr_1 mrs) = shr_m mrs / 2 ^ Z.of_nat k.
Proof.
  intros Hm. induction k as [|k IH].
  - change (Nat.iter 0 shr_1 mrs) with mrs.
    change (2 ^ Z.of_nat 0) with 1. rewrite Z.div_1_r. reflexivity.
  - change (Nat.iter (S k) shr_1 mrs) with (shr_1 (Nat.iter k shr_1 mrs)).
    assert (Hk : 0 <= shr_m (Nat.iter k shr_1 mrs)).
    { rewrite IH. apply Z.div_pos; [exact Hm|]. apply Z.pow_pos_nonneg; lia. }
    destruct (Nat.iter k shr_1 mrs) as [m r s] eqn:Hit. cbn [shr_m] in *.
    rewrite shr_1_nonneg by exact Hk. cbn [shr_m]. rewrite IH.
    rewrite Z.div_div by (try apply Z.pow_pos_nonneg; lia).
    replace (Z.of_nat (S k)) with (Z.of_nat k + 1) by lia.
    rewrite Z.pow_add_r, Z.pow_1_r by lia. reflexivity.
Qed.

(** One shift of [binary_round_aux]: the exponent it leaves, and a bound
    on the size of what it leaves. *)
Lemma shr_fexp64_bound (mx ex : Z) (lx : location) :
  0 <= mx ->
  exists mrs' e',
    shr_fexp prec64 emax64 mx ex lx = (mrs', e') /\
    0 <= shr_m mrs' /\
    e' = Z.max ex (Z.max (Zdigits2 mx + ex - 53) (-1074)) /\
    Zdigits2 (shr_m mrs') + e' <= Z.max (Zdigits2 mx + ex) e'.
Proof.
  intros Hm. unfold shr_fexp. rewrite fexp64.
  set (D := Zdigits2 mx). pose proof (Zdigits2_nonneg mx) as HD. fold D in HD.
  set (F := Z.max (D + ex - 53) (-1074)).
  assert (Hrec : shr_m (shr_record_of_loc mx lx) = mx)
    by (destruct lx as [|[]]; reflexivity).
  unfold shr. destruct (F - ex) as [|p|p] eqn:Hn.
  - eexists _, _. split; [reflexivity|]. rewrite Hrec.
    split; [exact Hm|]. split; [lia|]. fold D. lia.
  - eexists _, _. split; [reflexivity|].
    rewrite iter_pos_nat, shr_m_iter by (rewrite Hrec; exact Hm).
    rewrite Hrec, positive_nat_Z.
    assert (Hp : 0 < 2 ^ Zpos p) by (apply Z.pow_pos_nonneg; lia).
    split; [apply Z.div_pos; lia|]. split; [lia|].
    pose proof (Zdigits2_div_pow2 mx (Zpos p) Hm ltac:(lia)) as Hd.
    fold D in Hd. lia.
  - eexists _, _. split; [reflexivity|]. rewrite Hrec.
    split; [exact Hm|]. split; [lia|]. fold D. lia.
Qed.

(** Rounding what is below [2^1023] gives a finite number. *)
Lemma binary_round_aux_finite (sx : bool) (mx ex : Z) (lx : location) :
  0 <= mx -> Zdigits2 mx + ex <= 1023 -> ex <= 971 ->
  is_finite (binary_round_aux prec64 emax64 sx mx ex lx) = true.
Proof.
  intros Hm Hd He. unfold binary_round_aux.
  destruct (shr_fexp64_bound mx ex lx Hm) as (mrs' & e' & -> & Hm' & He' & Hd').
  set (m1 := round_nearest_even (shr_m mrs') (loc_of_shr_record mrs')).
  assert (Hm1 : 0 <= m1 /\ Zdigits2 m1 <= Zdigits2 (shr_m mrs') + 1).
  { subst m1. unfold round_nearest_even.
    pose proof (Zdigits2_succ (shr_m mrs') Hm') as Hs.
    destruct (loc_of_shr_record mrs') as [|[]]; try (split; lia).
    destruct (Z.even (shr_m mrs')); split; lia. }
  destruct Hm1 as [Hm1 Hd1].
  destruct (shr_fexp64_bound m1 e' loc_Exact Hm1)
    as (mrs'' & e'' & -> & Hm'' & He'' & _).
  destruct (shr_m mrs'') as [|p|p]; [reflexivity| |lia].
  change (emax64 - prec64) with 971.
  destruct (Z.leb_spec e'' 971); [reflexivity|lia].
Qed.

Lemma digits_iter_xO (p d : positive) :
  Zpos (digits2_pos (Pos.iter xO p d)) = Zpos (digits2_pos p) + Zpos d.
Proof.
  induction d as [|d IH] using Pos.peano_ind.
  - cbn. lia.
  - rewrite Pos.iter_succ. cbn [digits2_pos]. lia.
Qed.

(** Below [float64_overflow] an integer rounds to a finite number. *)
Lemma binary_round_finite (sx : bool) (p : positive) :
  Zpos p < float64_overflow ->
  is_finite (binary_round prec64 emax64 sx p 0) = true.
Proof.
  intros Hp. pose proof (digits2_bounds p) as [Hlo Hhi].
  set (D := Zpos (digits2_pos p)) in *.
  assert (HD : D <= 1024).
  { destruct (Z.le_gt_cases D 1024) as [|Hgt]; [assumption|].
    assert (2 ^ 1024 <= 2 ^ (D - 1)) by (apply Z.pow_le_mono_r; lia).
    assert (float64_overflow < 2 ^ 1024) by reflexivity. lia. }
  destruct (Z.eq_dec D 1024) as [H1024|Hne].
  - assert (Hd' : Zpos (digits2_pos p) = 971 + 53) by (fold D; lia).
    destruct (binary_round_big sx p 971 ltac:(lia) Hd')
      as (M & E & -> & HM & Hval & Hcase).
    destruct (big_pieces p 971 ltac:(lia) Hd') as (HV & Hrem & Hpow & Hhalf & Hq).
    set (q := Zpos p / 2 ^ 971) in *. set (rem := Zpos p mod 2 ^ 971) in *.
    set (half := 2 ^ (971 - 1)) in *.
    pose proof (round_mant_error q rem half Hrem) as Herr.
    assert (HT : float64_overflow = (2 ^ 53 - 1) * (2 * half) + half)
      by reflexivity.
    assert (HE : E <= 971).
    { destruct Hcase as [[_ ->]|[Hq53 _]]; [lia|exfalso].
      change (2 ^ 53) with 9007199254740992 in *.
      destruct Herr as [[Hq' _]|[Hq' Hr]]; [lia|].
      assert (q = 9007199254740991) as Hqv by lia.
      rewrite Hpow, Hqv in HV. lia. }
    destruct (Z.leb_spec E 971); [reflexivity|lia].
  - unfold binary_round. rewrite fexp64. fold D.
    replace (D + 0) with D by lia.
    unfold shl_align.
    destruct (Z.max (D - 53) (-1074) - 0) as [|d|d] eqn:Hsh.
    + apply binary_round_aux_finite; cbn [Zdigits2]; fold D; lia.
    + apply binary_round_aux_finite; cbn [Zdigits2]; fold D; lia.
    + apply binary_round_aux_finite; [lia| |lia].
      cbn [Zdigits2]. rewrite digits_iter_xO. fold D. lia.
Qed.

Lemma pow10_ge8 (k : Z) : 1 <= k -> 8 <= 10 ^ k.
Proof.
  intros Hk. replace k with (1 + (k - 1)) by lia.
  rewrite Z.pow_add_r by lia.
  assert (0 < 10 ^ (k - 1)) by (apply Z.pow_pos_nonneg; lia). lia.
Qed.

(** [floatBits] on a number below [float64_overflow] in magnitude (below
    it before the division, when the exponent is negative): a finite
    number. *)
Lemma floatBits_finite (neg : bool) (m e : Z) :
  0 <= m -> m * 10 ^ Z.max e 0 < float64_overflow ->
  is_finite (floatBits prec64 emax64 neg m e) = true.
Proof.
  intros Hm Hlt. unfold floatBits.
  destruct (Z.eqb_spec m 0) as [|Hm0]; [reflexivity|].
  destruct (Z.leb_spec 0 e) as [He|He].
  - rewrite Z.max_l in Hlt by lia.
    assert (Hpos : 0 < m * 10 ^ e)
      by (apply Z.mul_pos_pos; [lia|apply Z.pow_pos_nonneg; lia]).
    unfold binary_normalize. destruct neg.
    + destruct (- m * 10 ^ e) as [|p|p] eqn:Hp; try lia.
      apply binary_round_finite. lia.
    + destruct (m * 10 ^ e) as [|p|p] eqn:Hp; try lia.
      apply binary_round_finite. lia.
  - rewrite Z.max_r, Z.pow_0_r, Z.mul_1_r in Hlt by lia.
    assert (H1024 : m < 2 ^ 1024)
      by (assert (float64_overflow < 2 ^ 1024) by reflexivity; lia).
    unfold SFdiv_core_binary.
    set (d1 := Zdigits2 m). set (d2 := Zdigits2 (10 ^ (- e))).
    assert (Hd1 : 0 <= d1 <= 1024).
    { split; [apply Zdigits2_nonneg|]. apply Zdigits2_le; lia. }
    set (e' := Z.min (fexp prec64 emax64 (d1 + 0 - (d2 + 0))) (0 - 0)).
    assert (He' : e' <= 0) by (subst e'; lia).
    set (s := 0 - 0 - e').
    set (m' := match s with Z0 => m | Zpos _ => Z.shiftl m s | Zneg _ => 0 end).
    assert (Hm' : 0 <= m' < 2 ^ (d1 + s)).
    { pose proof (Zdigits2_lt m Hm) as Hb. fold d1 in Hb.
      subst m'. destruct s as [|ps|ps] eqn:Hs; [| |lia].
      - rewrite Z.add_0_r. lia.
      - rewrite Z.shiftl_mul_pow2 by lia.
        assert (0 < 2 ^ Zpos ps) by (apply Z.pow_pos_nonneg; lia).
        rewrite Z.pow_add_r by lia. split; [lia|].
        apply Z.mul_lt_mono_pos_r; lia. }
    pose proof (pow10_ge8 (- e) ltac:(lia)) as H10.
    assert (Hq : 0 <= m' / 10 ^ (- e) /\
                 Zdigits2 (m' / 10 ^ (- e)) + e' <= 1023).
    { assert (Hq0 : 0 <= m' / 10 ^ (- e)) by (apply Z.div_pos; lia).
      split; [exact Hq0|].
      assert (Hq8 : m' / 10 ^ (- e) <= m' / 2 ^ 3).
      { apply Z.div_le_compat_l; [lia|]. change (2 ^ 3) with 8. lia. }
      assert (Hs : s = - e') by (subst s; lia).
      destruct (Z.le_gt_cases 3 (d1 + s)) as [H3|H3].
      - assert (Zdigits2 (m' / 10 ^ (- e)) <= d1 + s - 3); [|lia].
        apply Zdigits2_le; [lia|]. split; [exact Hq0|].
        apply Z.le_lt_trans with (m' / 2 ^ 3); [exact Hq8|].
        apply Z.div_lt_upper_bound; [reflexivity|].
        rewrite <- Z.pow_add_r by lia.
        replace (3 + (d1 + s - 3)) with (d1 + s) by lia. lia.
      - assert (2 ^ (d1 + s) <= 2 ^ 3) by (apply Z.pow_le_mono_r; lia).
        assert (m' / 2 ^ 3 = 0) by (apply Z.div_small; lia).
        replace (m' / 10 ^ (- e)) with 0 by lia. cbn [Zdigits2]. lia. }
    assert (Hfst : fst (Z.div_eucl m' (10 ^ (- e))) = m' / 10 ^ (- e))
      by (unfold Z.div; destruct (Z.div_eucl m' (10 ^ (- e))); reflexivity).
    destruct (Z.div_eucl m' (10 ^ (- e))) as [q r]. cbn [fst] in Hfst.
    subst q. apply binary_round_aux_finite; lia.
Qed.

End FiniteFacts.

(** ** What [readFloat] reads *)

Section DecimalFacts.

Lemma lower_i_head (c : ascii) :
  Ascii.eqb (lower c) (lower "i") = true ->
  Ascii.eqb c "." = false /\ is_dec_digit c = false.
Proof.
  destruct c as [[] [] [] [] [] [] [] []]; intros H;
    try discriminate H; split; reflexivity.
Qed.

Lemma equalIgnoreCase_second (c c2 d d2 : ascii) (r t : string) :
  equalIgnoreCase (String c (String c2 r)) (String d (String d2 t)) = true ->
  Ascii.eqb (lower c2) (lower d2) = true.
Proof.
  cbn [equalIgnoreCase]. intros H.
  apply andb_true_iff in H as [_ H]. apply andb_true_iff in H as [H _].
  exact H.
Qed.

(** After a sign, [readFloat] wants a digit or a point. *)
Lemma readFloat_sign_head (c c2 : ascii) (r2 : string) :
  Ascii.eqb c "+" = true \/ Ascii.eqb c "-" = true ->
  Ascii.eqb c2 "." = false -> is_dec_digit c2 = false ->
  readFloat (String c (String c2 r2)) = None.
Proof.
  intros Hc Hdot Hd. unfold readFloat.
  destruct Hc as [Hc|Hc]; apply Ascii.eqb_eq in Hc; subst c;
    cbn [Ascii.eqb Bool.eqb readDigits]; rewrite Hdot, Hd; reflexivity.
Qed.

Lemma readFloat_sign_only (c : ascii) :
  Ascii.eqb c "+" = true \/ Ascii.eqb c "-" = true ->
  readFloat (String c EmptyString) = None.
Proof.
  intros [Hc|Hc]; apply Ascii.eqb_eq in Hc; subst c; reflexivity.
Qed.

(** What [readFloat] reads is none of the names that [special] knows. *)
Lemma special_readFloat (b : string) (x : bool * Z * Z) :
  readFloat b = Some x -> special b = None.
Proof.
  intros Hr. destruct (special b) as [f|] eqn:Hs; [exfalso|reflexivity].
  assert (Hnone : readFloat b = None); [|congruence].
  clear Hr. unfold special in Hs. destruct b as [|c rest]; [discriminate|].
  destruct (Ascii.eqb c "+") eqn:Hplus.
  { destruct rest as [|c2 r2]; [apply readFloat_sign_only; now left|].
    destruct (equalIgnoreCase (String c (String c2 r2)) "+inf") eqn:E1.
    - apply equalIgnoreCase_second, lower_i_head in E1 as [Hdot Hd].
      apply readFloat_sign_head; [now left|assumption|assumption].
    - destruct (equalIgnoreCase (String c (String c2 r2)) "+infinity") eqn:E2;
        [|discriminate].
      apply equalIgnoreCase_second, lower_i_head in E2 as [Hdot Hd].
      apply readFloat_sign_head; [now left|assumption|assumption]. }
  destruct (Ascii.eqb c "-") eqn:Hminus.
  { destruct rest as [|c2 r2]; [apply readFloat_sign_only; now right|].
    destruct (equalIgnoreCase (String c (String c2 r2)) "-inf") eqn:E1.
    - apply equalIgnoreCase_second, lower_i_head in E1 as [Hdot Hd].
      apply readFloat_sign_head; [now right|assumption|assumption].
    - destruct (equalIgnoreCase (String c (String c2 r2)) "-infinity") eqn:E2;
        [|discriminate].
      apply equalIgnoreCase_second, lower_i_head in E2 as [Hdot Hd].
      apply readFloat_sign_head; [now right|assumption|assumption]. }
  destruct (Ascii.eqb c "n" || Ascii.eqb c "N") eqn:Hn.
  { apply readFloat_head. cbn [starts_numeric].
    apply orb_true_iff in Hn as [H|H]; apply Ascii.eqb_eq in H; subst c;
      reflexivity. }
  destruct (Ascii.eqb c "i" || Ascii.eqb c "I") eqn:Hi; [|discriminate].
  apply readFloat_head. cbn [starts_numeric].
  apply orb_true_iff in Hi as [H|H]; apply Ascii.eqb_eq in H; subst c;
    reflexivity.
Qed.

(** A token [ParseInt] reads is an integer literal, and [readFloat] reads
    it as its magnitude with exponent 0. *)
Lemma ParseInt_readFloat (b : string) (v : Z) (neg : bool) (m e : Z) :
  ParseInt b 10 64 = (v, None) ->
  readFloat b = Some (neg, m, e) ->
  e = 0 /\ m <= 2 ^ 63.
Proof.
  intros Hi Hr.
  destruct (int_literal b) as [w|] eqn:Hlit.
  - pose proof (ParseInt_literal _ _ Hlit) as Ho. rewrite Hi in Ho.
    unfold ParseInt_outcome in Ho.
    destruct (Z.ltb_spec w minInt64); [discriminate|].
    destruct (Z.ltb_spec maxInt64 w); [discriminate|].
    assert (Hmin : minInt64 = - 2 ^ 63) by reflexivity.
    assert (Hmax : maxInt64 = 2 ^ 63 - 1) by reflexivity.
    destruct (readFloat_literal _ _ Hlit) as [Hr'|[_ [neg' Hr']]];
      rewrite Hr' in Hr; injection Hr as _ <- <-; split; lia.
  - pose proof (ParseInt_nonliteral _ Hlit) as Hne. rewrite Hi in Hne.
    contradiction.
Qed.

End DecimalFacts.

Section DecimalQuotes.

Lemma ends_with_quote_cons (c : ascii) (s : string) :
  is_quote c = false -> ends_with_quote s = false ->
  ends_with_quote (String c s) = false.
Proof. intros Hc Hs. destruct s; [exact Hc|exact Hs]. Qed.

Lemma dot_not_quote (c : ascii) : Ascii.eqb c "." = true -> is_quote c = false.
Proof. intros H. apply Ascii.eqb_eq in H as ->. reflexivity. Qed.

Lemma readExp_no_quote (s : string) : forall e0 e,
  readExp s e0 = (e, EmptyString) -> ends_with_quote s = false.
Proof.
  induction s as [|c s IH]; intros e0 e; [reflexivity|].
  cbn [readExp]. destruct (is_dec_digit c) eqn:Hc; [|discriminate].
  intros H. apply ends_with_quote_cons; [apply dec_digit_not_quote, Hc|].
  eapply IH, H.
Qed.

Lemma readDigits_no_quote (s : string) : forall sawdot sawdigits mant frac m f sd rest,
  readDigits s sawdot sawdigits mant frac = Some (m, f, sd, rest) ->
  ends_with_quote rest = false -> ends_with_quote s = false.
Proof.
  induction s as [|c s IH]; intros sawdot sawdigits mant frac m f sd rest;
    cbn [readDigits].
  - intros [= _ _ _ <-] H. exact H.
  - destruct (Ascii.eqb c ".") eqn:Hdot.
    + destruct sawdot; [discriminate|]. intros H Hrest.
      apply ends_with_quote_cons; [apply dot_not_quote, Hdot|].
      eapply IH; eassumption.
    + destruct (is_dec_digit c) eqn:Hc.
      * intros H Hrest.
        apply ends_with_quote_cons; [apply dec_digit_not_quote, Hc|].
        eapply IH; eassumption.
      * intros [= _ _ _ <-] H. exact H.
Qed.

(** What [readFloat] reads has no double quote at either end: [Trim]
    leaves it as it is. *)
Lemma readFloat_Trim (b : string) (x : bool * Z * Z) :
  readFloat b = Some x -> Trim b quote_cutset = b.
Proof.
  intros Hr.
  assert (Hs : starts_with_quote b = false).
  { destruct (starts_numeric b) eqn:Hn;
      [|rewrite (readFloat_head _ Hn) in Hr; discriminate].
    destruct b as [|c rest]; [reflexivity|].
    cbn [starts_numeric starts_with_quote] in *. unfold numeric_head in Hn.
    destruct (is_quote c) eqn:Hq; [|reflexivity].
    apply Ascii.eqb_eq in Hq. subst c. discriminate Hn. }
  assert (He : ends_with_quote b = false).
  { unfold readFloat in Hr. destruct b as [|c rest]; [discriminate|].
    assert (Htail : forall s1 neg0,
      match readDigits s1 false false 0 0 with
      | None => None
      | Some (mant, frac, sawdigits, s2) =>
          if negb sawdigits then None
          else
            match s2 with
            | EmptyString => Some (neg0, mant, - frac)
            | String c2 s3 =>
                if Ascii.eqb c2 "e" || Ascii.eqb c2 "E" then
                  match s3 with
                  | EmptyString => None
                  | String c3 s4 =>
                      let '(esign, s5) :=
                        if Ascii.eqb c3 "+" then (1, s4)
                        else if Ascii.eqb c3 "-" then (-1, s4)
                        else (1, s3) in
                      if starts_with_digit s5 then
                        match readExp s5 0 with
                        | (e, EmptyString) => Some (neg0, mant, e * esign - frac)
                        | (_, String _ _) => None
                        end
                      else None
                  end
                else None
            end
      end = Some x -> s1 <> EmptyString /\ ends_with_quote s1 = false).
    { intros s1 neg0 H.
      destruct (readDigits s1 false false 0 0) as [[[[mant frac] sd] s2]|] eqn:Hrd;
        [|discriminate].
      split.
      { intros ->. cbn in Hrd. injection Hrd as _ _ <- _. discriminate. }
      eapply readDigits_no_quote; [exact Hrd|].
      destruct (negb sd); [discriminate|].
      destruct s2 as [|c2 s3]; [reflexivity|].
      destruct (Ascii.eqb c2 "e" || Ascii.eqb c2 "E") eqn:He; [|discriminate].
      assert (Hc2 : is_quote c2 = false).
      { apply orb_true_iff in He as [He|He]; apply Ascii.eqb_eq in He; subst c2;
          reflexivity. }
      destruct s3 as [|c3 s4]; [discriminate|].
      destruct (Ascii.eqb c3 "+") eqn:Hp.
      - destruct (starts_with_digit s4) eqn:Hsd; [|discriminate].
        destruct (readExp s4 0) as [e0 [|]] eqn:Hre; [|discriminate].
        apply ends_with_quote_cons; [exact Hc2|].
        apply ends_with_quote_cons;
          [apply Ascii.eqb_eq in Hp; subst c3; reflexivity|].
        eapply readExp_no_quote, Hre.
      - destruct (Ascii.eqb c3 "-") eqn:Hmi.
        + destruct (starts_with_digit s4) eqn:Hsd; [|discriminate].
          destruct (readExp s4 0) as [e0 [|]] eqn:Hre; [|discriminate].
          apply ends_with_quote_cons; [exact Hc2|].
          apply ends_with_quote_cons;
            [apply Ascii.eqb_eq in Hmi; subst c3; reflexivity|].
          eapply readExp_no_quote, Hre.
        + destruct (starts_with_digit (String c3 s4)) eqn:Hsd; [|discriminate].
          destruct (readExp (String c3 s4) 0) as [e0 [|]] eqn:Hre; [|discriminate].
          apply ends_with_quote_cons; [exact Hc2|].
          eapply readExp_no_quote, Hre. }
    destruct (Ascii.eqb c "+") eqn:Hp.
    - destruct (Htail _ _ Hr) as [Hne Hq].
      destruct rest; [contradiction|exact Hq].
    - destruct (Ascii.eqb c "-") eqn:Hmi.
      + destruct (Htail _ _ Hr) as [Hne Hq].
        destruct rest; [contradiction|exact Hq].
      + destruct (Htail _ _ Hr) as [_ Hq]. exact Hq. }
  unfold Trim. rewrite TrimLeft_id by exact Hs. apply TrimRight_id, He.
Qed.

End DecimalQuotes.

(** X1. The decoder yields the Integer variant on the base-10 integer
    literals whose value fits a signed 64-bit integer and on no other
    token: a token with a fraction, an exponent, a space, a quote or a
    value out of range is never an Integer. The value held is the
    literal's. *)
Theorem UnmarshalJSON_IntType_iff (g0 : gaugeValue) (b : string) :
  (Type_ (UnmarshalJSON g0 b).1 = IntType <->
   exists v, int_literal b = Some v /\ minInt64 <= v <= maxInt64) /\
  (forall v, int_literal b = Some v -> minInt64 <= v <= maxInt64 ->
     IntValue (UnmarshalJSON g0 b).1 = v).
Proof.
  assert (Hin : forall v, int_literal b = Some v -> minInt64 <= v <= maxInt64 ->
            UnmarshalJSON g0 b =
              ({| IntValue := v; FloatValue := S754_zero false;
                  StringValue := EmptyString; Type_ := IntType |}, None)).
  { intros v Hlit Hr. unfold UnmarshalJSON.
    rewrite (ParseInt_literal _ _ Hlit). unfold ParseInt_outcome.
    destruct (Z.ltb_spec v minInt64); [lia|].
    destruct (Z.ltb_spec maxInt64 v); [lia|]. reflexivity. }
  split; [split|].
  - intros H. destruct (UnmarshalJSON_IntType_inv g0 b H) as (v & Hlit & Hr & _).
    exists v. split; assumption.
  - intros (v & Hlit & Hr). rewrite (Hin v Hlit Hr). reflexivity.
  - intros v Hlit Hr. rewrite (Hin v Hlit Hr). reflexivity.
Qed.

(** X2. A token that begins with none of a sign, a point and a digit, and
    that is not one of the names of the infinities and of NaN, is decoded
    as a String holding the token less the double quotes at its ends: so
    are the JSON strings, whatever their text, and [true], [false] and
    [null]. *)
Theorem UnmarshalJSON_non_numeric (g0 : gaugeValue) (b : string) :
  starts_numeric b = false ->
  special b = None ->
  UnmarshalJSON g0 b =
    ({| IntValue := 0; FloatValue := S754_zero false;
        StringValue := Trim b quote_cutset; Type_ := StringType |}, None).
Proof.
  intros Hh Hs. unfold UnmarshalJSON.
  pose proof (ParseInt_nonliteral _ (int_literal_head _ Hh)) as Hi.
  pose proof (ParseFloat_head _ Hh Hs) as Hf.
  destruct (ParseInt b 10 64) as [n [e|]]; [|contradiction].
  destruct (ParseFloat b 64) as [f [e'|]]; [reflexivity|contradiction].
Qed.

Lemma UnmarshalJSON_non_numeric_witness :
  starts_numeric (quoted "42") = false /\
  special (quoted "42") = None /\
  UnmarshalJSON gaugeValue_zero (quoted "42") =
    ({| IntValue := 0; FloatValue := S754_zero false;
        StringValue := "42"; Type_ := StringType |}, None) /\
  UnmarshalJSON gaugeValue_zero "null" =
    ({| IntValue := 0; FloatValue := S754_zero false;
        StringValue := "null"; Type_ := StringType |}, None).
Proof.
  split; [reflexivity|]. split; [reflexivity|]. split.
  - apply (UnmarshalJSON_non_numeric gaugeValue_zero (quoted "42"));
      reflexivity.
  - apply (UnmarshalJSON_non_numeric gaugeValue_zero "null"); reflexivity.
Defined.

(** X3. Decimal numbers of ordinary size are floats. A token that
    [readFloat] reads as [m * 10^e] (digits with at most one point and an
    optional exponent) and that is below [float64_overflow] in magnitude
    (for a negative exponent: whose digits are) is never a String: it is an
    Integer when [ParseInt] reads it too, and otherwise the Float that
    [floatBits] makes of it, a finite number. With an exponent that is not
    negative, from [float64_overflow] on the token is a String instead,
    holding the token as it is. *)
Theorem UnmarshalJSON_decimal (g0 : gaugeValue) (b : string)
    (neg : bool) (m e : Z) :
  readFloat b = Some (neg, m, e) ->
  (m * 10 ^ Z.max e 0 < float64_overflow ->
     Type_ (UnmarshalJSON g0 b).1 <> StringType /\
     (snd (ParseInt b 10 64) <> None ->
        UnmarshalJSON g0 b =
          ({| IntValue := 0; FloatValue := floatBits prec64 emax64 neg m e;
              StringValue := EmptyString; Type_ := FloatType |}, None) /\
        is_finite (floatBits prec64 emax64 neg m e) = true)) /\
  (0 <= e -> float64_overflow <= m * 10 ^ e ->
     UnmarshalJSON g0 b =
       ({| IntValue := 0; FloatValue := S754_zero false;
           StringValue := b; Type_ := StringType |}, None)).
Proof.
  intros Hr.
  pose proof (readFloat_nonneg _ _ _ _ Hr) as Hm.
  assert (Hpf : ParseFloat b 64 =
                (floatBits prec64 emax64 neg m e,
                 if is_inf (floatBits prec64 emax64 neg m e)
                 then Some ErrRange else None)).
  { unfold ParseFloat. change (64 =? 32) with false. cbv iota.
    unfold atof64, atof. rewrite (special_readFloat _ _ Hr), Hr. reflexivity. }
  split.
  - intros Hlt.
    pose proof (floatBits_finite neg m e Hm Hlt) as Hfin.
    assert (Hinf : is_inf (floatBits prec64 emax64 neg m e) = false)
      by (destruct (floatBits prec64 emax64 neg m e); try discriminate Hfin;
          reflexivity).
    rewrite Hinf in Hpf. unfold UnmarshalJSON.
    destruct (ParseInt b 10 64) as [n [err|]].
    + rewrite Hpf. split; [discriminate|]. intros _. split; [reflexivity|exact Hfin].
    + split; [discriminate|]. intros H. contradiction.
  - intros He Hge. unfold UnmarshalJSON.
    destruct (ParseInt b 10 64) as [n [err|]] eqn:Hi.
    + rewrite Hpf.
      assert (Hinf : floatBits prec64 emax64 neg m e = S754_infinity neg).
      { unfold floatBits.
        assert (0 < float64_overflow) by reflexivity.
        assert (0 < 10 ^ e) by (apply Z.pow_pos_nonneg; lia).
        destruct (Z.eqb_spec m 0) as [->|Hm0]; [lia|].
        destruct (Z.leb_spec 0 e); [|lia].
        unfold binary_normalize. destruct neg.
        - destruct (- m * 10 ^ e) as [|p|p] eqn:Hp; try lia.
          apply binary_round_overflow. lia.
        - destruct (m * 10 ^ e) as [|p|p] eqn:Hp; try lia.
          apply binary_round_overflow. lia. }
      rewrite Hinf. cbn [is_inf]. rewrite (readFloat_Trim _ _ Hr). reflexivity.
    + exfalso. destruct (ParseInt_readFloat _ _ _ _ _ Hi Hr) as [-> Hm63].
      rewrite Z.pow_0_r, Z.mul_1_r in Hge.
      assert (2 ^ 63 < float64_overflow) by reflexivity. lia.
Qed.

Lemma UnmarshalJSON_decimal_witness :
  readFloat "-3.14" = Some (true, 314, -2) /\
  314 * 10 ^ Z.max (-2) 0 < float64_overflow /\
  snd (ParseInt "-3.14" 10 64) <> None /\
  UnmarshalJSON gaugeValue_zero "-3.14" =
    ({| IntValue := 0; FloatValue := floatBits prec64 emax64 true 314 (-2);
        StringValue := EmptyString; Type_ := FloatType |}, None) /\
  floatBits prec64 emax64 true 314 (-2) =
    S754_finite true 7070651414971679 (-51).
Proof.
  split; [reflexivity|]. split; [reflexivity|]. split; [discriminate|].
  destruct (UnmarshalJSON_decimal gaugeValue_zero "-3.14" true 314 (-2) eq_refl)
    as [H _].
  destruct (H eq_refl) as [_ H'].
  destruct H' as [H' _]; [discriminate|].
  split; [exact H'|reflexivity].
Defined.

(** X4. A Float the decoder yields is a finite number, unless the token is
    one of the names of the infinities and of NaN: a number too large for
    binary64 is not a Float holding an infinity (it falls through to
    String), and no decimal number gives NaN. *)
Theorem UnmarshalJSON_float_finite (g0 : gaugeValue) (b : string) :
  Type_ (UnmarshalJSON g0 b).1 = FloatType ->
  (is_finite (FloatValue (UnmarshalJSON g0 b).1) = true <-> special b = None).
Proof.
  unfold UnmarshalJSON.
  destruct (ParseInt b 10 64) as [n [e|]]; [|discriminate].
  unfold ParseFloat. change (64 =? 32) with false. cbv iota.
  unfold atof64, atof.
  destruct (special b) as [f|] eqn:Hs.
  - intros _. cbn [fst FloatValue].
    assert (Hf : is_finite f = false).
    { unfold special in Hs. destruct b as [|c rest]; [discriminate|].
      repeat match type of Hs with
             | (if ?x then _ else _) = _ => destruct x
             end; try discriminate; injection Hs as <-; reflexivity. }
    rewrite Hf. split; discriminate.
  - destruct (readFloat b) as [[[neg m] ex]|] eqn:Hr; [|discriminate].
    pose proof (floatBits_not_nan prec64 emax64 neg m ex
                  (readFloat_nonneg _ _ _ _ Hr)) as Hnan.
    destruct (floatBits prec64 emax64 neg m ex) as [s|s| |s mm ee];
      cbn; try discriminate; try contradiction.
    + intros _. split; reflexivity.
    + intros _. split; reflexivity.
Qed.

Lemma UnmarshalJSON_float_finite_witness :
  Type_ (UnmarshalJSON gaugeValue_zero "2.5").1 = FloatType /\
  is_finite (FloatValue (UnmarshalJSON gaugeValue_zero "2.5").1) = true.
Proof.
  split; [reflexivity|].
  apply (UnmarshalJSON_float_finite gaugeValue_zero "2.5"); reflexivity.
Defined.

(** X5. The decoder and the gauge loop together: a gauge whose token is
    read as a number gives one [AddGauge] record with the one field
    [value], an integer when [ParseInt] reads the token and a float when
    only [ParseFloat] does; a gauge whose token neither reads gives no
    call at all. A gauge whose value is a JSON string is thus never
    reported, even when the string spells a number. *)
Theorem gauge_token_record (now : Time) (name raw : string) :
  (forall v, ParseInt raw 10 64 = (v, None) ->
     gauge_body now name (gauge_of_token raw) =
       [AccAdd AddGauge name {[ "value" := VInt v ]} None now]) /\
  (forall f, snd (ParseInt raw 10 64) <> None ->
     ParseFloat raw 64 = (f, None) ->
     gauge_body now name (gauge_of_token raw) =
       [AccAdd AddGauge name {[ "value" := VFloat f ]} None now]) /\
  (gauge_body now name (gauge_of_token raw) = [] <->
     snd (ParseInt raw 10 64) <> None /\ snd (ParseFloat raw 64) <> None) /\
  (forall t, gauge_body now name (gauge_of_token (quoted t)) = []).
Proof.
  unfold gauge_of_token, gauge_body, UnmarshalJSON.
  split; [|split; [|split]].
  - intros v ->. reflexivity.
  - intros f Hi Hf. destruct (ParseInt raw 10 64) as [n [e|]]; [|contradiction].
    rewrite Hf. reflexivity.
  - destruct (ParseInt raw 10 64) as [n [e|]].
    + destruct (ParseFloat raw 64) as [f [e'|]]; cbn.
      * split; [intros _; split; discriminate|reflexivity].
      * split; [discriminate|]. intros [_ H]. contradiction.
    + cbn. split; [discriminate|]. intros [H _]. contradiction.
  - intros t.
    pose proof (ParseInt_nonliteral (quoted t)
                  (int_literal_head (quoted t) eq_refl)) as Hi.
    pose proof (ParseFloat_head (quoted t) eq_refl (special_quoted t)) as Hf.
    destruct (ParseInt (quoted t) 10 64) as [n [e|]]; [|contradiction].
    destruct (ParseFloat (quoted t) 64) as [f [e'|]]; [reflexivity|contradiction].
Qed.

(* ===================================================================== *)
(** * Further properties of a pass *)
(* ===================================================================== *)

(** X6. The client is built once. After a pass that returned no error the
    plugin holds a client, and a later pass on the plugin as that pass
    left it does not ask for the TLS configuration again (it is the same
    whatever [GetTLSConfig] would answer by then), returns no error,
    starts the same goroutines and leaves the plugin as it found it. *)
Theorem Gather_client_built_once {TLSConfig : Type}
    (GetTLSConfig GetTLSConfig' :
       string -> string -> string -> bool -> TLSConfig + error)
    (json_Decode : string -> metrics -> metrics * option error)
    (d : Dropwizard TLSConfig) :
  pass_err (Gather GetTLSConfig json_Decode d) = None ->
  client (pass_d (Gather GetTLSConfig json_Decode d)) <> None /\
  Gather GetTLSConfig' json_Decode (pass_d (Gather GetTLSConfig json_Decode d)) =
    {| pass_d := pass_d (Gather GetTLSConfig json_Decode d);
       pass_tasks := pass_tasks (Gather GetTLSConfig json_Decode d);
       pass_err := None |}.
Proof.
  destruct d as [urls ca cert key skip timeout cl]. unfold Gather.
  destruct urls as [|u us]; cbn [URLs set_URLs client SSLCert SSLKey SSLCA
                                 InsecureSkipVerify Timeout];
    destruct cl as [c|]; cbn [pass_err pass_d pass_tasks].
  - intros _. split; [discriminate|reflexivity].
  - destruct (GetTLSConfig cert key ca skip) as [cfg|e];
      cbn [pass_err pass_d pass_tasks]; [|discriminate].
    intros _. split; [discriminate|reflexivity].
  - intros _. split; [discriminate|reflexivity].
  - destruct (GetTLSConfig cert key ca skip) as [cfg|e];
      cbn [pass_err pass_d pass_tasks]; [|discriminate].
    intros _. split; [discriminate|reflexivity].
Qed.

Lemma Gather_client_built_once_witness :
  pass_err (Gather demo_GetTLSConfig demo_json_Decode demo_d) = None /\
  client (pass_d (Gather demo_GetTLSConfig demo_json_Decode demo_d)) <> None /\
  pass_err (Gather (fun _ _ _ _ => inr "open /etc/telegraf/ca.pem: no such file")
                   demo_json_Decode
                   (pass_d (Gather demo_GetTLSConfig demo_json_Decode demo_d))) =
    None.
Proof.
  split; [reflexivity|].
  destruct (Gather_client_built_once demo_GetTLSConfig
              (fun _ _ _ _ => inr "open /etc/telegraf/ca.pem: no such file")
              demo_json_Decode demo_d eq_refl) as [H1 H2].
  split; [exact H1|]. rewrite H2. reflexivity.
Defined.

(** X7. A pass that fails is tried again from scratch. When [Gather]
    returns an error the plugin still has no client, and the next pass on
    the plugin as the failed one left it is the pass the plugin would have
    made in the first place: it asks for the TLS configuration again. All
    the failed pass leaves behind is the default URL in an empty list. *)
Theorem Gather_failed_pass_retried {TLSConfig : Type}
    (GetTLSConfig GetTLSConfig' :
       string -> string -> string -> bool -> TLSConfig + error)
    (json_Decode : string -> metrics -> metrics * option error)
    (d : Dropwizard TLSConfig) :
  pass_err (Gather GetTLSConfig json_Decode d) <> None ->
  client (pass_d (Gather GetTLSConfig json_Decode d)) = None /\
  pass_d (Gather GetTLSConfig json_Decode d) =
    set_URLs d (match URLs d with [] => [default_URL] | _ => URLs d end) /\
  Gather GetTLSConfig' json_Decode (pass_d (Gather GetTLSConfig json_Decode d)) =
    Gather GetTLSConfig' json_Decode d.
Proof.
  destruct d as [urls ca cert key skip timeout cl]. unfold Gather.
  destruct urls as [|u us]; cbn [URLs set_URLs client SSLCert SSLKey SSLCA
                                 InsecureSkipVerify Timeout];
    destruct cl as [c|]; cbn [pass_err pass_d pass_tasks];
    try (intros H; contradiction);
    (destruct (GetTLSConfig cert key ca skip) as [cfg|e];
     cbn [pass_err pass_d pass_tasks]; [intros H; contradiction|]);
    intros _; repeat split.
Qed.

Lemma Gather_failed_pass_retried_witness :
  pass_err (Gather (fun _ _ _ _ => inr "open /etc/telegraf/ca.pem: no such file")
                   demo_json_Decode (set_URLs demo_d [])) <> None /\
  Gather demo_GetTLSConfig demo_json_Decode
    (pass_d (Gather (fun _ _ _ _ => inr "open /etc/telegraf/ca.pem: no such file")
                    demo_json_Decode (set_URLs demo_d []))) =
  Gather demo_GetTLSConfig demo_json_Decode (set_URLs demo_d []).
Proof.
  split; [discriminate|].
  apply (Gather_failed_pass_retried
           (fun _ _ _ _ => inr "open /etc/telegraf/ca.pem: no such file")
           demo_GetTLSConfig demo_json_Decode (set_URLs demo_d [])).
  discriminate.
Defined.

(** X8. What a pass never touches: the three TLS paths, the flag and the
    timeout of the plugin are as before, a list of URLs that is not empty
    is as before, and a client the plugin already has is kept, the TLS
    configuration not being asked for. *)
Theorem Gather_keeps_settings {TLSConfig : Type}
    (GetTLSConfig : string -> string -> string -> bool -> TLSConfig + error)
    (json_Decode : string -> metrics -> metrics * option error)
    (d : Dropwizard TLSConfig) :
  SSLCA (pass_d (Gather GetTLSConfig json_Decode d)) = SSLCA d /\
  SSLCert (pass_d (Gather GetTLSConfig json_Decode d)) = SSLCert d /\
  SSLKey (pass_d (Gather GetTLSConfig json_Decode d)) = SSLKey d /\
  InsecureSkipVerify (pass_d (Gather GetTLSConfig json_Decode d)) =
    InsecureSkipVerify d /\
  Timeout (pass_d (Gather GetTLSConfig json_Decode d)) = Timeout d /\
  (URLs d <> [] -> URLs (pass_d (Gather GetTLSConfig json_Decode d)) = URLs d) /\
  (forall c, client d = Some c ->
     client (pass_d (Gather GetTLSConfig json_Decode d)) = Some c /\
     forall GetTLSConfig',
       Gather GetTLSConfig' json_Decode d = Gather GetTLSConfig json_Decode d).
Proof.
  destruct d as [urls ca cert key skip timeout cl]. unfold Gather.
  destruct urls as [|u us]; cbn [URLs set_URLs client SSLCert SSLKey SSLCA
                                 InsecureSkipVerify Timeout];
    destruct cl as [c|]; cbn [pass_err pass_d pass_tasks];
    try (destruct (GetTLSConfig cert key ca skip) as [cfg|e]);
    cbn; repeat split; try congruence; try discriminate;
    intros c' [= <-]; reflexivity.
Qed.

(** X9. The first pass of a plugin as the registered factory makes it,
    no configuration applied: registered under the name [dropwizard], it
    asks for a TLS configuration with no paths and verification on, builds
    a client whose two timeouts are five seconds, and polls the default
    URL and nothing else. *)
Theorem init_first_pass {TLSConfig : Type}
    (GetTLSConfig : string -> string -> string -> bool -> TLSConfig + error)
    (json_Decode : string -> metrics -> metrics * option error)
    (cfg : TLSConfig) (name : string) (creator : unit -> Dropwizard TLSConfig) :
  init (fun n c => (n, c)) = (name, creator) ->
  GetTLSConfig EmptyString EmptyString EmptyString false = inl cfg ->
  name = "dropwizard" /\
  pass_err (Gather GetTLSConfig json_Decode (creator tt)) = None /\
  URLs (pass_d (Gather GetTLSConfig json_Decode (creator tt))) = [default_URL] /\
  client (pass_d (Gather GetTLSConfig json_Decode (creator tt))) =
    Some {| client_Transport :=
              {| ResponseHeaderTimeout := 5000000000; TLSClientConfig := cfg |};
            client_Timeout := 5000000000 |} /\
  pass_tasks (Gather GetTLSConfig json_Decode (creator tt)) =
    [gather_task json_Decode
       (pass_d (Gather GetTLSConfig json_Decode (creator tt))) default_URL].
Proof.
  unfold init. intros [= <- <-] Htls.
  unfold Gather.
  cbn [URLs set_URLs client SSLCert SSLKey SSLCA InsecureSkipVerify Timeout].
  rewrite Htls. repeat split.
Qed.

Lemma init_first_pass_witness :
  exists name creator,
    init (TLSConfig := unit) (fun n c => (n, c)) = (name, creator) /\
    demo_GetTLSConfig EmptyString EmptyString EmptyString false = inl tt /\
    name = "dropwizard" /\
    URLs (pass_d (Gather demo_GetTLSConfig demo_json_Decode (creator tt))) =
      ["http://localhost:8081/metrics"].
Proof.
  eexists. eexists. split; [reflexivity|]. split; [reflexivity|].
  destruct (init_first_pass demo_GetTLSConfig demo_json_Decode tt _ _
              eq_refl eq_refl) as (H1 & _ & H2 & _).
  split; [exact H1|exact H2].
Defined.

(* ===================================================================== *)
(** * Further properties of the goroutines of a pass *)
(* ===================================================================== *)

Section PassLogFacts.

Lemma normalize_no_tags (o : orders) (now : Time) :
  Forall (fun c => call_tags c = None) (normalize o now).
Proof.
  unfold normalize. repeat (apply Forall_app; split);
    apply Forall_for_range; intros name x.
  - unfold gauge_body. destruct (Type_ (Value x)); repeat constructor.
  - repeat constructor.
  - repeat constructor.
  - repeat constructor.
  - repeat constructor.
Qed.

Lemma call_errors_of_records (cs : list acc_call) :
  Forall (fun c => is_record c = true) cs -> call_errors cs = [].
Proof.
  unfold call_errors. induction 1 as [|c cs Hc _ IH]; [reflexivity|].
  destruct c; [exact IH|discriminate].
Qed.

Lemma call_records_of_records (cs : list acc_call) :
  Forall (fun c => is_record c = true) cs -> call_records cs = cs.
Proof.
  unfold call_records. induction 1 as [|c cs Hc _ IH]; [reflexivity|].
  cbn [List.filter]. rewrite Hc, IH. reflexivity.
Qed.

Lemma normalize_all_records (o : orders) (now : Time) :
  Forall (fun c => is_record c = true) (normalize o now).
Proof.
  eapply Forall_impl; [apply normalize_times|]. cbn. tauto.
Qed.

Lemma filter_close_acc (cs : list acc_call) :
  List.filter is_close (map EvAcc cs) = [].
Proof. induction cs as [|c cs IH]; [reflexivity|exact IH]. Qed.

Lemma filter_close_app (es1 es2 : list event) :
  List.filter is_close (es1 ++ es2) =
  List.filter is_close es1 ++ List.filter is_close es2.
Proof. apply List.filter_app. Qed.

(** A goroutine that was not started has no event. *)
Lemma events_of_none (n i : nat) (l : log) :
  Forall (fun ie : nat * event => (ie.1 < n)%nat) l -> (n <= i)%nat ->
  events_of i l = [].
Proof.
  intros Hall Hi. unfold events_of.
  induction Hall as [|[j e] l Hj _ IH]; [reflexivity|].
  cbn [omap list_omap fst snd] in *.
  destruct (Nat.eqb_spec j i) as [->|_]; [lia|]. exact IH.
Qed.

Lemma elem_of_all_calls (c : acc_call) (l : log) :
  c ∈ all_calls l <-> exists i, (i, EvAcc c) ∈ l.
Proof.
  unfold all_calls, calls_of_events. rewrite list_elem_of_omap. split.
  - intros (e & He & Hc). destruct e; try discriminate. injection Hc as ->.
    change (map snd l) with (snd <$> l) in He.
    apply list_elem_of_fmap in He as ([i e] & -> & Hin). exists i. exact Hin.
  - intros (i & Hin). exists (EvAcc c). split; [|reflexivity].
    change (map snd l) with (snd <$> l).
    apply list_elem_of_fmap. exists (i, EvAcc c). split; [reflexivity|exact Hin].
Qed.

Lemma elem_of_call_errors (err : error) (cs : list acc_call) :
  err ∈ call_errors cs <-> AccAddError err ∈ cs.
Proof.
  unfold call_errors. rewrite list_elem_of_omap. split.
  - intros (c & Hc & He). destruct c; [discriminate|]. injection He as ->.
    exact Hc.
  - intros H. exists (AccAddError err). split; [exact H|reflexivity].
Qed.

End PassLogFacts.

Section UrlFacts.

Context {TLSConfig : Type}.
Variable GetTLSConfig : string -> string -> string -> bool -> TLSConfig + error.
Variable json_Decode : string -> metrics -> metrics * option error.

(** Every event of a complete run belongs to the goroutine of a URL. *)
Lemma Gather_event_url (d : Dropwizard TLSConfig) (l : log) (i : nat) (e : event) :
  pass_err (Gather GetTLSConfig json_Decode d) = None ->
  completes (pass_tasks (Gather GetTLSConfig json_Decode d)) l ->
  (i, e) ∈ l ->
  exists url, URLs (pass_d (Gather GetTLSConfig json_Decode d)) !! i = Some url.
Proof.
  intros Herr Hcomp Hin.
  destruct (completes_runs _ _ Hcomp) as [Hall _].
  rewrite Forall_forall in Hall. specialize (Hall _ Hin). cbn [fst] in Hall.
  destruct (Gather_cases GetTLSConfig json_Decode d)
    as [(e' & _ & _ & He' & _)|(_ & _ & Htasks)]; [congruence|].
  rewrite Htasks, length_map in Hall.
  apply lookup_lt_is_Some_2 in Hall as [url Hurl]. eauto.
Qed.

(** The goroutine of a URL: its events, the response it got among them. *)
Lemma Gather_task_outcome (d : Dropwizard TLSConfig) (l : log) (i : nat)
    (url : string) :
  pass_err (Gather GetTLSConfig json_Decode d) = None ->
  completes (pass_tasks (Gather GetTLSConfig json_Decode d)) l ->
  URLs (pass_d (Gather GetTLSConfig json_Decode d)) !! i = Some url ->
  exists t r o,
    events_of i l = task_events json_Decode url t r o /\
    task_orders json_Decode r o /\
    (i, EvNow t) ∈ l /\ (i, EvGet url r) ∈ l /\
    calls_of i l = task_calls json_Decode url t r o.
Proof.
  intros Herr Hcomp Hi.
  destruct (Gather_task_events GetTLSConfig json_Decode d l i url Herr Hcomp Hi)
    as (t & r & o & Hev & Ho).
  exists t, r, o. split; [exact Hev|]. split; [exact Ho|].
  split; [|split].
  - apply elem_of_events_of. rewrite Hev. left.
  - apply elem_of_events_of. rewrite Hev. right. left.
  - unfold calls_of. rewrite Hev. apply task_events_calls.
Qed.

End UrlFacts.

(** X10. The response body is closed once on every path on which there is
    a response, and never when the request failed: in a complete run the
    goroutine of a URL has one [Close] among its events when it got a
    response and none when it got an error. The close comes after the
    request and after every record: no record follows it, only the report
    of a decoding error does. *)
Theorem gather_body_closed {TLSConfig : Type}
    (GetTLSConfig : string -> string -> string -> bool -> TLSConfig + error)
    (json_Decode : string -> metrics -> metrics * option error)
    (d : Dropwizard TLSConfig) (l : log) (i : nat) (url : string) (r : response) :
  pass_err (Gather GetTLSConfig json_Decode d) = None ->
  completes (pass_tasks (Gather GetTLSConfig json_Decode d)) l ->
  URLs (pass_d (Gather GetTLSConfig json_Decode d)) !! i = Some url ->
  (i, EvGet url r) ∈ l ->
  List.filter is_close (events_of i l) =
    match r with inl _ => [EvClose] | inr _ => [] end /\
  (forall body, r = inl body ->
     exists before after,
       events_of i l = before ++ EvClose :: after /\
       EvGet url r ∈ before /\
       calls_of_events before = call_records (calls_of i l) /\
       call_records (calls_of_events after) = []).
Proof.
  intros Herr Hcomp Hi Hget.
  destruct (Gather_task_response GetTLSConfig json_Decode d l i url r
              Herr Hcomp Hi Hget) as (t & o & Hev & _ & _ & Hcalls).
  rewrite Hcalls, Hev. unfold task_events, task_calls, pipeline_error.
  destruct r as [body|err].
  - destruct (DecodeJSONMetrics json_Decode body) as [m [e|]] eqn:Hdec;
      cbn [snd].
    + split; [reflexivity|]. intros body' _.
      exists [EvNow t; EvGet url (inl body)],
             [EvAcc (AccAddError (url_error url e))].
      split; [reflexivity|]. split; [right; left|]. split; reflexivity.
    + split.
      * change (EvNow t :: EvGet url (inl body) :: EvRange o :: ?x)
          with ([EvNow t; EvGet url (inl body); EvRange o] ++ x).
        rewrite !filter_close_app, filter_close_acc. reflexivity.
      * intros body' _.
        exists (EvNow t :: EvGet url (inl body) :: EvRange o ::
                map EvAcc (normalize o t)), [].
        split; [reflexivity|]. split; [right; left|]. split; [|reflexivity].
        change (calls_of_events (EvNow t :: EvGet url (inl body) :: EvRange o :: ?x))
          with (calls_of_events x).
        rewrite calls_of_events_acc.
        symmetry. apply call_records_of_records, normalize_all_records.
  - split; [reflexivity|]. intros body [=].
Qed.

Lemma gather_body_closed_witness :
  (0%nat, EvGet "http://a/metrics" (inl "doc")) ∈ demo_log /\
  List.filter is_close (events_of 0 demo_log) = [EvClose].
Proof.
  assert (Hget : (0%nat, EvGet "http://a/metrics" (inl "doc")) ∈ demo_log)
    by (apply (demo_log_get 0 "http://a/metrics"); reflexivity).
  split; [exact Hget|].
  apply (gather_body_closed demo_GetTLSConfig demo_json_Decode demo_d demo_log
           0 "http://a/metrics" (inl "doc"));
    [reflexivity|apply run_seq_completes|reflexivity|exact Hget].
Defined.

(** X11. The errors of a pass are those of the URLs that failed, one for
    each: in a complete run an [AddError] belongs to the goroutine of a URL
    whose request or whose decoding failed and carries that error with the
    URL in front, every such URL has its [AddError], no goroutine makes
    more than one, and a pass whose URLs all answer with a document that
    decodes reports no error at all. *)
Theorem Gather_errors_reported {TLSConfig : Type}
    (GetTLSConfig : string -> string -> string -> bool -> TLSConfig + error)
    (json_Decode : string -> metrics -> metrics * option error)
    (d : Dropwizard TLSConfig) (l : log) :
  pass_err (Gather GetTLSConfig json_Decode d) = None ->
  completes (pass_tasks (Gather GetTLSConfig json_Decode d)) l ->
  (forall i err,
     (i, EvAcc (AccAddError err)) ∈ l <->
     exists url r e,
       URLs (pass_d (Gather GetTLSConfig json_Decode d)) !! i = Some url /\
       (i, EvGet url r) ∈ l /\
       pipeline_error json_Decode r = Some e /\ err = url_error url e) /\
  (forall i, (length (call_errors (calls_of i l)) <= 1)%nat) /\
  ((forall i url r,
      URLs (pass_d (Gather GetTLSConfig json_Decode d)) !! i = Some url ->
      (i, EvGet url r) ∈ l -> pipeline_error json_Decode r = None) ->
   call_errors (all_calls l) = []).
Proof.
  intros Herr Hcomp.
  assert (H1 : forall i err,
     (i, EvAcc (AccAddError err)) ∈ l <->
     exists url r e,
       URLs (pass_d (Gather GetTLSConfig json_Decode d)) !! i = Some url /\
       (i, EvGet url r) ∈ l /\
       pipeline_error json_Decode r = Some e /\ err = url_error url e).
  { intros i err. split.
    - intros Hin.
      destruct (Gather_event_url GetTLSConfig json_Decode d l i _ Herr Hcomp Hin)
        as [url Hurl].
      destruct (Gather_task_outcome GetTLSConfig json_Decode d l i url Herr Hcomp Hurl)
        as (t & r & o & _ & _ & _ & Hget & Hcalls).
      exists url, r. apply elem_of_calls_of in Hin. rewrite Hcalls in Hin.
      unfold task_calls in Hin.
      destruct (pipeline_error json_Decode r) as [e|] eqn:Hp.
      + exists e. apply list_elem_of_singleton in Hin. injection Hin as ->.
        repeat split; assumption.
      + pose proof (normalize_all_records o t) as Hrec.
        rewrite Forall_forall in Hrec. specialize (Hrec _ Hin). discriminate.
    - intros (url & r & e & Hurl & Hget & Hp & ->).
      destruct (Gather_task_response GetTLSConfig json_Decode d l i url r
                  Herr Hcomp Hurl Hget) as (t & o & _ & _ & _ & Hcalls).
      apply elem_of_calls_of. rewrite Hcalls.
      rewrite (task_calls_error json_Decode url t r o e Hp). left. }
  split; [exact H1|]. split.
  - intros i.
    destruct (URLs (pass_d (Gather GetTLSConfig json_Decode d)) !! i)
      as [url|] eqn:Hurl.
    + destruct (Gather_task_outcome GetTLSConfig json_Decode d l i url Herr Hcomp Hurl)
        as (t & r & o & _ & _ & _ & _ & ->).
      unfold task_calls. destruct (pipeline_error json_Decode r); [cbn; lia|].
      rewrite call_errors_of_records by apply normalize_all_records. cbn. lia.
    + destruct (completes_runs _ _ Hcomp) as [Hall _].
      destruct (Gather_cases GetTLSConfig json_Decode d)
        as [(e' & _ & _ & He' & _)|(_ & _ & Htasks)]; [congruence|].
      rewrite Htasks, length_map in Hall.
      apply lookup_ge_None_1 in Hurl.
      unfold calls_of. rewrite (events_of_none _ i l Hall Hurl). cbn. lia.
  - intros Hok.
    destruct (call_errors (all_calls l)) as [|err errs] eqn:He; [reflexivity|].
    exfalso.
    assert (Hin : err ∈ call_errors (all_calls l)) by (rewrite He; left).
    apply elem_of_call_errors, elem_of_all_calls in Hin as [i Hin].
    apply H1 in Hin as (url & r & e & Hurl & Hget & Hp & _).
    rewrite (Hok i url r Hurl Hget) in Hp. discriminate.
Qed.

Lemma Gather_errors_reported_witness :
  pass_err (Gather demo_GetTLSConfig demo_json_Decode demo_d) = None /\
  completes (pass_tasks (Gather demo_GetTLSConfig demo_json_Decode demo_d))
            demo_log /\
  (1%nat, EvAcc (AccAddError
     "[url=http://b/metrics]: invalid character '<' looking for beginning of value"))
    ∈ demo_log.
Proof.
  split; [reflexivity|]. split; [apply run_seq_completes|].
  destruct (Gather_errors_reported demo_GetTLSConfig demo_json_Decode demo_d
              demo_log eq_refl (run_seq_completes _ _ _)) as (H & _ & _).
  apply H. exists "http://b/metrics", (inl "<html>"),
    "invalid character '<' looking for beginning of value".
  split; [reflexivity|]. split; [|split; reflexivity].
  apply (demo_log_get 1 "http://b/metrics"). reflexivity.
Defined.

(** X12. Where a record comes from: in a complete run every record belongs
    to the goroutine of a URL that answered with a body that decoded
    without error, is one of the records of that document, carries the
    time that goroutine read, and has no tags. Nothing is reported from a
    body that failed to decode, and no record says which URL it is
    from. *)
Theorem Gather_record_origin {TLSConfig : Type}
    (GetTLSConfig : string -> string -> string -> bool -> TLSConfig + error)
    (json_Decode : string -> metrics -> metrics * option error)
    (d : Dropwizard TLSConfig) (l : log) (i : nat) (c : acc_call) :
  pass_err (Gather GetTLSConfig json_Decode d) = None ->
  completes (pass_tasks (Gather GetTLSConfig json_Decode d)) l ->
  (i, EvAcc c) ∈ l ->
  is_record c = true ->
  exists url body m o t,
    URLs (pass_d (Gather GetTLSConfig json_Decode d)) !! i = Some url /\
    (i, EvGet url (inl body)) ∈ l /\
    DecodeJSONMetrics json_Decode body = (m, None) /\
    orders_of m o /\
    (i, EvNow t) ∈ l /\
    c ∈ normalize o t /\
    call_time c = Some t /\
    call_tags c = None.
Proof.
  intros Herr Hcomp Hin Hrec.
  destruct (Gather_event_url GetTLSConfig json_Decode d l i _ Herr Hcomp Hin)
    as [url Hurl].
  destruct (Gather_task_outcome GetTLSConfig json_Decode d l i url Herr Hcomp Hurl)
    as (t & r & o & _ & Ho & Hnow & Hget & Hcalls).
  apply elem_of_calls_of in Hin. rewrite Hcalls in Hin.
  unfold task_calls, pipeline_error in Hin. unfold task_orders in Ho.
  destruct r as [body|err].
  - destruct (DecodeJSONMetrics json_Decode body) as [m [e|]] eqn:Hdec;
      cbn [snd] in Hin.
    + apply list_elem_of_singleton in Hin. subst c. discriminate.
    + exists url, body, m, o, t.
      pose proof (normalize_times o t) as Ht.
      pose proof (normalize_no_tags o t) as Hg.
      rewrite Forall_forall in Ht, Hg.
      split; [exact Hurl|]. split; [exact Hget|]. split; [exact Hdec|].
      split; [exact Ho|]. split; [exact Hnow|]. split; [exact Hin|].
      split; [apply Ht, Hin|apply Hg, Hin].
  - apply list_elem_of_singleton in Hin. subst c. discriminate.
Qed.

Lemma Gather_record_origin_witness :
  (0%nat, EvAcc (AccAdd AddCounter "requests.total" {[ "count" := VInt 42 ]}
                        None 1000)) ∈ demo_log /\
  exists url body m o t,
    URLs (pass_d (Gather demo_GetTLSConfig demo_json_Decode demo_d)) !! 0%nat =
      Some url /\
    (0%nat, EvGet url (inl body)) ∈ demo_log /\
    DecodeJSONMetrics demo_json_Decode body = (m, None) /\
    orders_of m o /\
    (0%nat, EvNow t) ∈ demo_log /\
    AccAdd AddCounter "requests.total" {[ "count" := VInt 42 ]} None 1000
      ∈ normalize o t /\
    call_time (AccAdd AddCounter "requests.total" {[ "count" := VInt 42 ]}
                      None 1000) = Some t /\
    call_tags (AccAdd AddCounter "requests.total" {[ "count" := VInt 42 ]}
                      None 1000) = None.
Proof.
  assert (Hin : (0%nat, EvAcc (AccAdd AddCounter "requests.total"
                    {[ "count" := VInt 42 ]} None 1000)) ∈ demo_log).
  { apply elem_of_calls_of. vm_compute. right. left. }
  split; [exact Hin|].
  apply (Gather_record_origin demo_GetTLSConfig demo_json_Decode demo_d demo_log
           0 _ eq_refl (run_seq_completes _ _ _) Hin eq_refl).
Defined.

(* ===================================================================== *)
(** * Further properties of the five loops *)
(* ===================================================================== *)

Section LoopFacts.

Lemma for_range_same {V K : Type} (key : V -> K)
    (body : string -> V -> list acc_call) (es es' : list (string * V)) :
  (forall name x y, key x = key y -> body name x = body name y) ->
  same_entries key es es' -> for_range es body = for_range es' body.
Proof.
  intros Hbody H. unfold for_range.
  induction H as [|[n x] [n' y] es es' [Hn Hk] _ IH]; [reflexivity|].
  cbn [flat_map fst snd] in *. subst n'. rewrite (Hbody n x y Hk), IH.
  reflexivity.
Qed.

Lemma for_range_Permutation {V : Type} (body : string -> V -> list acc_call)
    (es es' : list (string * V)) :
  es ≡ₚ es' -> for_range es body ≡ₚ for_range es' body.
Proof. intros H. unfold for_range. apply Permutation_flat_map, H. Qed.

(** A loop whose body always makes a call makes none only on no entry. *)
Lemma for_range_nil {V : Type} (body : string -> V -> list acc_call)
    (es : list (string * V)) :
  (forall name x, body name x <> []) ->
  (for_range es body = [] <-> es = []).
Proof.
  intros Hbody. unfold for_range. split; [|intros ->; reflexivity].
  destruct es as [|[n x] es]; [reflexivity|].
  cbn [flat_map fst snd]. intros H. apply app_eq_nil in H as [H _].
  destruct (Hbody n x H).
Qed.

Lemma for_range_gauges_nil (now : Time) (es : list (string * gauge)) :
  for_range es (gauge_body now) = [] <->
  Forall (fun kv => Type_ (Value kv.2) = StringType) es.
Proof.
  unfold for_range. induction es as [|[n g] es IH].
  - split; [constructor|reflexivity].
  - cbn [flat_map fst snd]. rewrite Forall_cons. cbn [snd].
    rewrite <- IH. unfold gauge_body at 1.
    destruct (Type_ (Value g)); cbn.
    + split; [discriminate|]. intros [H _]. discriminate.
    + split; [discriminate|]. intros [H _]. discriminate.
    + tauto.
Qed.

Lemma entries_nil {V : Type} (M : gmap string V) (es : list (string * V)) :
  es ≡ₚ map_to_list M -> (es = [] <-> M = ∅).
Proof.
  intros H. split.
  - intros ->. apply map_to_list_empty_iff. symmetry in H.
    apply Permutation_nil_r in H. exact H.
  - intros ->. rewrite map_to_list_empty in H.
    apply Permutation_nil_r in H. exact H.
Qed.

End LoopFacts.

(** X13. The unit strings are never reported. Two documents whose meters
    and timers differ in [units], [duration_units] and [rate_units] only,
    ranged over in the same order, give the same calls: all that is read
    of a meter and of a timer are its numbers. *)
Theorem normalize_ignores_units (o o' : orders) (now : Time) :
  o_gauges o = o_gauges o' ->
  o_counters o = o_counters o' ->
  o_histograms o = o_histograms o' ->
  same_entries meter_numbers (o_meters o) (o_meters o') ->
  same_entries timer_numbers (o_timers o) (o_timers o') ->
  normalize o now = normalize o' now.
Proof.
  intros Hg Hc Hh Hm Ht. unfold normalize. rewrite Hg, Hc, Hh.
  rewrite (for_range_same meter_numbers (meter_body now) _ _
             ltac:(intros name [] []; unfold meter_numbers, meter_body; cbn;
                   intros [= -> -> -> -> ->]; reflexivity) Hm).
  rewrite (for_range_same timer_numbers (timer_body now) _ _
             ltac:(intros name [] []; unfold timer_numbers, timer_body; cbn;
                   intros [= -> -> -> -> -> -> -> -> -> -> -> -> -> -> ->];
                   reflexivity) Ht).
  reflexivity.
Qed.

Lemma normalize_ignores_units_witness :
  let m := {| m_Count := 7; m_M15Rate := S754_zero false;
              m_M1Rate := S754_zero false; m_M5Rate := S754_zero false;
              m_MeanRate := S754_zero false; m_Units := "events/second" |} in
  let m' := {| m_Count := 7; m_M15Rate := S754_zero false;
               m_M1Rate := S754_zero false; m_M5Rate := S754_zero false;
               m_MeanRate := S754_zero false; m_Units := "events/minute" |} in
  let o := {| o_gauges := []; o_counters := []; o_histograms := [];
              o_meters := [("requests", m)]; o_timers := [] |} in
  let o' := {| o_gauges := []; o_counters := []; o_histograms := [];
               o_meters := [("requests", m')]; o_timers := [] |} in
  normalize o 1000 = normalize o' 1000.
Proof.
  cbv zeta.
  apply normalize_ignores_units; try reflexivity.
  - repeat constructor.
  - constructor.
Defined.

(** X14. A document makes no call at all, neither a record nor an error,
    exactly when it has no counter, no histogram, no meter and no timer,
    and no gauge other than strings: an empty document is taken silently. *)
Theorem normalize_nil_iff (m : metrics) (o : orders) (now : Time) :
  orders_of m o ->
  (normalize o now = [] <->
   (forall name g, Gauges m !! name = Some g -> Type_ (Value g) = StringType) /\
   Counters m = ∅ /\ Histograms m = ∅ /\ Meters m = ∅ /\ Timers m = ∅).
Proof.
  intros (Hg & Hc & Hh & Hm & Ht). unfold normalize.
  rewrite !app_nil.
  rewrite for_range_gauges_nil.
  rewrite (for_range_nil (counter_body now)) by discriminate.
  rewrite (for_range_nil (histogram_body now)) by discriminate.
  rewrite (for_range_nil (meter_body now)) by discriminate.
  rewrite (for_range_nil (timer_body now)) by discriminate.
  rewrite (entries_nil _ _ Hc), (entries_nil _ _ Hh), (entries_nil _ _ Hm),
          (entries_nil _ _ Ht).
  assert (HG : Forall (fun kv : string * gauge => Type_ (Value kv.2) = StringType)
                      (o_gauges o) <->
               forall name g, Gauges m !! name = Some g ->
                              Type_ (Value g) = StringType).
  { rewrite Hg, Forall_forall. split.
    - intros H name g Hl. apply (H (name, g)), elem_of_map_to_list, Hl.
    - intros H [name g] Hin. apply (H name g), elem_of_map_to_list, Hin. }
  rewrite HG. tauto.
Qed.

Lemma normalize_nil_iff_witness :
  orders_of metrics_zero (canonical_orders metrics_zero) /\
  normalize (canonical_orders metrics_zero) 1000 = [].
Proof.
  split; [apply canonical_orders_of|].
  apply (normalize_nil_iff metrics_zero (canonical_orders metrics_zero) 1000
           (canonical_orders_of metrics_zero)).
  split; [intros name g H; unfold metrics_zero in H; cbn [Gauges] in H;
          rewrite lookup_empty in H; discriminate|].
  repeat split.
Defined.

(** X15. The order of the loops over the maps, which Go leaves open,
    changes the order of the records and nothing else: whichever orders
    the five loops take, the calls made for a document are the same, each
    as many times. *)
Theorem normalize_order_irrelevant (m : metrics) (o o' : orders) (now : Time) :
  orders_of m o -> orders_of m o' ->
  normalize o now ≡ₚ normalize o' now.
Proof.
  intros (Hg & Hc & Hh & Hm & Ht) (Hg' & Hc' & Hh' & Hm' & Ht').
  unfold normalize.
  repeat apply Permutation_app; apply for_range_Permutation.
  - rewrite Hg, Hg'. reflexivity.
  - rewrite Hc, Hc'. reflexivity.
  - rewrite Hh, Hh'. reflexivity.
  - rewrite Hm, Hm'. reflexivity.
  - rewrite Ht, Ht'. reflexivity.
Qed.

Lemma normalize_order_irrelevant_witness :
  let o' := {| o_gauges := reverse (map_to_list (Gauges demo_doc));
               o_counters := map_to_list (Counters demo_doc);
               o_histograms := []; o_meters := []; o_timers := [] |} in
  orders_of demo_doc o' /\
  normalize (canonical_orders demo_doc) 1000 ≡ₚ normalize o' 1000.
Proof.
  cbv zeta.
  assert (Ho : orders_of demo_doc
            {| o_gauges := reverse (map_to_list (Gauges demo_doc));
               o_counters := map_to_list (Counters demo_doc);
               o_histograms := []; o_meters := []; o_timers := [] |}).
  { repeat split; cbn [o_gauges o_counters o_histograms o_meters o_timers].
    - apply reverse_Permutation.
    - reflexivity.
    - reflexivity.
    - reflexivity.
    - reflexivity. }
  split; [exact Ho|].
  apply (normalize_order_irrelevant demo_doc _ _ 1000
           (canonical_orders_of demo_doc) Ho).
Defined.

(** X16. The type of a field goes with its name. In every record [count]
    is an integer; [mean], [stddev], the percentiles and the rates are
    floats; [max] and [min] are integers in what goes through
    [AddHistogram] and floats in what goes through [AddFields] (the
    timers); [value] is the one field whose type follows the data. *)
Theorem normalize_field_types (o : orders) (now : Time) :
  Forall (fun c => forall k v, call_fields c !! k = Some v ->
            (k = "count" -> exists z, v = VInt z) /\
            (float_field k = true -> exists f, v = VFloat f) /\
            (k = "max" \/ k = "min" ->
               (call_method c = Some AddHistogram /\ exists z, v = VInt z) \/
               (call_method c = Some AddFields /\ exists f, v = VFloat f)) /\
            (k = "value" -> call_method c = Some AddGauge))
         (normalize o now).
Proof.
  unfold normalize. repeat (apply Forall_app; split);
    apply Forall_for_range; intros name x.
  - unfold gauge_body.
    destruct (Type_ (Value x)); [| |constructor]; apply Forall_singleton;
      cbn [call_fields call_method]; intros k v H;
      apply lookup_singleton_Some in H as [<- <-];
      (split; [discriminate|]); (split; [discriminate|]);
      (split; [intros [|]; discriminate|reflexivity]).
  - apply Forall_singleton. cbn [call_fields call_method]. intros k v H.
    apply lookup_singleton_Some in H as [<- <-].
    split; [eauto|]. split; [discriminate|].
    split; [intros [|]; discriminate|discriminate].
  - apply Forall_singleton. cbn [call_fields call_method]. intros k v H.
    repeat (apply lookup_insert_Some in H as [[<- <-]|[_ H]]);
      try (rewrite lookup_empty in H; discriminate);
      (split; [try discriminate; eauto|]);
      (split; [try discriminate; eauto|]);
      (split; [try (intros [|]; discriminate); left; eauto|discriminate]).
  - apply Forall_singleton. cbn [call_fields call_method]. intros k v H.
    repeat (apply lookup_insert_Some in H as [[<- <-]|[_ H]]);
      try (rewrite lookup_empty in H; discriminate);
      (split; [try discriminate; eauto|]);
      (split; [try discriminate; eauto|]);
      (split; [intros [|]; discriminate|discriminate]).
  - apply Forall_singleton. cbn [call_fields call_method]. intros k v H.
    repeat (apply lookup_insert_Some in H as [[<- <-]|[_ H]]);
      try (rewrite lookup_empty in H; discriminate);
      (split; [try discriminate; eauto|]);
      (split; [try discriminate; eauto|]);
      (split; [try (intros [|]; discriminate); right; eauto|discriminate]).
Qed.

(* ===================================================================== *)
(** * The model at work *)
(* ===================================================================== *)

(** The decoder on some tokens: an integer, a float, a string, a number
    inside quotes (a string), the largest and the smallest 64-bit integer,
    and the first literal past each. *)
Example UnmarshalJSON_examples :
  Type_ (UnmarshalJSON gaugeValue_zero "42").1 = IntType /\
  (UnmarshalJSON gaugeValue_zero "3.14").1 =
    {| IntValue := 0; FloatValue := S754_finite false 7070651414971679 (-51);
       StringValue := EmptyString; Type_ := FloatType |} /\
  (UnmarshalJSON gaugeValue_zero (quoted "ok")).1 =
    {| IntValue := 0; FloatValue := S754_zero false;
       StringValue := "ok"; Type_ := StringType |} /\
  (UnmarshalJSON gaugeValue_zero (quoted "3.14")).1 =
    {| IntValue := 0; FloatValue := S754_zero false;
       StringValue := "3.14"; Type_ := StringType |} /\
  IntValue (UnmarshalJSON gaugeValue_zero "9223372036854775807").1 = maxInt64 /\
  IntValue (UnmarshalJSON gaugeValue_zero "-9223372036854775808").1 = minInt64 /\
  (UnmarshalJSON gaugeValue_zero "9223372036854775808").1 =
    {| IntValue := 0; FloatValue := S754_finite false 4503599627370496 11;
       StringValue := EmptyString; Type_ := FloatType |} /\
  (UnmarshalJSON gaugeValue_zero "-9223372036854775809").1 =
    {| IntValue := 0; FloatValue := S754_finite true 4503599627370496 11;
       StringValue := EmptyString; Type_ := FloatType |} /\
  (UnmarshalJSON gaugeValue_zero "true").1 =
    {| IntValue := 0; FloatValue := S754_zero false;
       StringValue := "true"; Type_ := StringType |}.
Proof. vm_compute. repeat split. Qed.

(** One counter gives one record, with the field [count]. *)
Example normalize_counter_example :
  normalize
    (canonical_orders
       {| Version := EmptyString; Gauges := ∅;
          Counters := {[ "requests.total" := {| c_Count := 42 |} ]};
          Histograms := ∅; Meters := ∅; Timers := ∅ |}) 1511294800 =
  [AccAdd AddCounter "requests.total" {[ "count" := VInt 42 ]} None 1511294800].
Proof. vm_compute. reflexivity. Qed.

(** A gauge read from a float token gives one record; a gauge read from a
    string token gives none. *)
Example normalize_gauge_example :
  normalize
    (canonical_orders
       {| Version := EmptyString;
          Gauges := <["jvm.x" := gauge_of_token "3.14"]>
                    (<["jvm.y" := gauge_of_token (quoted "ok")]> ∅);
          Counters := ∅; Histograms := ∅; Meters := ∅; Timers := ∅ |})
    1511294800 =
  [AccAdd AddGauge "jvm.x"
          {[ "value" := VFloat (S754_finite false 7070651414971679 (-51)) ]}
          None 1511294800].
Proof. vm_compute. reflexivity. Qed.

(** The pass of [demo_d], its goroutines run one after the other: the first
    and the third URL give the two records of [demo_doc], the string gauge
    left out, each with the time its own goroutine read; the second gives
    its error and nothing else. *)
Example demo_log_calls :
  pass_err (Gather demo_GetTLSConfig demo_json_Decode demo_d) = None /\
  calls_of 0 demo_log =
    [AccAdd AddGauge "jvm.memory.total.used" {[ "value" := VInt 93176816 ]}
            None 1000;
     AccAdd AddCounter "requests.total" {[ "count" := VInt 42 ]} None 1000] /\
  calls_of 1 demo_log =
    [AccAddError "[url=http://b/metrics]: invalid character '<' looking for beginning of value"] /\
  calls_of 2 demo_log =
    [AccAdd AddGauge "jvm.memory.total.used" {[ "value" := VInt 93176816 ]}
            None 1002;
     AccAdd AddCounter "requests.total" {[ "count" := VInt 42 ]} None 1002] /\
  length (all_calls demo_log) = 5%nat.
Proof. vm_compute. repeat split. Qed.
